(** * Cloud Tasks emulator: the Server registry and its RPC handlers

    A shallow embedding of [pkg/cloud_task_emulator/emulator.go]: the two
    name-keyed maps of the [Server] (queues and tasks, with nil tombstones),
    the RPC handlers working on them, and the parts of the queue and task
    engine the handlers call into.  Go pointers are locations into explicit
    heaps, so that aliasing between the registry, a queue's task set and the
    values handed back to callers is visible in the model. *)

From Stdlib Require Import ZArith Ascii String List Lia Bool Permutation Sorted.
From Stdlib Require Import DecimalString DecimalN DecimalPos.
From stdpp Require Import gmap strings list fin_maps.

Local Open Scope string_scope.
Local Open Scope Z_scope.

(** ** Go prelude: the library functions the handlers use *)

Module Go.

(** [strings.HasPrefix s prefix]. *)
Definition HasPrefix (s pre : string) : bool := String.prefix pre s.

(** [strings.Compare a b < 0]: byte-wise lexicographic order. *)
Definition strings_less (a b : string) : bool :=
  match String.compare a b with Lt => true | _ => false end.

(** Bounds of Go's [int] on the 64-bit platforms the emulator runs on. *)
Definition min_int : Z := - 2 ^ 63.
Definition max_int : Z := 2 ^ 63 - 1.

(** Two's complement wrap-around of [int] arithmetic. *)
Definition wrap_int (z : Z) : Z := (z + 2 ^ 63) mod 2 ^ 64 - 2 ^ 63.

(** The optional sign in front of a number: whether it is a minus, and the rest. *)
Definition split_sign (s : string) : bool * string :=
  match s with
  | String "-"%char r => (true, r)
  | String "+"%char r => (false, r)
  | _ => (false, s)
  end.

(** [strconv.Atoi]: an optional sign, then one or more decimal digits, and the
    value has to fit an [int]; [None] stands for the error result. *)
Definition Atoi (s : string) : option Z :=
  let '(neg, body) := split_sign s in
  match body with
  | EmptyString => None
  | _ =>
    match NilEmpty.uint_of_string body with
    | None => None
    | Some d =>
      let n := Z.of_N (N.of_uint d) in
      let v := if neg : bool then - n else n in
      if (min_int <=? v) && (v <=? max_int) then Some v else None
    end
  end.

(** [strconv.Itoa]. *)
Definition Itoa (z : Z) : string :=
  if z <? 0
  then String "-"%char (NilEmpty.string_of_uint (N.to_uint (Z.to_N (- z))))
  else NilEmpty.string_of_uint (N.to_uint (Z.to_N z)).

(** [sort.SliceStable]: the stable sort of [l] under [less].  Insertion from the
    right keeps an element in front of the later elements it is not greater
    than, which is what stability asks for. *)
Section Sort.
Context {A : Type} (less : A -> A -> bool).

Fixpoint insert_stable (x : A) (l : list A) : list A :=
    match l with
    | [] => [x]
    | y :: l' => if less y x then y :: insert_stable x l' else x :: y :: l'
    end.

Fixpoint SliceStable (l : list A) : list A :=
    match l with
    | [] => []
    | x :: l' => insert_stable x (SliceStable l')
    end.
End Sort.

(** The comparison [ListTasks] sorts with: [strings.Compare] of a key. *)
Definition by_key {A} (key : A -> string) (a b : A) : bool :=
  strings_less (key a) (key b).

(** [a] may stand in front of [b]: [b]'s key is not less than [a]'s. *)
Definition key_le {A} (key : A -> string) (a b : A) : Prop :=
  strings_less (key b) (key a) = false.

(** Go's slice expression [l[start:]] panics when the bound is out of range;
    [None] is the panic. *)
Definition slice_from {A} (l : list A) (start : Z) : option (list A) :=
  if (0 <=? start) && (start <=? Z.of_nat (length l))
  then Some (drop (Z.to_nat start) l) else None.

End Go.

(** ** Regular expressions, as far as the emulator's patterns need them *)

Module Regexp.

Inductive regex : Type :=
| Void                          (* matches nothing *)
| Eps                           (* the empty string *)
| Lit (c : ascii)
| Range (lo hi : ascii)         (* one character class item, [lo-hi] *)
| AnyChar
| Alt (r1 r2 : regex)
| Cat (r1 r2 : regex)
| Star (r : regex).

Definition Plus (r : regex) : regex := Cat r (Star r).

(** A literal string. *)
Fixpoint Str (s : string) : regex :=
  match s with
  | EmptyString => Eps
  | String c s' => Cat (Lit c) (Str s')
  end.

Fixpoint nullable (r : regex) : bool :=
  match r with
  | Void => false
  | Eps => true
  | Lit _ => false
  | Range _ _ => false
  | AnyChar => false
  | Alt r1 r2 => nullable r1 || nullable r2
  | Cat r1 r2 => nullable r1 && nullable r2
  | Star _ => true
  end.

Definition in_range (lo hi c : ascii) : bool :=
  ((nat_of_ascii lo <=? nat_of_ascii c) && (nat_of_ascii c <=? nat_of_ascii hi))%nat.

(** Brzozowski derivative of [r] by the character [c]. *)
Fixpoint deriv (c : ascii) (r : regex) : regex :=
  match r with
  | Void => Void
  | Eps => Void
  | Lit a => if Ascii.eqb a c then Eps else Void
  | Range lo hi => if in_range lo hi c then Eps else Void
  | AnyChar => Eps
  | Alt r1 r2 => Alt (deriv c r1) (deriv c r2)
  | Cat r1 r2 =>
      if nullable r1
      then Alt (Cat (deriv c r1) r2) (deriv c r2)
      else Cat (deriv c r1) r2
  | Star r1 => Cat (deriv c r1) (Star r1)
  end.

(** Whether [r] matches the whole of [s]. *)
Fixpoint full_match (r : regex) (s : string) : bool :=
  match s with
  | EmptyString => nullable r
  | String c s' => full_match (deriv c r) s'
  end.

(** [regexp.MatchString pattern s] reports whether [s] CONTAINS a match of the
    pattern: a pattern without [^] and [$] may match any substring. *)
Definition MatchString (r : regex) (s : string) : bool :=
  full_match (Cat (Star AnyChar) (Cat r (Star AnyChar))) s.

(** The declarative reading of a pattern, against which the matcher is
    checked below. *)
Inductive Matches : regex -> string -> Prop :=
| M_Eps : Matches Eps ""
| M_Lit c : Matches (Lit c) (String c "")
| M_Range lo hi c : in_range lo hi c = true -> Matches (Range lo hi) (String c "")
| M_Any c : Matches AnyChar (String c "")
| M_AltL r1 r2 s : Matches r1 s -> Matches (Alt r1 r2) s
| M_AltR r1 r2 s : Matches r2 s -> Matches (Alt r1 r2) s
| M_Cat r1 r2 s1 s2 : Matches r1 s1 -> Matches r2 s2 -> Matches (Cat r1 r2) (s1 ++ s2)
| M_Star0 r : Matches (Star r) ""
| M_StarS r s1 s2 : Matches r s1 -> Matches (Star r) s2 -> Matches (Star r) (s1 ++ s2).

(** The character class [[A-Za-z0-9-]]. *)
Definition id_char : regex :=
  Alt (Range "A" "Z") (Alt (Range "a" "z") (Alt (Range "0" "9") (Lit "-"))).

(** The character class [[A-Za-z0-9_-]]. *)
Definition task_id_char : regex := Alt id_char (Lit "_").

(** [projects/[A-Za-z0-9-]+/locations/[A-Za-z0-9-]+] *)
Definition parent_pattern : regex :=
  Cat (Str "projects/") (Cat (Plus id_char)
  (Cat (Str "/locations/") (Plus id_char))).

(** [projects/[A-Za-z0-9-]+/locations/[A-Za-z0-9-]+/queues/[A-Za-z0-9-]+] *)
Definition queue_pattern : regex :=
  Cat parent_pattern (Cat (Str "/queues/") (Plus id_char)).

(** [projects/.../locations/.../queues/.../tasks/[A-Za-z0-9_-]+] *)
Definition task_pattern : regex :=
  Cat queue_pattern (Cat (Str "/tasks/") (Plus task_id_char)).

End Regexp.


(** ** Data model *)

(** gRPC status codes the handlers return. *)
Inductive code : Type :=
| InvalidArgument | NotFound | AlreadyExists | FailedPrecondition | Unimplemented.

(** What a handler call comes to: a value, a gRPC error, or a Go run-time panic
    (nil dereference, slice bounds), which grpc-go does not recover from. *)
Inductive result (A : Type) : Type :=
| Ok (a : A)
| Err (c : code) (msg : string)
| Panic.
Arguments Ok {A} a.
Arguments Err {A} c msg.
Arguments Panic {A}.

(** An address of a Go object.  A pointer is an [option loc], [None] being nil. *)
Definition loc : Type := nat.

(** The protobuf messages of [cloudtaskspb], with the fields the registry and
    the retry engine read or write.  Durations and instants are nanoseconds. *)
Module tasks.

Inductive Queue_State : Type :=
  | STATE_UNSPECIFIED | RUNNING | PAUSED | DISABLED.

Module RetryConfig.
Record t : Type := mk {
      MaxAttempts : Z;
      MaxRetryDuration : option Z;
      MinBackoff : Z;
      MaxBackoff : Z;
      MaxDoublings : Z
    }.
End RetryConfig.

Module Queue.
Record t : Type := mk {
      Name : string;
      State : Queue_State;
      RetryConfig : option RetryConfig.t
    }.
End Queue.

Inductive MessageType : Type :=
  | HttpRequest (url : string)
  | AppEngineHttpRequest (relative_uri : string).

Module Task.
Record t : Type := mk {
      Name : string;
      MessageType : option MessageType;
      ScheduleTime : option Z;
      DispatchCount : Z;
      ResponseCount : Z;
      FirstAttempt : option Z
    }.
End Task.

End tasks.

(** The emulator's [Task] struct: its state message, the queue owning it, and
    whether it reached its terminal state. *)
Module Task.
Record t : Type := mk {
    state : loc;
    queue : loc;
    done : bool
  }.
End Task.

(** The emulator's [Queue] struct.  [ts] is the queue's own task set; like the
    Server's, it is a map from task names to [*Task]. *)
Module Queue.
Record t : Type := mk {
    name : string;
    state : loc;
    ts : gmap string (option loc);
    cancelled : bool
  }.
End Queue.

Record ServerOptions : Type := mkServerOptions {
  HardResetOnPurgeQueue : bool
}.

(** [Server]: [qs] and [ts] map a name to a live object or to nil, the
    tombstone of a name that was in use. *)
Record Server : Type := mkServer {
  qs : gmap string (option loc);
  ts : gmap string (option loc);
  Options : ServerOptions
}.

(** The process: the server, the heap its pointers lead into (one store per
    Go type), the purge goroutines not yet run, and the allocator. *)
Record World : Type := mkWorld {
  srv : Server;
  queueObjs : gmap loc Queue.t;
  taskObjs : gmap loc Task.t;
  queueMsgs : gmap loc tasks.Queue.t;
  taskMsgs : gmap loc tasks.Task.t;
  purging : list loc;
  nextLoc : loc
}.

#[export] Instance tasks_Queue_inhabited : Inhabited tasks.Queue.t :=
  populate (tasks.Queue.mk "" tasks.STATE_UNSPECIFIED None).
#[export] Instance tasks_Task_inhabited : Inhabited tasks.Task.t :=
  populate (tasks.Task.mk "" None None 0 0 None).
#[export] Instance Task_inhabited : Inhabited Task.t :=
  populate (Task.mk 0%nat 0%nat true).
#[export] Instance Queue_inhabited : Inhabited Queue.t :=
  populate (Queue.mk "" 0%nat ∅ true).

(** Field updates. *)
Definition upd_qs (f : gmap string (option loc) -> gmap string (option loc)) (w : World) : World :=
  mkWorld (mkServer (f (qs (srv w))) (ts (srv w)) (Options (srv w)))
          (queueObjs w) (taskObjs w) (queueMsgs w) (taskMsgs w) (purging w) (nextLoc w).

Definition upd_ts (f : gmap string (option loc) -> gmap string (option loc)) (w : World) : World :=
  mkWorld (mkServer (qs (srv w)) (f (ts (srv w))) (Options (srv w)))
          (queueObjs w) (taskObjs w) (queueMsgs w) (taskMsgs w) (purging w) (nextLoc w).

Definition upd_queueObjs (f : gmap loc Queue.t -> gmap loc Queue.t) (w : World) : World :=
  mkWorld (srv w) (f (queueObjs w)) (taskObjs w) (queueMsgs w) (taskMsgs w) (purging w) (nextLoc w).

Definition upd_taskObjs (f : gmap loc Task.t -> gmap loc Task.t) (w : World) : World :=
  mkWorld (srv w) (queueObjs w) (f (taskObjs w)) (queueMsgs w) (taskMsgs w) (purging w) (nextLoc w).

Definition upd_queueMsgs (f : gmap loc tasks.Queue.t -> gmap loc tasks.Queue.t) (w : World) : World :=
  mkWorld (srv w) (queueObjs w) (taskObjs w) (f (queueMsgs w)) (taskMsgs w) (purging w) (nextLoc w).

Definition upd_taskMsgs (f : gmap loc tasks.Task.t -> gmap loc tasks.Task.t) (w : World) : World :=
  mkWorld (srv w) (queueObjs w) (taskObjs w) (queueMsgs w) (f (taskMsgs w)) (purging w) (nextLoc w).

Definition upd_purging (f : list loc -> list loc) (w : World) : World :=
  mkWorld (srv w) (queueObjs w) (taskObjs w) (queueMsgs w) (taskMsgs w) (f (purging w)) (nextLoc w).

(** Allocation hands out the next unused address. *)
Definition alloc (w : World) : loc * World :=
  (nextLoc w,
   mkWorld (srv w) (queueObjs w) (taskObjs w) (queueMsgs w) (taskMsgs w) (purging w) (S (nextLoc w))).

(** Dereferences.  A Go pointer never dangles, so the reads are total. *)
Definition queue_at (w : World) (q : loc) : Queue.t := queueObjs w !!! q.
Definition task_at (w : World) (t : loc) : Task.t := taskObjs w !!! t.
Definition queue_msg (w : World) (p : loc) : tasks.Queue.t := queueMsgs w !!! p.
Definition task_msg (w : World) (p : loc) : tasks.Task.t := taskMsgs w !!! p.

(** [task.state.GetName()] and [queue.state] read through the struct. *)
Definition task_name (w : World) (t : loc) : string :=
  tasks.Task.Name (task_msg w (Task.state (task_at w t))).

(** [proto.Clone]: a fresh message with the same contents. *)
Definition Clone_Queue (p : loc) (w : World) : loc * World :=
  let '(c, w1) := alloc w in
  (c, upd_queueMsgs (insert c (queue_msg w p)) w1).

Definition Clone_Task (p : loc) (w : World) : loc * World :=
  let '(c, w1) := alloc w in
  (c, upd_taskMsgs (insert c (task_msg w p)) w1).

(** A request message arrives by value; storing it gives it an address. *)
Definition store_Queue (m : tasks.Queue.t) (w : World) : loc * World :=
  let '(c, w1) := alloc w in
  (c, upd_queueMsgs (insert c m) w1).

Definition store_Task (m : tasks.Task.t) (w : World) : loc * World :=
  let '(c, w1) := alloc w in
  (c, upd_taskMsgs (insert c m) w1).

(** ** The Server's map accessors (emulator.go, lines 46-84) *)

Definition setQueue (queueName : string) (queue : option loc) (w : World) : World :=
  upd_qs (insert queueName queue) w.

Definition fetchQueue (w : World) (queueName : string) : option loc * bool :=
  match qs (srv w) !! queueName with
  | Some queue => (queue, true)
  | None => (None, false)
  end.

Definition removeQueue (queueName : string) (w : World) : World :=
  setQueue queueName None w.

Definition setTask (taskName : string) (task : option loc) (w : World) : World :=
  upd_ts (insert taskName task) w.

Definition fetchTask (w : World) (taskName : string) : option loc * bool :=
  match ts (srv w) !! taskName with
  | Some task => (task, true)
  | None => (None, false)
  end.

Definition removeTask (taskName : string) (w : World) : World :=
  setTask taskName None w.

Definition hardDeleteTask (taskName : string) (w : World) : World :=
  upd_ts (delete taskName) w.

(** [NewServer]. *)
Definition NewServer : World :=
  mkWorld (mkServer ∅ ∅ (mkServerOptions false)) ∅ ∅ ∅ ∅ [] 0%nat.

(** ** Retry policy *)

Definition millisecond : Z := 1000000.
Definition second : Z := 1000000000.

(** Modelled from the spec: the default policy of section 4.1; the code that
    installs it (queue.go) is not among the sources. *)
Definition default_RetryConfig : tasks.RetryConfig.t :=
  tasks.RetryConfig.mk 100 None (100 * millisecond) (3600 * second) 16.

Definition clamp (x lo hi : Z) : Z := Z.max lo (Z.min x hi).

(** Modelled from the spec: the delay function of section 4.1,
    [clamp(minBackoff * 2^min(n, maxDoublings), minBackoff, maxBackoff)];
    task.go, which computes it, is not among the sources. *)
Definition backoff (P : tasks.RetryConfig.t) (n : Z) : Z :=
  clamp (tasks.RetryConfig.MinBackoff P * 2 ^ Z.min n (tasks.RetryConfig.MaxDoublings P))
        (tasks.RetryConfig.MinBackoff P) (tasks.RetryConfig.MaxBackoff P).

(** Modelled from the spec: termination of section 4.1.  The task stops after
    [maxAttempts] dispatches, or when the next attempt would start more than
    [maxRetryDuration] after the first one. *)
Definition retry_exhausted (P : tasks.RetryConfig.t) (st : tasks.Task.t) (next : Z) : bool :=
  (tasks.RetryConfig.MaxAttempts P <=? tasks.Task.DispatchCount st)
  || match tasks.RetryConfig.MaxRetryDuration P, tasks.Task.FirstAttempt st with
     | Some d, Some first => d <? next - first
     | _, _ => false
     end.

(** ** The queue and task engine *)

Definition with_ts (f : gmap string (option loc) -> gmap string (option loc)) (q : Queue.t) : Queue.t :=
  Queue.mk (Queue.name q) (Queue.state q) (f (Queue.ts q)) (Queue.cancelled q).

Definition with_cancelled (b : bool) (q : Queue.t) : Queue.t :=
  Queue.mk (Queue.name q) (Queue.state q) (Queue.ts q) b.

Definition with_done (b : bool) (t : Task.t) : Task.t :=
  Task.mk (Task.state t) (Task.queue t) b.

Definition with_State (s : tasks.Queue_State) (m : tasks.Queue.t) : tasks.Queue.t :=
  tasks.Queue.mk (tasks.Queue.Name m) s (tasks.Queue.RetryConfig m).

(** The retry policy a queue runs its tasks under. *)
Definition queue_policy (w : World) (q : loc) : tasks.RetryConfig.t :=
  default default_RetryConfig (tasks.Queue.RetryConfig (queue_msg w (Queue.state (queue_at w q)))).

(** The callback [CreateQueue] hands to [NewQueue] (emulator.go, lines 145-147):
    [func(task *Task) { s.removeTask(task.state.GetName()) }]. *)
Definition Server_onTaskDone (task : loc) (w : World) : World :=
  removeTask (task_name w task) w.

(** Modelled from the spec: the removal callback of section 4.3 (queue.go is
    not among the sources).  It takes the live entry out of the queue's task set
    and tombstones the name in the registry.  The entry is set to nil: the range
    loop of [ListTasks] skips nil entries of [queue.ts]. *)
Definition Queue_onTaskDone (task : loc) (w : World) : World :=
  let q := Task.queue (task_at w task) in
  let w1 := upd_queueObjs (insert q (with_ts (insert (task_name w task) None) (queue_at w q))) w in
  Server_onTaskDone task w1.

(** A task reaches its terminal state: it is marked and the removal callback
    runs, once. *)
Definition Task_finish (t : loc) (w : World) : World :=
  Queue_onTaskDone t (upd_taskObjs (insert t (with_done true (task_at w t))) w).

(** Modelled from the spec: [Task.Delete] of section 4.2 (task.go is not among
    the sources): cancel the timer and any dispatch in flight, mark terminal,
    invoke the removal callback exactly once. *)
Definition Task_Delete (t : loc) (w : World) : World :=
  if Task.done (task_at w t) then w else Task_finish t w.

(** Modelled from the spec: [Task.Run] of section 4.2 forces a dispatch whose
    outcome arrives later as an attempt; the handler gets the state back,
    cloned as section 9 asks for what goes to the caller. *)
Definition Task_Run (t : loc) (w : World) : loc * World :=
  Clone_Task (Task.state (task_at w t)) w.

Definition is_2xx (status : Z) : bool := (200 <=? status) && (status <? 300).

(** Modelled from the spec: the dispatch algorithm of section 4.2 (task.go is
    not among the sources).  The timer of task [t] fires at time [now] and the
    target answers with [status].  A terminal task, and a task of a queue that
    is not running, does not dispatch.  The backoff after a failure is the
    policy's delay for the attempt that just failed, the reading under which
    the gaps are 100ms, 200ms, 400ms as section 8 and the test
    TestErrorTaskExecution have them. *)
Definition Task_Attempt (t : loc) (status now : Z) (w : World) : World :=
  let task := task_at w t in
  let q := Task.queue task in
  let st := task_msg w (Task.state task) in
  if Task.done task then w
  else if Queue.cancelled (queue_at w q) then w
  else match tasks.Queue.State (queue_msg w (Queue.state (queue_at w q))) with
  | tasks.RUNNING =>
    let first := match tasks.Task.FirstAttempt st with Some f => Some f | None => Some now end in
    let count := tasks.Task.DispatchCount st + 1 in
    if is_2xx status then
      let st1 := tasks.Task.mk (tasks.Task.Name st) (tasks.Task.MessageType st)
                   (tasks.Task.ScheduleTime st) count (tasks.Task.ResponseCount st) first in
      Task_finish t (upd_taskMsgs (insert (Task.state task) st1) w)
    else
      let P := queue_policy w q in
      let next := default now (tasks.Task.ScheduleTime st) + backoff P (count - 1) in
      let st1 := tasks.Task.mk (tasks.Task.Name st) (tasks.Task.MessageType st)
                   (tasks.Task.ScheduleTime st) count (tasks.Task.ResponseCount st + 1) first in
      if retry_exhausted P st1 next then
        Task_finish t (upd_taskMsgs (insert (Task.state task) st1) w)
      else
        let st2 := tasks.Task.mk (tasks.Task.Name st) (tasks.Task.MessageType st)
                     (Some next) count (tasks.Task.ResponseCount st + 1) first in
        upd_taskMsgs (insert (Task.state task) st2) w
  | _ => w
  end.

(** The non-nil entries of a task map, in the order [visit] lists them. *)
Definition live_of (visit : list (string * option loc)) : list loc :=
  omap snd visit.

(** Modelled from the spec: [NewQueue] (queue.go is not among the sources).
    The queue starts RUNNING with an empty task set, takes the default retry
    policy where the request gives none, and hands back a clone of its state
    (section 9, clone on create). *)
Definition NewQueue (name : string) (state : loc) (w : World) : (loc * loc) * World :=
  let m := queue_msg w state in
  let m1 := tasks.Queue.mk (tasks.Queue.Name m) tasks.RUNNING
              (Some (default default_RetryConfig (tasks.Queue.RetryConfig m))) in
  let w1 := upd_queueMsgs (insert state m1) w in
  let '(q, w2) := alloc w1 in
  let w3 := upd_queueObjs (insert q (Queue.mk name state ∅ false)) w2 in
  let '(c, w4) := Clone_Queue state w3 in
  ((q, c), w4).

(** The name of a new task: the one the request gives, or the queue's name,
    [/tasks/] and the random id. *)
Definition new_task_name (w : World) (q : loc) (m : tasks.Task.t) (rnd : string) : string :=
  if decide (tasks.Task.Name m = "")
  then (Queue.name (queue_at w q) ++ "/tasks/" ++ rnd)%string
  else tasks.Task.Name m.

(** Modelled from the spec: [Queue.NewTask] of section 4.3 (queue.go is not
    among the sources): name the task, set its schedule time to the one
    supplied or to now, keep a clone for the caller, install the task in the
    queue's task set.  [rnd] is the 19-digit random id drawn when the request
    names no task, [now] the clock. *)
Definition new_task_state (name : string) (m : tasks.Task.t) (now : Z) : tasks.Task.t :=
  tasks.Task.mk name (tasks.Task.MessageType m)
    (Some (default now (tasks.Task.ScheduleTime m)))
    (tasks.Task.DispatchCount m) (tasks.Task.ResponseCount m) (tasks.Task.FirstAttempt m).

Definition Queue_NewTask (q : loc) (newTaskState : tasks.Task.t) (now : Z) (rnd : string)
    (w : World) : (loc * loc) * World :=
  let name := new_task_name w q newTaskState rnd in
  let st := new_task_state name newTaskState now in
  let '(p, w1) := store_Task st w in
  let '(t, w2) := alloc w1 in
  let w3 := upd_taskObjs (insert t (Task.mk p q false)) w2 in
  let '(c, w4) := Clone_Task p w3 in
  let w5 := upd_queueObjs (insert q (with_ts (insert name (Some t)) (queue_at w4 q))) w4 in
  ((t, c), w5).

(** Modelled from the spec: [Queue.Pause] and [Queue.Resume] flip the run
    state. *)
Definition Queue_Pause (q : loc) (w : World) : World :=
  let p := Queue.state (queue_at w q) in
  upd_queueMsgs (insert p (with_State tasks.PAUSED (queue_msg w p))) w.

Definition Queue_Resume (q : loc) (w : World) : World :=
  let p := Queue.state (queue_at w q) in
  upd_queueMsgs (insert p (with_State tasks.RUNNING (queue_msg w p))) w.

(** Deleting every task of a list. *)
Definition delete_all (l : list loc) (w : World) : World :=
  foldl (fun w t => Task_Delete t w) w l.

(** Modelled from the spec: [Queue.Purge] of section 4.3 is asynchronous; the
    call only starts the goroutine, which later snapshots the live task set and
    deletes each task. *)
Definition Queue_Purge (q : loc) (w : World) : World :=
  upd_purging (fun l => (l ++ [q])%list) w.

Definition purge_worker (w : World) : World :=
  match purging w with
  | [] => w
  | q :: rest =>
      delete_all (live_of (map_to_list (Queue.ts (queue_at w q)))) (upd_purging (fun _ => rest) w)
  end.

(** Modelled from the spec: [Queue.HardReset] of section 4.3: like Purge but
    synchronous, and the names of the queue's task set, tombstones included,
    are hard-deleted from the registry. *)
Definition Queue_HardReset (q : loc) (w : World) : World :=
  let entries := map_to_list (Queue.ts (queue_at w q)) in
  let w1 := delete_all (live_of entries) w in
  let w2 := foldl (fun w kv => hardDeleteTask (fst kv) w) w1 entries in
  upd_queueObjs (insert q (with_ts (fun _ => ∅) (queue_at w2 q))) w2.

(** Modelled from the spec: [Queue.Delete] of section 4.3 is terminal and
    cascades to every live task; the handler writes the queue's tombstone. *)
Definition Queue_Delete (q : loc) (w : World) : World :=
  let w1 := upd_queueObjs (insert q (with_cancelled true (queue_at w q))) w in
  delete_all (live_of (map_to_list (Queue.ts (queue_at w1 q)))) w1.

(** Modelled from the spec: [isValidTaskName], the anchored pattern of
    section 4.4; its definition is not among the sources. *)
Definition isValidTaskName (name : string) : bool :=
  Regexp.full_match Regexp.task_pattern name.

(** ** The RPC handlers (emulator.go) *)

(** Requests with more than a [Name]; the others are passed as that string. *)
Module CreateQueueRequest.
Record t : Type := mk { Parent : string; Queue : option tasks.Queue.t }.
End CreateQueueRequest.

Module CreateTaskRequest.
Record t : Type := mk { Parent : string; Task : option tasks.Task.t }.
End CreateTaskRequest.

Module ListTasksRequest.
Record t : Type := mk { Parent : string; PageSize : Z; PageToken : string }.
End ListTasksRequest.

Module ListTasksResponse.
Record t : Type := mk { Tasks : list loc; NextPageToken : string }.
End ListTasksResponse.

(** The nil-safe getter [GetName] of a queue message. *)
Definition Queue_GetName (m : option tasks.Queue.t) : string :=
  match m with Some m => tasks.Queue.Name m | None => "" end.

Definition dquote : string := String "034"%char "".

Definition msg_queue_missing : string :=
  "Queue does not exist. If you just created the queue, wait at least a minute for the queue to initialize.".
Definition msg_task_missing : string := "Task does not exist.".
Definition msg_task_gone : string :=
  "The task no longer exists, though a task with this name existed recently. The task either successfully completed or was deleted.".
Definition msg_queue_name : string :=
  "Queue name must be formatted: " ++ dquote
  ++ "projects/<PROJECT_ID>/locations/<LOCATION_ID>/queues/<QUEUE_ID>" ++ dquote.
Definition msg_task_name : string :=
  "Task name must be formatted: " ++ dquote
  ++ "projects/<PROJECT_ID>/locations/<LOCATION_ID>/queues/<QUEUE_ID>/tasks/<TASK_ID>" ++ dquote.

(** [ListQueues]; [visit] is the order in which the range loop over [s.qs]
    meets the entries, which Go leaves unspecified. *)
Definition ListQueues (visit : list (string * option loc)) (w : World) : result (list loc) * World :=
  (Ok (map (fun q => Queue.state (queue_at w q)) (live_of visit)), w).

Definition GetQueue (name : string) (w : World) : result loc * World :=
  match fetchQueue w name with
  | (Some queue, true) => (Ok (Queue.state (queue_at w queue)), w)
  | _ => (Err NotFound msg_queue_missing, w)
  end.

Definition CreateQueue (in_ : CreateQueueRequest.t) (w : World) : result loc * World :=
  let queueState := CreateQueueRequest.Queue in_ in
  let name := Queue_GetName queueState in
  if negb (Regexp.MatchString Regexp.queue_pattern name) then
    (Err InvalidArgument msg_queue_name, w)
  else
  let parent := CreateQueueRequest.Parent in_ in
  if negb (Regexp.MatchString Regexp.parent_pattern parent) then
    (Err InvalidArgument "Invalid resource field value in the request.", w)
  else
  match fetchQueue w name with
  | (Some _, true) => (Err AlreadyExists "Queue already exists", w)
  | (None, true) =>
      (Err FailedPrecondition
         "The queue cannot be created because a queue with this name existed too recently.", w)
  | (_, false) =>
      match queueState with
      | None => (Panic, w) (* not reached: a nil queue has the empty name, rejected above *)
      | Some m =>
          let '(c, w1) := store_Queue m w in          (* proto.Clone(queueState) *)
          let '((queue, queueState'), w2) := NewQueue name c w1 in
          let w3 := setQueue name (Some queue) w2 in  (* then queue.Run() *)
          (Ok queueState', w3)
      end
  end.

Definition UpdateQueue (w : World) : result loc * World :=
  (Err Unimplemented "Not yet implemented", w).

Definition DeleteQueue (name : string) (w : World) : result unit * World :=
  match fetchQueue w name with
  | (Some queue, true) =>
      let w1 := Queue_Delete queue w in
      let w2 := removeQueue name w1 in
      (Ok tt, w2)
  | _ => (Err NotFound "Requested entity was not found.", w)
  end.

(** [PurgeQueue], [PauseQueue] and [ResumeQueue] drop the [ok] of [fetchQueue]
    and go through the pointer unchecked: the method call and the read of
    [queue.state] dereference nil when the name has no live queue. *)
Definition PurgeQueue (name : string) (w : World) : result loc * World :=
  let '(queue, _) := fetchQueue w name in
  match queue with
  | None => (Panic, w)
  | Some queue =>
      let w1 :=
        if HardResetOnPurgeQueue (Options (srv w))
        then Queue_HardReset queue w
        else Queue_Purge queue w in
      (Ok (Queue.state (queue_at w1 queue)), w1)
  end.

Definition PauseQueue (name : string) (w : World) : result loc * World :=
  let '(queue, _) := fetchQueue w name in
  match queue with
  | None => (Panic, w)
  | Some queue =>
      let w1 := Queue_Pause queue w in
      (Ok (Queue.state (queue_at w1 queue)), w1)
  end.

Definition ResumeQueue (name : string) (w : World) : result loc * World :=
  let '(queue, _) := fetchQueue w name in
  match queue with
  | None => (Panic, w)
  | Some queue =>
      let w1 := Queue_Resume queue w in
      (Ok (Queue.state (queue_at w1 queue)), w1)
  end.

(** The offset a page token stands for (emulator.go, lines 246-253): none
    given is offset 0, otherwise what [strconv.Atoi] makes of it. *)
Definition token_offset (PageToken : string) : option Z :=
  if decide (PageToken = "") then Some 0 else Go.Atoi PageToken.

(** The page size in force (emulator.go, lines 257-266): 0 asks for the
    default, which is the maximum. *)
Definition effective_page_size (PageSize : Z) : Z :=
  if PageSize =? 0 then 1000 else PageSize.

(** [ListTasks]; [visit] is the order in which the range loop over [queue.ts]
    meets the entries. *)
Definition ListTasks (in_ : ListTasksRequest.t) (visit : list (string * option loc))
    (w : World) : result ListTasksResponse.t * World :=
  match fetchQueue w (ListTasksRequest.Parent in_) with
  | (Some queue, true) =>
      let l := live_of visit in
      let l := Go.SliceStable (Go.by_key (task_name w)) l in
      let PageToken := ListTasksRequest.PageToken in_ in
      let PageSize := ListTasksRequest.PageSize in_ in
      match token_offset PageToken with
      | None => (Err InvalidArgument ("invalid page token: " ++ PageToken), w)
      | Some start =>
        match Go.slice_from l start with
        | None => (Panic, w)                           (* l = l[start:] *)
        | Some l =>
          if (PageSize <? 0) || (1000 <? PageSize) then
            (Err InvalidArgument ("invalid page size: " ++ Go.Itoa PageSize), w)
          else
            let pageSize := effective_page_size PageSize in
            let '(l, next) :=
              if pageSize <? Z.of_nat (length l)
              then (take (Z.to_nat pageSize) l, Go.Itoa (Go.wrap_int (start + pageSize)))
              else (l, "") in
            (Ok (ListTasksResponse.mk (map (fun t => Task.state (task_at w t)) l) next), w)
        end
      end
  | _ => (Err NotFound msg_queue_missing, w)
  end.

Definition GetTask (name : string) (w : World) : result loc * World :=
  match fetchTask w name with
  | (_, false) => (Err NotFound msg_task_missing, w)
  | (None, true) => (Err FailedPrecondition msg_task_gone, w)
  | (Some task, true) => (Ok (Task.state (task_at w task)), w)
  end.

(** The checks [CreateTask] makes on a name the client supplies (emulator.go,
    lines 310-326): valid, inside this queue, and not in the task map, live or
    tombstoned.  [None] lets the request through. *)
Definition check_task_name (w : World) (queueName Name : string) : option (code * string) :=
  if bool_decide (Name = "") then None
  else if negb (isValidTaskName Name) then
    Some (InvalidArgument, msg_task_name)
  else if negb (Go.HasPrefix Name (queueName ++ "/tasks/")) then
    Some (InvalidArgument,
          "The queue name from request ('" ++ Name
          ++ "') must be the same as the queue name in the named task ('"
          ++ queueName ++ "').")
  else if snd (fetchTask w Name) then
    Some (AlreadyExists, "Requested entity already exists")
  else None.

(** [CreateTask]; [now] and [rnd] are what [queue.NewTask] draws from the clock
    and the random source. *)
Definition CreateTask (in_ : CreateTaskRequest.t) (now : Z) (rnd : string)
    (w : World) : result loc * World :=
  let queueName := CreateTaskRequest.Parent in_ in
  match fetchQueue w queueName with
  | (_, false) => (Err NotFound "Queue does not exist.", w)
  | (None, true) =>
      (Err FailedPrecondition
         "The queue no longer exists, though a queue with this name existed recently.", w)
  | (Some queue, true) =>
      match CreateTaskRequest.Task in_ with
      | None => (Panic, w)                              (* in.Task.Name on a nil Task *)
      | Some task =>
          match check_task_name w queueName (tasks.Task.Name task) with
          | Some (c, msg) => (Err c msg, w)
          | None =>
              let '((task', taskState), w1) := Queue_NewTask queue task now rnd w in
              let w2 := setTask (tasks.Task.Name (task_msg w1 taskState)) (Some task') w1 in
              (Ok taskState, w2)
          end
      end
  end.

Definition DeleteTask (name : string) (w : World) : result unit * World :=
  match fetchTask w name with
  | (_, false) => (Err NotFound msg_task_missing, w)
  | (None, true) => (Err NotFound msg_task_gone, w)
  | (Some task, true) =>
      (* the callback of the queue takes the task out of the server's map *)
      (Ok tt, Task_Delete task w)
  end.

Definition RunTask (name : string) (w : World) : result loc * World :=
  match fetchTask w name with
  | (_, false) => (Err NotFound msg_task_missing, w)
  | (None, true) => (Err NotFound msg_task_gone, w)
  | (Some task, true) =>
      let '(taskState, w1) := Task_Run task w in
      (Ok taskState, w1)
  end.

(** ** Runs of the process *)

(** What can happen to the process: a handler is called, a task's timer fires
    and its target answers, or a purge goroutine gets to run. *)
Inductive Event : Type :=
| ECreateQueue (in_ : CreateQueueRequest.t)
| EGetQueue (name : string)
| EListQueues (visit : list (string * option loc))
| EUpdateQueue
| EDeleteQueue (name : string)
| EPurgeQueue (name : string)
| EPauseQueue (name : string)
| EResumeQueue (name : string)
| EListTasks (in_ : ListTasksRequest.t) (visit : list (string * option loc))
| EGetTask (name : string)
| ECreateTask (in_ : CreateTaskRequest.t) (now : Z) (rnd : string)
| EDeleteTask (name : string)
| ERunTask (name : string)
| EAttempt (t : loc) (status now : Z)
| EPurgeWorker.

(** The state an outcome leaves behind; a panic ends the process. *)
Definition survive {A} (r : result A * World) : option World :=
  match fst r with
  | Panic => None
  | _ => Some (snd r)
  end.

Definition exec (e : Event) (w : World) : option World :=
  match e with
  | ECreateQueue in_ => survive (CreateQueue in_ w)
  | EGetQueue name => survive (GetQueue name w)
  | EListQueues visit => survive (ListQueues visit w)
  | EUpdateQueue => survive (UpdateQueue w)
  | EDeleteQueue name => survive (DeleteQueue name w)
  | EPurgeQueue name => survive (PurgeQueue name w)
  | EPauseQueue name => survive (PauseQueue name w)
  | EResumeQueue name => survive (ResumeQueue name w)
  | EListTasks in_ visit => survive (ListTasks in_ visit w)
  | EGetTask name => survive (GetTask name w)
  | ECreateTask in_ now rnd => survive (CreateTask in_ now rnd w)
  | EDeleteTask name => survive (DeleteTask name w)
  | ERunTask name => survive (RunTask name w)
  | EAttempt t status now => Some (Task_Attempt t status now w)
  | EPurgeWorker => Some (purge_worker w)
  end.

(** Running a list of events, oldest first. *)
Fixpoint run (es : list Event) (w : World) : option World :=
  match es with
  | [] => Some w
  | e :: es' =>
      match exec e w with
      | Some w' => run es' w'
      | None => None
      end
  end.

(** ** Concrete inputs *)

(** The names of the tests: project TestProject, location TestLocation, queue test. *)
Definition ex_parent : string := "projects/TestProject/locations/TestLocation".
Definition ex_queue : string := "projects/TestProject/locations/TestLocation/queues/test".
Definition ex_id : string := "1234567890123456789".
Definition ex_task : string :=
  "projects/TestProject/locations/TestLocation/queues/test/tasks/1234567890123456789".

Definition ex_create_queue : CreateQueueRequest.t :=
  CreateQueueRequest.mk ex_parent (Some (tasks.Queue.mk ex_queue tasks.STATE_UNSPECIFIED None)).

(** A task for the [/not_found] handler of the test server, named or not. *)
Definition ex_task_msg (name : string) : tasks.Task.t :=
  tasks.Task.mk name (Some (tasks.HttpRequest "http://server/not_found")) None 0 0 None.

Definition ex_create_task (name : string) : CreateTaskRequest.t :=
  CreateTaskRequest.mk ex_queue (Some (ex_task_msg name)).

(** A server with the queue [ex_queue]. *)
Definition w_queue : World := snd (CreateQueue ex_create_queue NewServer).

(** The same with the task [ex_task], created at time 0. *)
Definition w_task : World :=
  snd (CreateTask (ex_create_task ex_task) 0 ex_id w_queue).

(** The status code of an outcome, if it is an error. *)
Definition code_of {A} (r : result A) : option code :=
  match r with Err c _ => Some c | _ => None end.

(** A live task: registered under its own name and not terminal. *)
Definition live_task (w : World) (name : string) (task : loc) : Prop :=
  ts (srv w) !! name = Some (Some task)
  /\ task_name w task = name
  /\ Task.done (task_at w task) = false.

(** ** Observing retries *)

(** The time the next dispatch of a task is scheduled for. *)
Definition schedule_of (w : World) (t : loc) : Z :=
  default 0 (tasks.Task.ScheduleTime (task_msg w (Task.state (task_at w t)))).

Definition dispatch_count (w : World) (t : loc) : Z :=
  tasks.Task.DispatchCount (task_msg w (Task.state (task_at w t))).

(** A run of attempts of one task, each with the status the target answered
    and the time it happened at. *)
Definition attempts (t : loc) (l : list (Z * Z)) (w : World) : World :=
  foldl (fun w a => Task_Attempt t (fst a) (snd a) w) w l.

(** The sum of the policy's delays for the attempts [k], ..., [k + n - 1]. *)
Fixpoint backoff_sum (P : tasks.RetryConfig.t) (k : Z) (n : nat) : Z :=
  match n with
  | O => 0
  | S n' => backoff P k + backoff_sum P (k + 1) n'
  end.

(** A task [t], with state message [p] and queue [q], that is live in a running
    queue under the default policy, has been dispatched [k] times and is
    scheduled for [sched]. *)
Definition retrying (w : World) (t p q : loc) (k sched : Z) : Prop :=
  task_at w t = Task.mk p q false
  /\ Queue.cancelled (queue_at w q) = false
  /\ tasks.Queue.State (queue_msg w (Queue.state (queue_at w q))) = tasks.RUNNING
  /\ queue_policy w q = default_RetryConfig
  /\ tasks.Task.DispatchCount (task_msg w p) = k
  /\ tasks.Task.ScheduleTime (task_msg w p) = Some sched.

(** ** Reserved names *)

(** A task name the Server's map holds, live or as a tombstone. *)
Definition reserved (w : World) (name : string) : Prop :=
  is_Some (ts (srv w) !! name).

(** From [w] to [w'] the options stay and no task name is released. *)
Definition keeps_names (w w' : World) : Prop :=
  Options (srv w') = Options (srv w)
  /\ forall name, reserved w name -> reserved w' name.

(** C1 as the claim has it: whatever happens to the process after [w1], a
    request that names [name] fails with AlreadyExists. *)
Definition always_AlreadyExists (w1 : World) (name : string) : Prop :=
  forall es w2 in2 task2 now2 rnd2,
    run es w1 = Some w2 ->
    CreateTaskRequest.Task in2 = Some task2 ->
    tasks.Task.Name task2 = name ->
    code_of (fst (CreateTask in2 now2 rnd2 w2)) = Some AlreadyExists.

(** ** Paging through ListTasks *)

(** The live tasks of a queue, sorted by name: what [ListTasks] pages through. *)
Definition sorted_tasks (w : World) (queue : loc) : list loc :=
  Go.SliceStable (Go.by_key (task_name w))
    (live_of (map_to_list (Queue.ts (queue_at w queue)))).

(** A client following the next-page tokens from [in_] until the empty token,
    collecting the pages; [visits k] is the order the range loop of the [k]-th
    call takes.  [None] when a call fails or the fuel runs out. *)
Fixpoint drain (fuel : nat) (in_ : ListTasksRequest.t)
    (visits : nat -> list (string * option loc)) (k : nat) (w : World) : option (list loc) :=
  match fuel with
  | O => None
  | S fuel' =>
      match fst (ListTasks in_ (visits k) w) with
      | Ok resp =>
          if decide (ListTasksResponse.NextPageToken resp = "")
          then Some (ListTasksResponse.Tasks resp)
          else
            match drain fuel'
                    (ListTasksRequest.mk (ListTasksRequest.Parent in_)
                       (ListTasksRequest.PageSize in_) (ListTasksResponse.NextPageToken resp))
                    visits (S k) w with
            | Some rest => Some (ListTasksResponse.Tasks resp ++ rest)%list
            | None => None
            end
      | _ => None
      end
  end.

(** A server with two tasks in the queue of the tests. *)
Definition w_two : World :=
  snd (CreateTask (ex_create_task "") 1 "0000000000000000042" w_task).

(** ** Well-formed worlds *)

(** The server as [cmd/emulator.go] starts it: [NewServer] with the option the
    flag [-hard-reset-on-purge-queue] gives. *)
Definition boot (hardReset : bool) : World :=
  mkWorld (mkServer (qs (srv NewServer)) (ts (srv NewServer)) (mkServerOptions hardReset))
          (queueObjs NewServer) (taskObjs NewServer) (queueMsgs NewServer)
          (taskMsgs NewServer) (purging NewServer) (nextLoc NewServer).

(** The worlds a server can get into. *)
Definition reachable (w : World) : Prop :=
  exists hardReset es, run es (boot hardReset) = Some w.

(** What holds of the pointers in every such world. *)
Record wf (w : World) : Prop := mk_wf {
  (* a live entry of the Server's task map leads to a live task of that name *)
  wf_tasks : forall name t, ts (srv w) !! name = Some (Some t) ->
    exists obj, taskObjs w !! t = Some obj
      /\ Task.done obj = false
      /\ tasks.Task.Name (taskMsgs w !!! Task.state obj) = name;
  (* a live entry of the Server's queue map leads to a queue *)
  wf_queues : forall name q, qs (srv w) !! name = Some (Some q) ->
    is_Some (queueObjs w !! q);
  (* a live entry of a queue's task set leads to a task of that name *)
  wf_queue_ts : forall q qo name t, queueObjs w !! q = Some qo ->
    Queue.ts qo !! name = Some (Some t) ->
    exists obj, taskObjs w !! t = Some obj
      /\ tasks.Task.Name (taskMsgs w !!! Task.state obj) = name;
  (* the objects were allocated, and so was what they point to *)
  wf_task_objs : forall t obj, taskObjs w !! t = Some obj ->
    (t < nextLoc w)%nat /\ (Task.state obj < nextLoc w)%nat
    /\ is_Some (queueObjs w !! Task.queue obj);
  wf_queue_objs : forall q obj, queueObjs w !! q = Some obj ->
    (q < nextLoc w)%nat /\ (Queue.state obj < nextLoc w)%nat
}.

(** From [w] to [w'] the queues stay allocated. *)
Definition keeps_queues (w w' : World) : Prop :=
  forall q, is_Some (queueObjs w !! q) -> is_Some (queueObjs w' !! q).

(** ** Aliasing of what the handlers return *)

(** C8 as the claim has it, for GetTask: whatever happens after the call, the
    message the handler returned reads the same. *)
Definition GetTask_result_frozen (w : World) (name : string) : Prop :=
  forall p es w',
    fst (GetTask name w) = Ok p -> run es w = Some w' -> task_msg w' p = task_msg w p.

(** A task message that is the state of no task: only who was given its
    address can reach it. *)
Definition detached_task_msg (w : World) (p : loc) : Prop :=
  (p < nextLoc w)%nat
  /\ forall t obj, taskObjs w !! t = Some obj -> Task.state obj <> p.

(** The same for a queue message. *)
Definition detached_queue_msg (w : World) (p : loc) : Prop :=
  (p < nextLoc w)%nat
  /\ forall q qo, queueObjs w !! q = Some qo -> Queue.state qo <> p.

(** From [w] to [w'] the task message at [p] stays detached and unchanged. *)
Definition keeps_task_msg (p : loc) (w w' : World) : Prop :=
  detached_task_msg w p ->
  detached_task_msg w' p /\ taskMsgs w' !!! p = taskMsgs w !!! p.

Definition keeps_queue_msg (p : loc) (w w' : World) : Prop :=
  detached_queue_msg w p ->
  detached_queue_msg w' p /\ queueMsgs w' !!! p = queueMsgs w !!! p.

(** ** Outcomes of calls *)

(** An outcome without its value. *)
Definition forget {A} (r : result A * World) : result unit * World :=
  (match fst r with Ok _ => Ok tt | Err c msg => Err c msg | Panic => Panic end, snd r).

(** The outcome of an event: that of the handler for a call, and nothing to
    report for what the engine does by itself. *)
Definition handle (e : Event) (w : World) : result unit * World :=
  match e with
  | ECreateQueue in_ => forget (CreateQueue in_ w)
  | EGetQueue name => forget (GetQueue name w)
  | EListQueues visit => forget (ListQueues visit w)
  | EUpdateQueue => forget (UpdateQueue w)
  | EDeleteQueue name => forget (DeleteQueue name w)
  | EPurgeQueue name => forget (PurgeQueue name w)
  | EPauseQueue name => forget (PauseQueue name w)
  | EResumeQueue name => forget (ResumeQueue name w)
  | EListTasks in_ visit => forget (ListTasks in_ visit w)
  | EGetTask name => forget (GetTask name w)
  | ECreateTask in_ now rnd => forget (CreateTask in_ now rnd w)
  | EDeleteTask name => forget (DeleteTask name w)
  | ERunTask name => forget (RunTask name w)
  | EAttempt t status now => (Ok tt, Task_Attempt t status now w)
  | EPurgeWorker => (Ok tt, purge_worker w)
  end.

(** ** The command (cmd/emulator.go) *)

(** [/queues/[A-Za-z0-9-]+], the pattern of [createInitialQueue] up to its [$]. *)
Definition queues_suffix : Regexp.regex :=
  Regexp.Cat (Regexp.Str "/queues/") (Regexp.Plus Regexp.id_char).

(** [regexp.MustCompile(r + "$").ReplaceAllString(s, "")] for a pattern [r]
    that matches no empty string.  A match of [r$] runs to the end of [s], so
    the leftmost match starts at the first position from which the rest of [s]
    matches [r], and no second match follows it; what is left of [s] is what
    stands in front of that position, or all of [s] when there is no match. *)
Fixpoint ReplaceAllString_at_end (r : Regexp.regex) (s : string) : string :=
  if Regexp.full_match r s then ""
  else match s with
       | EmptyString => ""
       | String c s' => String c (ReplaceAllString_at_end r s')
       end.

(** [createInitialQueue]: the parent is the name without its [/queues/<id>]
    end, and an error of [CreateQueue] is a panic. *)
Definition createInitialQueue (name : string) (w : World) : result unit * World :=
  let parentName := ReplaceAllString_at_end queues_suffix name in
  let queue := tasks.Queue.mk name tasks.STATE_UNSPECIFIED None in
  let req := CreateQueueRequest.mk parentName (Some queue) in
  match CreateQueue req w with
  | (Ok _, w1) => (Ok tt, w1)
  | (_, w1) => (Panic, w1)
  end.

(** The loop of [main] over the [-queue] flags, in the order they were given. *)
Fixpoint createInitialQueues (initialQueues : list string) (w : World) : result unit * World :=
  match initialQueues with
  | [] => (Ok tt, w)
  | name :: rest =>
      match createInitialQueue name w with
      | (Ok _, w1) => createInitialQueues rest w1
      | r => r
      end
  end.

(** [main] up to the point where the server starts to serve: [NewServer], the
    option from the flag, the initial queues. *)
Definition main (hardResetOnPurgeQueue : bool) (initialQueues : list string)
    : result unit * World :=
  createInitialQueues initialQueues (boot hardResetOnPurgeQueue).

(** How often a character occurs in a string. *)
Fixpoint count_char (c : ascii) (s : string) : nat :=
  match s with
  | EmptyString => 0
  | String a s' => (if Ascii.eqb a c then 1 else 0) + count_char c s'
  end.

(** ** Crashes and queue names *)

(** The calls that end the process: a purge, pause or resume of a name with
    no live queue, a CreateTask without a task on a live queue, and a
    ListTasks of a live queue whose page token is a number outside the list. *)
Definition crash_input (e : Event) (w : World) : Prop :=
  match e with
  | EPurgeQueue name | EPauseQueue name | EResumeQueue name =>
      forall queue, qs (srv w) !! name <> Some (Some queue)
  | ECreateTask in_ _ _ =>
      (exists queue, qs (srv w) !! CreateTaskRequest.Parent in_ = Some (Some queue))
      /\ CreateTaskRequest.Task in_ = None
  | EListTasks in_ visit =>
      (exists queue, qs (srv w) !! ListTasksRequest.Parent in_ = Some (Some queue))
      /\ exists start, token_offset (ListTasksRequest.PageToken in_) = Some start
           /\ ~ (0 <= start <= Z.of_nat (length (live_of visit)))
  | _ => False
  end.

(** Every live queue is registered under the name it was created with. *)
Definition named_queues (w : World) : Prop :=
  forall name q, qs (srv w) !! name = Some (Some q) -> Queue.name (queue_at w q) = name.

(** * Properties *)

(** ** The Go prelude *)

Module GoFacts.
Import Go.

Lemma string_of_uint_head d :
  d <> Decimal.Nil ->
  exists c r, NilEmpty.string_of_uint d = String c r /\ c <> "-"%char /\ c <> "+"%char.
Proof.
  destruct d; intros H; try congruence; simpl; eexists _, _; (split; [reflexivity|]); split; discriminate.
Qed.

Lemma N_to_uint_nonnil n : N.to_uint n <> Decimal.Nil.
Proof.
  destruct n; simpl; [discriminate|]. apply Unsigned.to_uint_nonnil.
Qed.

Lemma split_sign_unsigned c r :
  c <> "-"%char -> c <> "+"%char -> split_sign (String c r) = (false, String c r).
Proof.
  intros Hm Hp. unfold split_sign.
  destruct c as [[] [] [] [] [] [] [] []]; try reflexivity; congruence.
Qed.

Lemma Itoa_nonempty n : 0 <= n -> Itoa n <> "".
Proof.
  intros Hn. unfold Itoa. destruct (Z.ltb_spec n 0) as [?|_]; [lia|].
  destruct (string_of_uint_head (N.to_uint (Z.to_N n)) (N_to_uint_nonnil _))
    as (c & r & -> & _). discriminate.
Qed.

Lemma Atoi_Itoa n : 0 <= n <= max_int -> Atoi (Itoa n) = Some n.
Proof.
  intros Hn. unfold Itoa.
  destruct (Z.ltb_spec n 0) as [?|_]; [lia|].
  destruct (string_of_uint_head (N.to_uint (Z.to_N n)) (N_to_uint_nonnil _))
    as (c & r & Hs & Hm & Hp).
  unfold Atoi. rewrite Hs, (split_sign_unsigned c r Hm Hp), <- Hs.
  rewrite NilEmpty.usu, DecimalN.Unsigned.of_to, Z2N.id by lia.
  assert (Hr : (min_int <=? n) && (n <=? max_int) = true).
  { apply andb_true_iff. split; apply Z.leb_le; unfold min_int in *; lia. }
  rewrite Hr. reflexivity.
Qed.

Lemma Atoi_empty : Atoi "" = None.
Proof. reflexivity. Qed.


(** The order of [strings.Compare]. *)
Lemma ascii_compare_refl c : Ascii.compare c c = Eq.
Proof. unfold Ascii.compare. apply N.compare_refl. Qed.

Lemma string_compare_refl s : String.compare s s = Eq.
Proof.
  induction s as [|c s IH]; simpl; [reflexivity|].
  rewrite ascii_compare_refl. exact IH.
Qed.

Lemma ascii_compare_lt_trans a b c :
  Ascii.compare a b = Lt -> Ascii.compare b c = Lt -> Ascii.compare a c = Lt.
Proof.
  unfold Ascii.compare. rewrite !N.compare_lt_iff. lia.
Qed.

Lemma string_compare_lt_trans a : forall b c,
  String.compare a b = Lt -> String.compare b c = Lt -> String.compare a c = Lt.
Proof.
  induction a as [|x a IH]; intros [|y b] [|z c]; simpl; try congruence.
  destruct (Ascii.compare x y) eqn:Hxy; try congruence;
  destruct (Ascii.compare y z) eqn:Hyz; try congruence; intros H1 H2.
  - apply Ascii.compare_eq_iff in Hxy, Hyz. subst. rewrite ascii_compare_refl. eauto.
  - apply Ascii.compare_eq_iff in Hxy. subst. rewrite Hyz. reflexivity.
  - apply Ascii.compare_eq_iff in Hyz. subst. rewrite Hxy. reflexivity.
  - rewrite (ascii_compare_lt_trans _ _ _ Hxy Hyz). reflexivity.
Qed.

Lemma strings_less_irrefl a : strings_less a a = false.
Proof. unfold strings_less. rewrite string_compare_refl. reflexivity. Qed.

Lemma strings_less_asym a b : strings_less a b = true -> strings_less b a = false.
Proof.
  unfold strings_less. rewrite (String.compare_antisym a b).
  destruct (String.compare b a); simpl; congruence.
Qed.

Lemma strings_less_trans a b c :
  strings_less a b = true -> strings_less b c = true -> strings_less a c = true.
Proof.
  unfold strings_less.
  destruct (String.compare a b) eqn:Hab; try discriminate.
  destruct (String.compare b c) eqn:Hbc; try discriminate.
  rewrite (string_compare_lt_trans _ _ _ Hab Hbc). reflexivity.
Qed.

Lemma strings_less_total a b :
  strings_less a b = false -> strings_less b a = false -> a = b.
Proof.
  unfold strings_less. rewrite (String.compare_antisym a b).
  destruct (String.compare b a) eqn:H; simpl; try discriminate.
  intros _ _. symmetry. apply String.compare_eq_iff. exact H.
Qed.

(** [sort.SliceStable] sorts, keeps the elements, and its result does not
    depend on the order of its input when the keys are distinct. *)
Section SortFacts.
Context {A : Type} (key : A -> string).

#[local] Abbreviation by_key := (Go.by_key key).
#[local] Abbreviation key_le := (Go.key_le key).

Lemma key_le_trans a b c : key_le a b -> key_le b c -> key_le a c.
  Proof.
    unfold key_le. intros Hab Hbc.
    destruct (strings_less (key c) (key a)) eqn:Hca; [|reflexivity].
    destruct (strings_less (key b) (key c)) eqn:Hbc'.
    - rewrite (strings_less_trans _ _ _ Hbc' Hca) in Hab. discriminate.
    - rewrite (strings_less_total _ _ Hbc Hbc') in Hca. congruence.
  Qed.

Lemma insert_stable_perm x l : Permutation (insert_stable by_key x l) (x :: l).
  Proof.
    induction l as [|y l IH]; simpl; [reflexivity|].
    destruct (by_key y x); [|reflexivity].
    rewrite IH. apply perm_swap.
  Qed.

Lemma SliceStable_perm l : Permutation (SliceStable by_key l) l.
  Proof.
    induction l as [|x l IH]; simpl; [reflexivity|].
    rewrite insert_stable_perm. constructor. exact IH.
  Qed.

Lemma insert_stable_sorted x l :
    StronglySorted key_le l -> StronglySorted key_le (insert_stable by_key x l).
  Proof.
    induction 1 as [|y l Hs IH Hy]; simpl.
    - repeat constructor.
    - destruct (by_key y x) eqn:Hyx.
      + constructor; [exact IH|].
        rewrite List.Forall_forall. intros z Hz.
        apply (Permutation_in _ (insert_stable_perm x l)) in Hz.
        destruct Hz as [<-|Hz].
        * unfold key_le. apply strings_less_asym. exact Hyx.
        * rewrite List.Forall_forall in Hy. exact (Hy z Hz).
      + assert (Hxy : key_le x y) by exact Hyx.
        constructor; [constructor; assumption|].
        constructor; [exact Hxy|].
        rewrite List.Forall_forall in *. intros z Hz.
        apply (key_le_trans _ _ _ Hxy). exact (Hy z Hz).
  Qed.

Lemma SliceStable_sorted l : StronglySorted key_le (SliceStable by_key l).
  Proof.
    induction l as [|x l IH]; simpl; [constructor|].
    apply insert_stable_sorted. exact IH.
  Qed.

Lemma sorted_perm_eq l1 : forall l2,
    StronglySorted key_le l1 -> StronglySorted key_le l2 ->
    Permutation l1 l2 -> NoDup (map key l1) -> l1 = l2.
  Proof.
    induction l1 as [|x l1 IH]; intros l2 H1 H2 Hp Hnd.
    - apply Permutation_nil in Hp. congruence.
    - destruct l2 as [|y l2]; [apply Permutation_sym, Permutation_nil in Hp; discriminate|].
      inversion H1 as [|? ? Hs1 Hx]; subst. inversion H2 as [|? ? Hs2 Hy]; subst.
      rewrite List.Forall_forall in Hx, Hy.
      assert (Hxy : x = y).
      { assert (Hin1 : In x (y :: l2)) by (apply (Permutation_in _ Hp); left; reflexivity).
        assert (Hin2 : In y (x :: l1))
          by (apply (Permutation_in _ (Permutation_sym Hp)); left; reflexivity).
        destruct Hin1 as [->|Hin1]; [reflexivity|].
        destruct Hin2 as [->|Hin2]; [reflexivity|].
        assert (Hk : key x = key y)
          by (apply strings_less_total; [apply (Hy x Hin1) | apply (Hx y Hin2)]).
        simpl in Hnd. apply NoDup_cons in Hnd as [Hnin _].
        exfalso. apply Hnin. rewrite Hk. apply list_elem_of_In, in_map. exact Hin2. }
      subst y. f_equal. apply IH; try assumption.
      + apply Permutation_cons_inv in Hp. exact Hp.
      + simpl in Hnd. apply NoDup_cons in Hnd as [_ Hnd]. exact Hnd.
  Qed.

Lemma SliceStable_order_irrelevant l1 l2 :
    Permutation l1 l2 -> NoDup (map key l1) ->
    SliceStable by_key l1 = SliceStable by_key l2.
  Proof.
    intros Hp Hnd. apply sorted_perm_eq.
    - apply SliceStable_sorted.
    - apply SliceStable_sorted.
    - rewrite !SliceStable_perm. exact Hp.
    - rewrite SliceStable_perm. exact Hnd.
  Qed.
End SortFacts.

End GoFacts.

(** ** The registry *)

Lemma fetchTask_lookup w name :
  fetchTask w name =
  match ts (srv w) !! name with Some task => (task, true) | None => (None, false) end.
Proof. reflexivity. Qed.

Lemma fetchQueue_lookup w name :
  fetchQueue w name =
  match qs (srv w) !! name with Some queue => (queue, true) | None => (None, false) end.
Proof. reflexivity. Qed.

Lemma fetchQueue_live w name queue :
  fetchQueue w name = (Some queue, true) <-> qs (srv w) !! name = Some (Some queue).
Proof.
  unfold fetchQueue. destruct (qs (srv w) !! name) as [[q|]|]; split; intros H; congruence.
Qed.

(** Marking a task terminal leaves its state pointer, hence its name. *)
Lemma task_name_mark_done w t t' :
  task_name (upd_taskObjs (insert t (with_done true (task_at w t))) w) t' = task_name w t'.
Proof.
  unfold task_name, task_at, task_msg, upd_taskObjs. simpl.
  destruct (decide (t = t')) as [->|Hne].
  - rewrite lookup_total_insert_eq. reflexivity.
  - rewrite lookup_total_insert_ne by exact Hne. reflexivity.
Qed.

(** What the removal callback does to the Server's task map. *)
Lemma Task_finish_ts t w :
  srv (Task_finish t w)
  = mkServer (qs (srv w)) (<[task_name w t := None]> (ts (srv w))) (Options (srv w)).
Proof.
  unfold Task_finish, Queue_onTaskDone, Server_onTaskDone, removeTask, setTask.
  set (w1 := upd_taskObjs _ w).
  assert (Hn : forall w2, taskObjs w2 = taskObjs w1 -> taskMsgs w2 = taskMsgs w1 ->
            task_name w2 t = task_name w t).
  { intros w2 Ho Hm. rewrite <- (task_name_mark_done w t t). fold w1.
    unfold task_name, task_at, task_msg. rewrite Ho, Hm. reflexivity. }
  rewrite Hn by reflexivity. reflexivity.
Qed.

Lemma Task_Delete_ts t w :
  Task.done (task_at w t) = false ->
  srv (Task_Delete t w)
  = mkServer (qs (srv w)) (<[task_name w t := None]> (ts (srv w))) (Options (srv w)).
Proof.
  intros Hd. unfold Task_Delete. rewrite Hd. apply Task_finish_ts.
Qed.

(** C2: GetTask on a name that was never created returns NotFound and on a
    tombstoned name FailedPrecondition; DeleteTask and RunTask return NotFound
    in both cases; on a live name GetTask returns the task's state, DeleteTask
    deletes the task and RunTask runs it. *)
Theorem task_lookup_outcomes (name : string) (w : World) :
  match ts (srv w) !! name with
  | None =>
      GetTask name w = (Err NotFound msg_task_missing, w)
      /\ DeleteTask name w = (Err NotFound msg_task_missing, w)
      /\ RunTask name w = (Err NotFound msg_task_missing, w)
  | Some None =>
      GetTask name w = (Err FailedPrecondition msg_task_gone, w)
      /\ DeleteTask name w = (Err NotFound msg_task_gone, w)
      /\ RunTask name w = (Err NotFound msg_task_gone, w)
  | Some (Some task) =>
      GetTask name w = (Ok (Task.state (task_at w task)), w)
      /\ DeleteTask name w = (Ok tt, Task_Delete task w)
      /\ RunTask name w = (Ok (fst (Task_Run task w)), snd (Task_Run task w))
  end.
Proof.
  unfold GetTask, DeleteTask, RunTask. rewrite fetchTask_lookup.
  destruct (ts (srv w) !! name) as [[task|]|]; repeat split; try reflexivity.
Qed.

Lemma w_task_live : live_task w_task ex_task 4%nat.
Proof. repeat split; vm_compute; reflexivity. Qed.

(** C3 (amended): for every live task, a successful DeleteTask followed by
    GetTask returns FailedPrecondition: the removal callback tombstones the
    name, and GetTask answers a tombstone with FailedPrecondition. *)
Theorem DeleteTask_then_GetTask (name : string) (task : loc) (w : World) :
  live_task w name task ->
  DeleteTask name w = (Ok tt, Task_Delete task w)
  /\ GetTask name (Task_Delete task w)
     = (Err FailedPrecondition msg_task_gone, Task_Delete task w).
Proof.
  intros (Hts & Hname & Hdone). split.
  - unfold DeleteTask. rewrite fetchTask_lookup, Hts. reflexivity.
  - unfold GetTask. rewrite fetchTask_lookup, (Task_Delete_ts _ _ Hdone), Hname. simpl.
    rewrite lookup_insert_eq. reflexivity.
Qed.

Lemma DeleteTask_then_GetTask_witness :
  live_task w_task ex_task 4%nat
  /\ DeleteTask ex_task w_task = (Ok tt, Task_Delete 4%nat w_task)
  /\ GetTask ex_task (Task_Delete 4%nat w_task)
     = (Err FailedPrecondition msg_task_gone, Task_Delete 4%nat w_task).
Proof.
  split; [exact w_task_live|].
  apply (DeleteTask_then_GetTask ex_task 4%nat w_task). exact w_task_live.
Defined.

(** C3 as stated fails: on the server of the tests, with one queue and one
    live task, DeleteTask succeeds and the GetTask after it does not return
    NotFound. *)
Lemma DeleteTask_then_GetTask_not_NotFound :
  ~ (live_task w_task ex_task 4%nat ->
     fst (DeleteTask ex_task w_task) = Ok tt ->
     code_of (fst (GetTask ex_task (snd (DeleteTask ex_task w_task)))) = Some NotFound).
Proof.
  intros H.
  assert (Hok : fst (DeleteTask ex_task w_task) = Ok tt) by (vm_compute; reflexivity).
  specialize (H w_task_live Hok).
  assert (Hc : code_of (fst (GetTask ex_task (snd (DeleteTask ex_task w_task))))
               = Some FailedPrecondition) by (vm_compute; reflexivity).
  rewrite Hc in H. discriminate H.
Qed.

(** C6: the code misses the liveness check.  For a name with no live queue,
    absent or tombstoned, PurgeQueue, PauseQueue and ResumeQueue dereference
    the nil pointer and panic, where the claim has them return an error. *)
Theorem queue_ops_without_live_queue_panic (name : string) (w : World) :
  qs (srv w) !! name = None \/ qs (srv w) !! name = Some None ->
  fst (PurgeQueue name w) = Panic
  /\ fst (PauseQueue name w) = Panic
  /\ fst (ResumeQueue name w) = Panic.
Proof.
  intros H. unfold PurgeQueue, PauseQueue, ResumeQueue. rewrite fetchQueue_lookup.
  destruct H as [-> | ->]; repeat split; reflexivity.
Qed.

Lemma queue_ops_without_live_queue_panic_witness :
  qs (srv NewServer) !! ex_queue = None
  /\ fst (PurgeQueue ex_queue NewServer) = Panic
  /\ fst (PauseQueue ex_queue NewServer) = Panic
  /\ fst (ResumeQueue ex_queue NewServer) = Panic.
Proof.
  split; [reflexivity|].
  apply (queue_ops_without_live_queue_panic ex_queue NewServer). left. reflexivity.
Defined.


(** What [Queue.NewTask] builds. *)
Lemma Queue_NewTask_result q m now rnd w :
  fst (Queue_NewTask q m now rnd w) = (S (nextLoc w), S (S (nextLoc w))).
Proof. reflexivity. Qed.

Lemma Queue_NewTask_srv q m now rnd w :
  srv (snd (Queue_NewTask q m now rnd w)) = srv w.
Proof. reflexivity. Qed.

Lemma Queue_NewTask_clone_name q m now rnd w :
  tasks.Task.Name (task_msg (snd (Queue_NewTask q m now rnd w)) (S (S (nextLoc w))))
  = new_task_name w q m rnd.
Proof.
  unfold Queue_NewTask, store_Task, Clone_Task, alloc, task_msg. simpl.
  rewrite !lookup_total_insert_eq. reflexivity.
Qed.

Lemma CreateTask_accepted in_ now rnd w queue task :
  fetchQueue w (CreateTaskRequest.Parent in_) = (Some queue, true) ->
  CreateTaskRequest.Task in_ = Some task ->
  check_task_name w (CreateTaskRequest.Parent in_) (tasks.Task.Name task) = None ->
  CreateTask in_ now rnd w
  = (Ok (S (S (nextLoc w))),
     setTask (new_task_name w queue task rnd) (Some (S (nextLoc w)))
       (snd (Queue_NewTask queue task now rnd w))).
Proof.
  intros Hq Ht Hc. unfold CreateTask. rewrite Hq, Ht, Hc.
  rewrite (surjective_pairing (Queue_NewTask queue task now rnd w)).
  rewrite Queue_NewTask_result. rewrite Queue_NewTask_clone_name. reflexivity.
Qed.

(** C10: CreateTask with an empty task name never returns AlreadyExists; when
    the parent queue is live the generated name is installed in the Server's
    task map over whatever entry was there. *)
Theorem CreateTask_generated_name_unchecked
    (in_ : CreateTaskRequest.t) (task : tasks.Task.t) (now : Z) (rnd : string) (w : World) :
  CreateTaskRequest.Task in_ = Some task ->
  tasks.Task.Name task = "" ->
  code_of (fst (CreateTask in_ now rnd w)) <> Some AlreadyExists
  /\ forall queue, fetchQueue w (CreateTaskRequest.Parent in_) = (Some queue, true) ->
       let name := (Queue.name (queue_at w queue) ++ "/tasks/" ++ rnd)%string in
       let w' := snd (CreateTask in_ now rnd w) in
       exists taskState t,
         fst (CreateTask in_ now rnd w) = Ok taskState
         /\ tasks.Task.Name (task_msg w' taskState) = name
         /\ (nextLoc w <= t)%nat
         /\ ts (srv w') = <[name := Some t]> (ts (srv w)).
Proof.
  intros Ht Hn.
  assert (Hc : check_task_name w (CreateTaskRequest.Parent in_) (tasks.Task.Name task) = None).
  { unfold check_task_name. rewrite Hn. reflexivity. }
  split.
  - unfold CreateTask.
    destruct (fetchQueue w (CreateTaskRequest.Parent in_)) as [[queue|] []];
      try (simpl; discriminate).
    rewrite Ht, Hc.
    rewrite (surjective_pairing (Queue_NewTask queue task now rnd w)).
    rewrite Queue_NewTask_result. simpl. discriminate.
  - intros queue Hq. simpl.
    rewrite (CreateTask_accepted _ _ _ _ _ _ Hq Ht Hc).
    exists (S (S (nextLoc w))), (S (nextLoc w)). cbn [fst snd].
    assert (Hname : new_task_name w queue task rnd
                    = (Queue.name (queue_at w queue) ++ "/tasks/" ++ rnd)%string).
    { unfold new_task_name. rewrite Hn. reflexivity. }
    rewrite Hname. split; [reflexivity|]. split; [|split; [lia|reflexivity]].
    rewrite <- Hname. apply Queue_NewTask_clone_name.
Qed.

(** On the server whose task map holds [ex_task], a request without a name
    that draws the id of [ex_task] is accepted and takes the entry over. *)
Lemma CreateTask_generated_name_unchecked_witness :
  ts (srv w_task) !! ex_task = Some (Some 4%nat)
  /\ code_of (fst (CreateTask (ex_create_task "") 0 ex_id w_task)) <> Some AlreadyExists
  /\ exists taskState t,
       fst (CreateTask (ex_create_task "") 0 ex_id w_task) = Ok taskState
       /\ (nextLoc w_task <= t)%nat
       /\ ts (srv (snd (CreateTask (ex_create_task "") 0 ex_id w_task)))
          = <[ex_task := Some t]> (ts (srv w_task)).
Proof.
  split; [vm_compute; reflexivity|].
  destruct (CreateTask_generated_name_unchecked (ex_create_task "") _ 0 ex_id w_task
              eq_refl eq_refl) as [Hne Hinst].
  split; [exact Hne|].
  assert (Hq : fetchQueue w_task (CreateTaskRequest.Parent (ex_create_task ""))
               = (Some 1%nat, true)) by (vm_compute; reflexivity).
  assert (Hn : (Queue.name (queue_at w_task 1%nat) ++ "/tasks/" ++ ex_id)%string = ex_task)
    by (vm_compute; reflexivity).
  specialize (Hinst 1%nat Hq). cbv zeta in Hinst. rewrite Hn in Hinst.
  destruct Hinst as (taskState & t & Hok & _ & Hfresh & Hts).
  exists taskState, t. split; [exact Hok|]. split; [exact Hfresh|exact Hts].
Defined.

(** ** The pattern matcher *)

Module RegexpFacts.
Import Regexp.

Lemma append_nil_l (s : string) : ("" ++ s)%string = s.
Proof. reflexivity. Qed.

Lemma append_cons (c : ascii) (s1 s2 : string) :
  (String c s1 ++ s2)%string = String c (s1 ++ s2).
Proof. reflexivity. Qed.

Lemma append_empty_inv (s1 s2 : string) :
  (s1 ++ s2)%string = "" -> s1 = "" /\ s2 = "".
Proof.
  destruct s1; [rewrite append_nil_l; auto|rewrite append_cons; discriminate].
Qed.

Lemma Matches_Cat_inv r1 r2 s :
  Matches (Cat r1 r2) s ->
  exists s1 s2, s = (s1 ++ s2)%string /\ Matches r1 s1 /\ Matches r2 s2.
Proof. intros H. inversion H; subst. eauto. Qed.

Lemma nullable_iff r : nullable r = true <-> Matches r "".
Proof.
  induction r as [| | c | lo hi | | r1 IH1 r2 IH2 | r1 IH1 r2 IH2 | r IH]; simpl.
  - split; [discriminate|]. intros H. inversion H.
  - split; [constructor|reflexivity].
  - split; [discriminate|]. intros H. inversion H.
  - split; [discriminate|]. intros H. inversion H.
  - split; [discriminate|]. intros H. inversion H.
  - rewrite orb_true_iff, IH1, IH2. split.
    + intros [H|H]; [apply M_AltL|apply M_AltR]; exact H.
    + intros H. inversion H; subst; auto.
  - rewrite andb_true_iff, IH1, IH2. split.
    + intros [H1 H2]. exact (M_Cat r1 r2 "" "" H1 H2).
    + intros H. apply Matches_Cat_inv in H as (s1 & s2 & Heq & H1 & H2).
      symmetry in Heq. apply append_empty_inv in Heq as [-> ->]. auto.
  - split; [constructor|reflexivity].
Qed.

(** A match of [r*] that starts with [c] starts with a match of [r] that
    starts with [c]. *)
Lemma star_cons_inv r c s :
  Matches (Star r) (String c s) ->
  exists s1 s2, s = (s1 ++ s2)%string /\ Matches r (String c s1) /\ Matches (Star r) s2.
Proof.
  intros H. remember (Star r) as r' eqn:Hr. remember (String c s) as s' eqn:Hs.
  revert s Hs.
  induction H as [| | | | | | | |r0 s1 s2 H1 _ H2 IH2]; intros x Hx; try discriminate.
  injection Hr as ->.
  destruct s1 as [|c1 s1]; [rewrite append_nil_l in *|rewrite append_cons in *].
  - apply IH2; [reflexivity|exact Hx].
  - injection Hx as Hc Hx. subst c1 x. exists s1, s2. auto.
Qed.

Lemma deriv_iff c r : forall s, Matches (deriv c r) s <-> Matches r (String c s).
Proof.
  induction r as [| | a | lo hi | | r1 IH1 r2 IH2 | r1 IH1 r2 IH2 | r IH]; intros s; simpl.
  - split; intros H; inversion H.
  - split; intros H; inversion H.
  - destruct (Ascii.eqb_spec a c) as [->|Hne]; split; intros H; inversion H; subst.
    + constructor.
    + constructor.
    + congruence.
  - destruct (in_range lo hi c) eqn:Hr; split; intros H; inversion H; subst.
    + constructor. exact Hr.
    + constructor.
    + congruence.
  - split; intros H; inversion H; subst; constructor.
  - split; intros H; inversion H; subst.
    + apply M_AltL, IH1. assumption.
    + apply M_AltR, IH2. assumption.
    + apply M_AltL, IH1. assumption.
    + apply M_AltR, IH2. assumption.
  - assert (Hcat : Matches (Cat (deriv c r1) r2) s ->
                   Matches (Cat r1 r2) (String c s)).
    { intros H. apply Matches_Cat_inv in H as (s1 & s2 & -> & H1 & H2).
      apply IH1 in H1. exact (M_Cat r1 r2 (String c s1) s2 H1 H2). }
    assert (Hinv : Matches (Cat r1 r2) (String c s) ->
                   Matches (Cat (deriv c r1) r2) s
                   \/ (Matches r1 "" /\ Matches r2 (String c s))).
    { intros H. apply Matches_Cat_inv in H as (s1 & s2 & Heq & H1 & H2).
      destruct s1 as [|c1 s1]; [rewrite append_nil_l in Heq|rewrite append_cons in Heq].
      - right. subst s2. auto.
      - injection Heq as Hc Heq. subst c1 s. left. constructor; [apply IH1|]; assumption. }
    destruct (nullable r1) eqn:Hn.
    + split.
      * intros H. inversion H; subst; [auto|].
        apply nullable_iff in Hn.
        apply (M_Cat r1 r2 "" (String c s) Hn). apply IH2. assumption.
      * intros H. destruct (Hinv H) as [H'|[_ H']].
        -- apply M_AltL. exact H'.
        -- apply M_AltR, IH2. exact H'.
    + split; [exact Hcat|].
      intros H. destruct (Hinv H) as [H'|[H' _]]; [exact H'|].
      apply nullable_iff in H'. congruence.
  - split.
    + intros H. apply Matches_Cat_inv in H as (s1 & s2 & -> & H1 & H2).
      apply IH in H1. exact (M_StarS r (String c s1) s2 H1 H2).
    + intros H. apply star_cons_inv in H as (s1 & s2 & -> & H1 & H2).
      constructor; [apply IH|]; assumption.
Qed.

(** The matcher decides the declarative reading. *)
Lemma full_match_iff s : forall r, full_match r s = true <-> Matches r s.
Proof.
  induction s as [|c s IH]; intros r; simpl.
  - apply nullable_iff.
  - rewrite IH. apply deriv_iff.
Qed.

Lemma Matches_any s : Matches (Star AnyChar) s.
Proof.
  induction s as [|c s IH]; [constructor|].
  exact (M_StarS AnyChar (String c "") s (M_Any c) IH).
Qed.

(** An unanchored pattern accepts whatever contains a match. *)
Lemma MatchString_contains r pre mid post :
  full_match r mid = true -> MatchString r (pre ++ mid ++ post) = true.
Proof.
  intros H. apply full_match_iff in H. apply full_match_iff.
  constructor; [apply Matches_any|].
  constructor; [exact H|apply Matches_any].
Qed.

End RegexpFacts.

(** C7: the patterns of CreateQueue carry no anchors, so the code does not
    reject what the claim says it rejects: a name that merely contains a
    well-formed queue name, with anything before or after it, passes the check,
    and so does such a parent; the queue is installed under the name as
    given. *)
Theorem CreateQueue_accepts_unanchored_names
    (pre post name ppre ppost parent : string)
    (st : tasks.Queue_State) (rc : option tasks.RetryConfig.t) (w : World) :
  Regexp.full_match Regexp.queue_pattern name = true ->
  Regexp.full_match Regexp.parent_pattern parent = true ->
  qs (srv w) !! (pre ++ name ++ post)%string = None ->
  let in_ := CreateQueueRequest.mk (ppre ++ parent ++ ppost)
               (Some (tasks.Queue.mk (pre ++ name ++ post) st rc)) in
  exists queueState queue,
    fst (CreateQueue in_ w) = Ok queueState
    /\ qs (srv (snd (CreateQueue in_ w))) !! (pre ++ name ++ post)%string = Some (Some queue).
Proof.
  intros Hname Hparent Hfree in_.
  unfold CreateQueue, in_. cbn [CreateQueueRequest.Queue CreateQueueRequest.Parent
                                Queue_GetName tasks.Queue.Name].
  rewrite (RegexpFacts.MatchString_contains _ pre name post Hname).
  rewrite (RegexpFacts.MatchString_contains _ ppre parent ppost Hparent).
  cbn [negb]. rewrite fetchQueue_lookup, Hfree.
  eexists _, _. split; [reflexivity|].
  unfold setQueue, upd_qs. cbn [srv qs snd]. apply lookup_insert_eq.
Qed.

Lemma CreateQueue_accepts_unanchored_names_witness :
  Regexp.full_match Regexp.queue_pattern ("x" ++ ex_queue ++ "/y z")%string = false
  /\ Regexp.full_match Regexp.parent_pattern ("junk " ++ ex_parent ++ "?")%string = false
  /\ let in_ := CreateQueueRequest.mk ("junk " ++ ex_parent ++ "?")
                  (Some (tasks.Queue.mk ("x" ++ ex_queue ++ "/y z")
                           tasks.STATE_UNSPECIFIED None)) in
     exists queueState queue,
       fst (CreateQueue in_ NewServer) = Ok queueState
       /\ qs (srv (snd (CreateQueue in_ NewServer))) !! ("x" ++ ex_queue ++ "/y z")%string
          = Some (Some queue).
Proof.
  split; [vm_compute; reflexivity|]. split; [vm_compute; reflexivity|].
  apply (CreateQueue_accepts_unanchored_names "x" "/y z" ex_queue "junk " "?" ex_parent
           tasks.STATE_UNSPECIFIED None NewServer).
  - vm_compute. reflexivity.
  - vm_compute. reflexivity.
  - vm_compute. reflexivity.
Defined.

(** ** ListTasks *)

(** The sorted list of the live tasks [ListTasks] pages through. *)
Lemma sorted_live_length w visit :
  length (Go.SliceStable (Go.by_key (task_name w)) (live_of visit)) = length (live_of visit).
Proof. apply Permutation_length, GoFacts.SliceStable_perm. Qed.

(** What the validation of the pagination parameters gets right: a token that
    is no number and a page size out of range are InvalidArgument. *)
Lemma ListTasks_bad_token in_ visit w queue :
  fetchQueue w (ListTasksRequest.Parent in_) = (Some queue, true) ->
  token_offset (ListTasksRequest.PageToken in_) = None ->
  ListTasks in_ visit w
  = (Err InvalidArgument ("invalid page token: " ++ ListTasksRequest.PageToken in_), w).
Proof.
  intros Hq Ht. unfold ListTasks. rewrite Hq, Ht. reflexivity.
Qed.

Lemma ListTasks_bad_page_size in_ visit w queue start :
  fetchQueue w (ListTasksRequest.Parent in_) = (Some queue, true) ->
  token_offset (ListTasksRequest.PageToken in_) = Some start ->
  0 <= start <= Z.of_nat (length (live_of visit)) ->
  ListTasksRequest.PageSize in_ < 0 \/ 1000 < ListTasksRequest.PageSize in_ ->
  ListTasks in_ visit w
  = (Err InvalidArgument ("invalid page size: " ++ Go.Itoa (ListTasksRequest.PageSize in_)), w).
Proof.
  intros Hq Ht Hs Hp. unfold ListTasks. rewrite Hq, Ht.
  unfold Go.slice_from. rewrite sorted_live_length.
  assert (Hr : (0 <=? start) && (start <=? Z.of_nat (length (live_of visit))) = true).
  { apply andb_true_iff. split; apply Z.leb_le; lia. }
  rewrite Hr.
  assert (Hb : (ListTasksRequest.PageSize in_ <? 0) || (1000 <? ListTasksRequest.PageSize in_)
               = true).
  { apply orb_true_iff. destruct Hp; [left|right]; apply Z.ltb_lt; assumption. }
  rewrite Hb. reflexivity.
Qed.

(** C5: the code misses the bounds check on the offset.  A page token that is
    a number but no offset into the task list, negative or past the end, makes
    [l[start:]] panic, where the claim has ListTasks return InvalidArgument. *)
Theorem ListTasks_offset_out_of_range_panics
    (in_ : ListTasksRequest.t) (visit : list (string * option loc)) (w : World)
    (queue : loc) (start : Z) :
  fetchQueue w (ListTasksRequest.Parent in_) = (Some queue, true) ->
  ListTasksRequest.PageToken in_ <> "" ->
  Go.Atoi (ListTasksRequest.PageToken in_) = Some start ->
  start < 0 \/ Z.of_nat (length (live_of visit)) < start ->
  fst (ListTasks in_ visit w) = Panic.
Proof.
  intros Hq Hne Ht Hs. unfold ListTasks, token_offset. rewrite Hq.
  destruct (decide (ListTasksRequest.PageToken in_ = "")) as [?|_]; [contradiction|].
  rewrite Ht. unfold Go.slice_from. rewrite sorted_live_length.
  assert (Hr : (0 <=? start) && (start <=? Z.of_nat (length (live_of visit))) = false).
  { apply andb_false_iff. destruct Hs; [left; apply Z.leb_gt|right; apply Z.leb_gt]; lia. }
  rewrite Hr. reflexivity.
Qed.

(** The queue of the tests holds no task; the page token 1 is past the end. *)
Lemma ListTasks_offset_out_of_range_panics_witness :
  fetchQueue w_queue ex_queue = (Some 1%nat, true)
  /\ Go.Atoi "1" = Some 1
  /\ map_to_list (Queue.ts (queue_at w_queue 1%nat)) = []
  /\ fst (ListTasks (ListTasksRequest.mk ex_queue 0 "1") [] w_queue) = Panic.
Proof.
  split; [vm_compute; reflexivity|]. split; [vm_compute; reflexivity|].
  split; [vm_compute; reflexivity|].
  apply (ListTasks_offset_out_of_range_panics (ListTasksRequest.mk ex_queue 0 "1") []
           w_queue 1%nat 1).
  - vm_compute. reflexivity.
  - discriminate.
  - vm_compute. reflexivity.
  - right. simpl. lia.
Defined.

(** ** Retries under the default policy *)

Lemma retry_not_exhausted st next :
  tasks.Task.DispatchCount st < 100 ->
  retry_exhausted default_RetryConfig st next = false.
Proof.
  intros H. unfold retry_exhausted. simpl.
  apply orb_false_iff. split; [apply Z.leb_gt; exact H|reflexivity].
Qed.

(** One failed attempt: the counters go up and the schedule moves by the
    policy's delay for the attempt that failed. *)
Lemma attempt_failed w t p q k sched status now :
  retrying w t p q k sched ->
  is_2xx status = false ->
  k + 1 < 100 ->
  retrying (Task_Attempt t status now w) t p q (k + 1)
           (sched + backoff default_RetryConfig k).
Proof.
  intros (Hobj & Hc & Hrun & Hpol & Hk & Hs) Hfail Hlt.
  unfold Task_Attempt. rewrite Hobj. cbn [Task.done Task.queue Task.state].
  rewrite Hc, Hrun, Hfail, Hpol, Hk, Hs. cbn [default].
  rewrite retry_not_exhausted by (simpl; lia).
  replace (k + 1 - 1) with k by lia.
  unfold retrying, task_at, queue_at, queue_msg, queue_policy, task_msg in *.
  cbn [taskObjs queueObjs queueMsgs taskMsgs upd_taskMsgs].
  rewrite lookup_total_insert_eq. simpl. auto 10.
Qed.

Lemma attempts_failed l : forall w t p q k sched,
  retrying w t p q k sched ->
  Forall (fun a => is_2xx (fst a) = false) l ->
  k + Z.of_nat (length l) < 100 ->
  retrying (attempts t l w) t p q (k + Z.of_nat (length l))
           (sched + backoff_sum default_RetryConfig k (length l)).
Proof.
  induction l as [|a l IH]; intros w t p q k sched Hr Hf Hlt.
  - simpl. rewrite !Z.add_0_r. exact Hr.
  - apply Forall_cons in Hf as [Ha Hf].
    change (attempts t (a :: l) w) with (attempts t l (Task_Attempt t (fst a) (snd a) w)).
    change (length (a :: l)) with (S (length l)) in *.
    rewrite Nat2Z.inj_succ in *. cbn [backoff_sum].
    replace (k + Z.succ (Z.of_nat (length l))) with (k + 1 + Z.of_nat (length l)) by lia.
    rewrite Z.add_assoc. apply IH; [|exact Hf|lia].
    apply attempt_failed; [exact Hr|exact Ha|lia].
Qed.

Lemma Queue_NewTask_taskObjs q m now rnd w :
  taskObjs (snd (Queue_NewTask q m now rnd w))
  = <[S (nextLoc w) := Task.mk (nextLoc w) q false]> (taskObjs w).
Proof. reflexivity. Qed.

Lemma Queue_NewTask_queueObjs q m now rnd w :
  queueObjs (snd (Queue_NewTask q m now rnd w))
  = <[q := with_ts (insert (new_task_name w q m rnd) (Some (S (nextLoc w)))) (queue_at w q)]>
      (queueObjs w).
Proof. reflexivity. Qed.

Lemma Queue_NewTask_queueMsgs q m now rnd w :
  queueMsgs (snd (Queue_NewTask q m now rnd w)) = queueMsgs w.
Proof. reflexivity. Qed.

Lemma Queue_NewTask_nextLoc q m now rnd w :
  nextLoc (snd (Queue_NewTask q m now rnd w)) = S (S (S (nextLoc w))).
Proof. reflexivity. Qed.

Lemma Queue_NewTask_taskMsgs q m now rnd w :
  taskMsgs (snd (Queue_NewTask q m now rnd w))
  = <[S (S (nextLoc w)) := new_task_state (new_task_name w q m rnd) m now]>
      (<[nextLoc w := new_task_state (new_task_name w q m rnd) m now]> (taskMsgs w)).
Proof.
  unfold Queue_NewTask, store_Task, Clone_Task, alloc, task_msg.
  cbn [snd fst taskMsgs upd_taskMsgs upd_taskObjs upd_queueObjs].
  rewrite lookup_total_insert_eq. reflexivity.
Qed.

(** A task accepted without a schedule time by a running queue under the
    default policy starts its retries scheduled for the time of its creation. *)
Lemma CreateTask_retrying in_ task now rnd w queue :
  fetchQueue w (CreateTaskRequest.Parent in_) = (Some queue, true) ->
  CreateTaskRequest.Task in_ = Some task ->
  check_task_name w (CreateTaskRequest.Parent in_) (tasks.Task.Name task) = None ->
  tasks.Task.ScheduleTime task = None ->
  Queue.cancelled (queue_at w queue) = false ->
  tasks.Queue.State (queue_msg w (Queue.state (queue_at w queue))) = tasks.RUNNING ->
  queue_policy w queue = default_RetryConfig ->
  retrying (snd (CreateTask in_ now rnd w)) (S (nextLoc w)) (nextLoc w) queue
           (tasks.Task.DispatchCount task) now.
Proof.
  intros Hq Ht Hc Hs Hcan Hrun Hpol.
  rewrite (CreateTask_accepted _ _ _ _ _ _ Hq Ht Hc). cbn [snd].
  set (W := snd (Queue_NewTask queue task now rnd w)).
  assert (Hobj : task_at (setTask (new_task_name w queue task rnd) (Some (S (nextLoc w))) W)
                   (S (nextLoc w)) = Task.mk (nextLoc w) queue false).
  { unfold task_at, setTask, upd_ts. cbn [taskObjs]. unfold W.
    rewrite Queue_NewTask_taskObjs. apply lookup_total_insert_eq. }
  assert (Hqo : queue_at (setTask (new_task_name w queue task rnd) (Some (S (nextLoc w))) W)
                  queue
                = with_ts (insert (new_task_name w queue task rnd) (Some (S (nextLoc w))))
                    (queue_at w queue)).
  { unfold queue_at at 1. unfold setTask, upd_ts. cbn [queueObjs]. unfold W.
    rewrite Queue_NewTask_queueObjs. apply lookup_total_insert_eq. }
  assert (Hqm : forall p, queue_msg (setTask (new_task_name w queue task rnd)
                                       (Some (S (nextLoc w))) W) p = queue_msg w p).
  { intros p. reflexivity. }
  assert (Hmsg : task_msg (setTask (new_task_name w queue task rnd) (Some (S (nextLoc w))) W)
                   (nextLoc w)
                 = new_task_state (new_task_name w queue task rnd) task now).
  { unfold task_msg, setTask, upd_ts. cbn [taskMsgs]. unfold W.
    rewrite Queue_NewTask_taskMsgs.
    rewrite lookup_total_insert_ne by lia. apply lookup_total_insert_eq. }
  unfold retrying, queue_policy. rewrite Hobj, Hqo, Hmsg, !Hqm.
  unfold queue_policy in Hpol.
  cbn [with_ts Queue.cancelled Queue.state new_task_state tasks.Task.DispatchCount
       tasks.Task.ScheduleTime].
  rewrite Hs. cbn [default]. auto 10.
Qed.

Lemma retrying_schedule w t p q k sched :
  retrying w t p q k sched -> schedule_of w t = sched /\ dispatch_count w t = k.
Proof.
  intros (Hobj & _ & _ & _ & Hk & Hs). unfold schedule_of, dispatch_count.
  rewrite Hobj. cbn [Task.state]. rewrite Hs, Hk. auto.
Qed.

Lemma backoff_sum_snoc P n : forall k,
  backoff_sum P k (S n) = backoff_sum P k n + backoff P (k + Z.of_nat n).
Proof.
  induction n as [|n IH]; intros k.
  - cbn [backoff_sum Z.of_nat]. rewrite !Z.add_0_r. reflexivity.
  - change (backoff_sum P k (S (S n))) with (backoff P k + backoff_sum P (k + 1) (S n)).
    rewrite IH. cbn [backoff_sum]. rewrite Nat2Z.inj_succ.
    replace (k + 1 + Z.of_nat n) with (k + Z.succ (Z.of_nat n)) by lia. lia.
Qed.

(** C9: under the default retry policy the first dispatch of a task is
    scheduled for the time of its creation (delay 0); the delay that follows
    the failed attempt with index n is
    clamp(100ms * 2^min(n, 16), 100ms, 3600s), for as long as the 100 attempts
    last; and against a target that always answers 404 the first four
    dispatches are scheduled at 0, 100ms, 300ms and 700ms from the creation,
    that is, separated by 0, 100ms, 200ms, 400ms. *)
Theorem default_retry_schedule
    (in_ : CreateTaskRequest.t) (task : tasks.Task.t) (now : Z) (rnd : string)
    (w : World) (queue : loc) :
  fetchQueue w (CreateTaskRequest.Parent in_) = (Some queue, true) ->
  CreateTaskRequest.Task in_ = Some task ->
  check_task_name w (CreateTaskRequest.Parent in_) (tasks.Task.Name task) = None ->
  tasks.Task.ScheduleTime task = None ->
  tasks.Task.DispatchCount task = 0 ->
  Queue.cancelled (queue_at w queue) = false ->
  tasks.Queue.State (queue_msg w (Queue.state (queue_at w queue))) = tasks.RUNNING ->
  queue_policy w queue = default_RetryConfig ->
  schedule_of (snd (CreateTask in_ now rnd w)) (S (nextLoc w)) = now
  /\ (forall (l : list (Z * Z)) (a : Z * Z),
        Forall (fun a => is_2xx (fst a) = false) (l ++ [a]) ->
        (length l < 99)%nat ->
        schedule_of (attempts (S (nextLoc w)) (l ++ [a]) (snd (CreateTask in_ now rnd w)))
                    (S (nextLoc w))
        - schedule_of (attempts (S (nextLoc w)) l (snd (CreateTask in_ now rnd w)))
                      (S (nextLoc w))
        = clamp (100 * millisecond * 2 ^ Z.min (Z.of_nat (length l)) 16)
                (100 * millisecond) (3600 * second))
  /\ (forall n1 n2 n3 : Z,
        schedule_of (attempts (S (nextLoc w)) [(404, n1)] (snd (CreateTask in_ now rnd w)))
                    (S (nextLoc w)) = now + 100 * millisecond
        /\ schedule_of (attempts (S (nextLoc w)) [(404, n1); (404, n2)]
                          (snd (CreateTask in_ now rnd w)))
                       (S (nextLoc w)) = now + 100 * millisecond + 200 * millisecond
        /\ schedule_of (attempts (S (nextLoc w)) [(404, n1); (404, n2); (404, n3)]
                          (snd (CreateTask in_ now rnd w)))
                       (S (nextLoc w))
           = now + 100 * millisecond + 200 * millisecond + 400 * millisecond).
Proof.
  intros Hq Ht Hc Hs Hd Hcan Hrun Hpol.
  pose proof (CreateTask_retrying in_ task now rnd w queue Hq Ht Hc Hs Hcan Hrun Hpol) as Hr.
  rewrite Hd in Hr.
  assert (Hrun_l : forall l, Forall (fun a => is_2xx (fst a) = false) l ->
            (length l < 100)%nat ->
            schedule_of (attempts (S (nextLoc w)) l (snd (CreateTask in_ now rnd w)))
                        (S (nextLoc w))
            = now + backoff_sum default_RetryConfig 0 (length l)).
  { intros l Hf Hl.
    apply (retrying_schedule _ _ (nextLoc w) queue (0 + Z.of_nat (length l))).
    apply attempts_failed; [exact Hr|exact Hf|lia]. }
  split; [|split].
  - pose proof (Hrun_l [] (List.Forall_nil _)) as H0.
    cbn [attempts foldl length backoff_sum] in H0. rewrite Z.add_0_r in H0.
    apply H0. simpl. lia.
  - intros l a Hf Hl.
    rewrite (Hrun_l (l ++ [a])%list Hf) by (rewrite length_app; simpl; lia).
    rewrite (Hrun_l l) by (try lia; apply Forall_app in Hf as [Hf _]; exact Hf).
    rewrite length_app. simpl length. rewrite Nat.add_1_r, backoff_sum_snoc.
    rewrite Z.add_0_l. unfold backoff. simpl. lia.
  - intros n1 n2 n3.
    assert (H404 : forall l : list Z,
              Forall (fun a : Z * Z => is_2xx (fst a) = false) (map (fun n => (404, n)) l)).
    { intros l. induction l; constructor; [reflexivity|assumption]. }
    pose proof (Hrun_l _ (H404 [n1])) as H1.
    pose proof (Hrun_l _ (H404 [n1; n2])) as H2.
    pose proof (Hrun_l _ (H404 [n1; n2; n3])) as H3.
    cbn [map length] in H1, H2, H3.
    rewrite H1, H2, H3 by lia.
    vm_compute backoff_sum. unfold millisecond. repeat split; lia.
Qed.

(** The queue of the tests takes the default policy; a task created in it at
    time 5 and answered 404 three times. *)
Lemma default_retry_schedule_witness :
  queue_policy w_queue 1%nat = default_RetryConfig
  /\ schedule_of (snd (CreateTask (ex_create_task ex_task) 5 ex_id w_queue))
                 (S (nextLoc w_queue)) = 5
  /\ forall n1 n2 n3 : Z,
       schedule_of (attempts (S (nextLoc w_queue)) [(404, n1)]
                      (snd (CreateTask (ex_create_task ex_task) 5 ex_id w_queue)))
                   (S (nextLoc w_queue)) = 5 + 100 * millisecond
       /\ schedule_of (attempts (S (nextLoc w_queue)) [(404, n1); (404, n2)]
                         (snd (CreateTask (ex_create_task ex_task) 5 ex_id w_queue)))
                      (S (nextLoc w_queue)) = 5 + 100 * millisecond + 200 * millisecond
       /\ schedule_of (attempts (S (nextLoc w_queue)) [(404, n1); (404, n2); (404, n3)]
                         (snd (CreateTask (ex_create_task ex_task) 5 ex_id w_queue)))
                      (S (nextLoc w_queue))
          = 5 + 100 * millisecond + 200 * millisecond + 400 * millisecond.
Proof.
  assert (Hpol : queue_policy w_queue 1%nat = default_RetryConfig)
    by (vm_compute; reflexivity).
  split; [exact Hpol|].
  assert (Hq : fetchQueue w_queue (CreateTaskRequest.Parent (ex_create_task ex_task))
               = (Some 1%nat, true)) by (vm_compute; reflexivity).
  assert (Hc : check_task_name w_queue (CreateTaskRequest.Parent (ex_create_task ex_task))
                 ex_task = None) by (vm_compute; reflexivity).
  assert (Hcan : Queue.cancelled (queue_at w_queue 1%nat) = false)
    by (vm_compute; reflexivity).
  assert (Hrun : tasks.Queue.State (queue_msg w_queue (Queue.state (queue_at w_queue 1%nat)))
                 = tasks.RUNNING) by (vm_compute; reflexivity).
  destruct (default_retry_schedule (ex_create_task ex_task) _ 5 ex_id w_queue 1%nat
              Hq eq_refl Hc eq_refl eq_refl Hcan Hrun Hpol) as (H0 & _ & H404).
  split; [exact H0|exact H404].
Defined.

(** ** Names stay reserved *)

Lemma keeps_names_refl w : keeps_names w w.
Proof. split; auto. Qed.

Lemma keeps_names_trans w1 w2 w3 :
  keeps_names w1 w2 -> keeps_names w2 w3 -> keeps_names w1 w3.
Proof. intros [Ho1 H1] [Ho2 H2]. split; [congruence|auto]. Qed.

(** Steps that leave the Server's maps alone. *)
Lemma keeps_names_same_srv w w' : srv w' = srv w -> keeps_names w w'.
Proof. intros H. unfold keeps_names, reserved. rewrite H. auto. Qed.

Lemma keeps_names_setTask name task w : keeps_names w (setTask name task w).
Proof.
  split; [reflexivity|]. intros n Hn. unfold reserved, setTask, upd_ts in *. cbn [srv ts].
  destruct (decide (name = n)) as [->|Hne].
  - rewrite lookup_insert_eq. eauto.
  - rewrite lookup_insert_ne by exact Hne. exact Hn.
Qed.

Lemma keeps_names_setQueue name queue w : keeps_names w (setQueue name queue w).
Proof. split; [reflexivity|]. intros n Hn. exact Hn. Qed.

Lemma keeps_names_Task_finish t w : keeps_names w (Task_finish t w).
Proof.
  split.
  - rewrite Task_finish_ts. reflexivity.
  - intros n Hn. unfold reserved in *. rewrite Task_finish_ts. cbn [ts].
    destruct (decide (task_name w t = n)) as [->|Hne].
    + rewrite lookup_insert_eq. eauto.
    + rewrite lookup_insert_ne by exact Hne. exact Hn.
Qed.

Lemma keeps_names_Task_Delete t w : keeps_names w (Task_Delete t w).
Proof.
  unfold Task_Delete. destruct (Task.done (task_at w t)).
  - apply keeps_names_refl.
  - apply keeps_names_Task_finish.
Qed.

Lemma keeps_names_delete_all l : forall w, keeps_names w (delete_all l w).
Proof.
  induction l as [|t l IH]; intros w; [apply keeps_names_refl|].
  apply (keeps_names_trans _ (Task_Delete t w)); [apply keeps_names_Task_Delete|apply IH].
Qed.

Lemma keeps_names_Task_Attempt t status now w :
  keeps_names w (Task_Attempt t status now w).
Proof.
  unfold Task_Attempt.
  repeat case_match; try apply keeps_names_refl;
    try (apply keeps_names_same_srv; reflexivity);
    (eapply keeps_names_trans; [|apply keeps_names_Task_finish]);
    apply keeps_names_same_srv; reflexivity.
Qed.

Lemma keeps_names_purge_worker w : keeps_names w (purge_worker w).
Proof.
  unfold purge_worker. destruct (purging w) as [|q rest]; [apply keeps_names_refl|].
  eapply keeps_names_trans; [|apply keeps_names_delete_all].
  apply keeps_names_same_srv. reflexivity.
Qed.

Lemma keeps_names_Queue_Delete q w : keeps_names w (Queue_Delete q w).
Proof.
  unfold Queue_Delete.
  eapply keeps_names_trans; [|apply keeps_names_delete_all].
  apply keeps_names_same_srv. reflexivity.
Qed.

Lemma keeps_names_CreateTask in_ now rnd w :
  keeps_names w (snd (CreateTask in_ now rnd w)).
Proof.
  unfold CreateTask.
  destruct (fetchQueue w (CreateTaskRequest.Parent in_)) as [[queue|] []];
    try apply keeps_names_refl.
  destruct (CreateTaskRequest.Task in_) as [task|]; [|apply keeps_names_refl].
  destruct (check_task_name w _ _) as [[c msg]|]; [apply keeps_names_refl|].
  rewrite (surjective_pairing (Queue_NewTask queue task now rnd w)).
  rewrite Queue_NewTask_result. cbn [snd].
  eapply keeps_names_trans; [|apply keeps_names_setTask].
  apply keeps_names_same_srv. apply Queue_NewTask_srv.
Qed.

Lemma keeps_names_CreateQueue in_ w : keeps_names w (snd (CreateQueue in_ w)).
Proof.
  unfold CreateQueue.
  repeat case_match; try apply keeps_names_refl;
    cbn [snd]; (eapply keeps_names_trans; [|apply keeps_names_setQueue]);
    apply keeps_names_same_srv;
    match goal with
    | H5 : store_Queue _ _ = _, H6 : NewQueue _ _ _ = _ |- _ =>
        apply (f_equal snd) in H5, H6; cbn [snd] in H5, H6; subst; reflexivity
    end.
Qed.

Lemma survive_Some {A} (r : result A * World) w' : survive r = Some w' -> w' = snd r.
Proof. unfold survive. destruct (fst r); congruence. Qed.

Ltac keeps_names_cases :=
  repeat case_match; try apply keeps_names_refl;
  try (apply keeps_names_same_srv; reflexivity).

(** Every event but a hard reset keeps the names. *)
Lemma exec_keeps_names e w w' :
  HardResetOnPurgeQueue (Options (srv w)) = false ->
  exec e w = Some w' -> keeps_names w w'.
Proof.
  intros Hopt He. destruct e; cbn [exec] in He;
    try (apply survive_Some in He; subst w').
  - apply keeps_names_CreateQueue.
  - unfold GetQueue. keeps_names_cases.
  - apply keeps_names_refl.
  - apply keeps_names_refl.
  - unfold DeleteQueue. keeps_names_cases. cbn [snd].
    eapply keeps_names_trans; [apply keeps_names_Queue_Delete|apply keeps_names_setQueue].
  - unfold PurgeQueue. rewrite Hopt. keeps_names_cases.
  - unfold PauseQueue. keeps_names_cases.
  - unfold ResumeQueue. keeps_names_cases.
  - unfold ListTasks. keeps_names_cases.
  - unfold GetTask. keeps_names_cases.
  - apply keeps_names_CreateTask.
  - unfold DeleteTask. keeps_names_cases. apply keeps_names_Task_Delete.
  - unfold RunTask. keeps_names_cases. cbn [snd]. apply keeps_names_same_srv.
    match goal with H : Task_Run _ _ = _ |- _ => apply (f_equal snd) in H; cbn [snd] in H end.
    subst. reflexivity.
  - injection He as <-. apply keeps_names_Task_Attempt.
  - injection He as <-. apply keeps_names_purge_worker.
Qed.

Lemma run_keeps_names es : forall w w',
  HardResetOnPurgeQueue (Options (srv w)) = false ->
  run es w = Some w' -> keeps_names w w'.
Proof.
  induction es as [|e es IH]; intros w w' Hopt Hrun; cbn [run] in Hrun.
  - injection Hrun as <-. apply keeps_names_refl.
  - destruct (exec e w) as [w1|] eqn:He; [|discriminate].
    pose proof (exec_keeps_names e w w1 Hopt He) as Hk.
    apply (keeps_names_trans _ w1); [exact Hk|].
    apply IH; [|exact Hrun]. destruct Hk as [-> _]. exact Hopt.
Qed.

(** What an accepted [CreateTask] went through. *)
Lemma CreateTask_Ok_inv in_ now rnd w taskState w1 :
  CreateTask in_ now rnd w = (Ok taskState, w1) ->
  exists queue task,
    fetchQueue w (CreateTaskRequest.Parent in_) = (Some queue, true)
    /\ CreateTaskRequest.Task in_ = Some task
    /\ check_task_name w (CreateTaskRequest.Parent in_) (tasks.Task.Name task) = None
    /\ tasks.Task.Name (task_msg w1 taskState) = new_task_name w queue task rnd
    /\ reserved w1 (new_task_name w queue task rnd).
Proof.
  intros H. unfold CreateTask in H.
  destruct (fetchQueue w (CreateTaskRequest.Parent in_)) as [[queue|] []] eqn:Hq;
    try discriminate.
  destruct (CreateTaskRequest.Task in_) as [task|] eqn:Ht; [|discriminate].
  destruct (check_task_name w _ _) as [[c msg]|] eqn:Hc; [discriminate|].
  exists queue, task. split; [reflexivity|]. split; [reflexivity|]. split; [exact Hc|].
  rewrite (surjective_pairing (Queue_NewTask queue task now rnd w)) in H.
  rewrite Queue_NewTask_result, Queue_NewTask_clone_name in H.
  injection H as <- <-. split.
  - unfold task_msg, setTask, upd_ts. cbn [taskMsgs]. apply Queue_NewTask_clone_name.
  - unfold reserved, setTask, upd_ts. cbn [srv ts]. rewrite lookup_insert_eq. eauto.
Qed.

Lemma new_task_name_nonempty w queue task rnd : new_task_name w queue task rnd <> "".
Proof.
  unfold new_task_name. destruct (decide (tasks.Task.Name task = "")) as [_|Hne]; [|exact Hne].
  intros H. apply RegexpFacts.append_empty_inv in H as [_ H].
  apply RegexpFacts.append_empty_inv in H as [H _]. discriminate.
Qed.

(** A request that names a reserved task fails, with the error of the first
    check it does not pass. *)
Lemma CreateTask_reserved_name in_ task now rnd w :
  CreateTaskRequest.Task in_ = Some task ->
  tasks.Task.Name task <> "" ->
  reserved w (tasks.Task.Name task) ->
  (exists c msg, CreateTask in_ now rnd w = (Err c msg, w))
  /\ ((exists queue, fetchQueue w (CreateTaskRequest.Parent in_) = (Some queue, true)) ->
      isValidTaskName (tasks.Task.Name task) = true ->
      Go.HasPrefix (tasks.Task.Name task) (CreateTaskRequest.Parent in_ ++ "/tasks/") = true ->
      CreateTask in_ now rnd w = (Err AlreadyExists "Requested entity already exists", w)).
Proof.
  intros Ht Hne [v Hres].
  assert (Hfetch : snd (fetchTask w (tasks.Task.Name task)) = true).
  { rewrite fetchTask_lookup, Hres. reflexivity. }
  unfold CreateTask, check_task_name. rewrite Ht, Hfetch.
  rewrite (bool_decide_eq_false_2 _ Hne).
  split.
  - destruct (fetchQueue w (CreateTaskRequest.Parent in_)) as [[queue|] []]; eauto.
    destruct (isValidTaskName (tasks.Task.Name task)); cbn [negb]; eauto.
    destruct (Go.HasPrefix _ _); cbn [negb]; eauto.
  - intros [queue ->] -> ->. reflexivity.
Qed.

(** C1 (amended): a task name accepted by CreateTask stays in the Server's
    task map, live or as a tombstone, through every later event of a server
    without hard reset, so every later CreateTask naming it fails and changes
    nothing; it fails with AlreadyExists whenever the request gets as far as
    the uniqueness check, that is, its parent queue is live and the name is
    well-formed and inside that queue. *)
Theorem accepted_name_stays_reserved
    (in_ : CreateTaskRequest.t) (now : Z) (rnd : string) (w : World)
    (taskState : loc) (w1 : World) (es : list Event) (w2 : World)
    (in2 : CreateTaskRequest.t) (task2 : tasks.Task.t) (now2 : Z) (rnd2 : string) :
  HardResetOnPurgeQueue (Options (srv w)) = false ->
  CreateTask in_ now rnd w = (Ok taskState, w1) ->
  run es w1 = Some w2 ->
  CreateTaskRequest.Task in2 = Some task2 ->
  tasks.Task.Name task2 = tasks.Task.Name (task_msg w1 taskState) ->
  reserved w2 (tasks.Task.Name task2)
  /\ (exists c msg, CreateTask in2 now2 rnd2 w2 = (Err c msg, w2))
  /\ ((exists queue, fetchQueue w2 (CreateTaskRequest.Parent in2) = (Some queue, true)) ->
      isValidTaskName (tasks.Task.Name task2) = true ->
      Go.HasPrefix (tasks.Task.Name task2) (CreateTaskRequest.Parent in2 ++ "/tasks/") = true ->
      CreateTask in2 now2 rnd2 w2 = (Err AlreadyExists "Requested entity already exists", w2)).
Proof.
  intros Hopt Hacc Hrun Ht2 Hname.
  pose proof (keeps_names_CreateTask in_ now rnd w) as [Hopt1 _].
  rewrite Hacc in Hopt1. cbn [snd] in Hopt1.
  destruct (CreateTask_Ok_inv _ _ _ _ _ _ Hacc) as (queue & task & _ & _ & _ & Hn & Hres).
  rewrite <- Hn, <- Hname in Hres.
  assert (Hne : tasks.Task.Name task2 <> "").
  { rewrite Hname, Hn. apply new_task_name_nonempty. }
  assert (Hres2 : reserved w2 (tasks.Task.Name task2)).
  { apply (run_keeps_names es w1 w2); [congruence|exact Hrun|exact Hres]. }
  split; [exact Hres2|].
  exact (CreateTask_reserved_name in2 task2 now2 rnd2 w2 Ht2 Hne Hres2).
Qed.

(** The task of the tests is dispatched, answered 200 and removed; the request
    that created it then fails with AlreadyExists. *)
Lemma accepted_name_stays_reserved_witness :
  run [EAttempt 4%nat 200 7] w_task = Some (Task_Attempt 4%nat 200 7 w_task)
  /\ ts (srv (Task_Attempt 4%nat 200 7 w_task)) !! ex_task = Some None
  /\ CreateTask (ex_create_task ex_task) 9 ex_id (Task_Attempt 4%nat 200 7 w_task)
     = (Err AlreadyExists "Requested entity already exists", Task_Attempt 4%nat 200 7 w_task).
Proof.
  split; [reflexivity|]. split; [vm_compute; reflexivity|].
  assert (Hacc : CreateTask (ex_create_task ex_task) 0 ex_id w_queue = (Ok 5%nat, w_task)).
  { rewrite (surjective_pairing (CreateTask (ex_create_task ex_task) 0 ex_id w_queue)).
    f_equal; try reflexivity; vm_compute; reflexivity. }
  assert (Hrun : run [EAttempt 4%nat 200 7] w_task = Some (Task_Attempt 4%nat 200 7 w_task))
    by reflexivity.
  assert (Hname : ex_task = tasks.Task.Name (task_msg w_task 5%nat))
    by (vm_compute; reflexivity).
  destruct (accepted_name_stays_reserved (ex_create_task ex_task) 0 ex_id w_queue 5%nat w_task
              [EAttempt 4%nat 200 7] (Task_Attempt 4%nat 200 7 w_task)
              (ex_create_task ex_task) _ 9 ex_id
              eq_refl Hacc Hrun eq_refl Hname) as (_ & _ & Hexists).
  apply Hexists.
  - exists 1%nat. vm_compute. reflexivity.
  - vm_compute. reflexivity.
  - vm_compute. reflexivity.
Defined.

(** C1 as stated fails: after the queue of the accepted task is deleted, the
    same request is refused with FailedPrecondition, for the queue, and not
    with AlreadyExists. *)
Lemma accepted_name_not_always_AlreadyExists : ~ always_AlreadyExists w_task ex_task.
Proof.
  intros H.
  specialize (H [EDeleteQueue ex_queue] (snd (DeleteQueue ex_queue w_task))
                (ex_create_task ex_task) (ex_task_msg ex_task) 9 ex_id).
  assert (Hrun : run [EDeleteQueue ex_queue] w_task = Some (snd (DeleteQueue ex_queue w_task))).
  { vm_compute. reflexivity. }
  specialize (H Hrun eq_refl eq_refl).
  assert (Hc : code_of (fst (CreateTask (ex_create_task ex_task) 9 ex_id
                               (snd (DeleteQueue ex_queue w_task))))
               = Some FailedPrecondition) by (vm_compute; reflexivity).
  rewrite Hc in H. discriminate H.
Qed.

(** With the hard reset switched on, PurgeQueue releases the names of the
    queue's task set: this is the one way a name leaves the Server's map. *)
Lemma hardDelete_all_lookup (entries : list (string * option loc)) : forall w name,
  ts (srv (foldl (fun w kv => hardDeleteTask (fst kv) w) w entries)) !! name
  = if bool_decide (name ∈ entries.*1) then None else ts (srv w) !! name.
Proof.
  induction entries as [|[k v] entries IH]; intros w name; cbn [foldl].
  - rewrite bool_decide_eq_false_2; [reflexivity|]. cbn. apply not_elem_of_nil.
  - rewrite IH. cbn [fmap list_fmap fst].
    destruct (decide (name ∈ entries.*1)) as [Hin|Hnin].
    + rewrite !bool_decide_eq_true_2; [reflexivity| |exact Hin].
      apply elem_of_cons. right. exact Hin.
    + rewrite (bool_decide_eq_false_2 _ Hnin).
      unfold hardDeleteTask, upd_ts. cbn [srv ts].
      destruct (decide (name = k)) as [->|Hne].
      * rewrite lookup_delete_eq, bool_decide_eq_true_2; [reflexivity|].
        apply elem_of_cons. left. reflexivity.
      * rewrite lookup_delete_ne by congruence.
        rewrite bool_decide_eq_false_2; [reflexivity|].
        intros [?|?]%elem_of_cons; [congruence|contradiction].
Qed.

Lemma hard_reset_releases_names qname queue name w :
  HardResetOnPurgeQueue (Options (srv w)) = true ->
  fetchQueue w qname = (Some queue, true) ->
  is_Some (Queue.ts (queue_at w queue) !! name) ->
  ts (srv (snd (PurgeQueue qname w))) !! name = None.
Proof.
  intros Hopt Hq [v Hv]. unfold PurgeQueue. rewrite Hq, Hopt. cbn [snd].
  unfold Queue_HardReset, upd_queueObjs. cbn [srv].
  rewrite hardDelete_all_lookup. rewrite bool_decide_eq_true_2; [reflexivity|].
  apply list_elem_of_fmap. exists (name, v). split; [reflexivity|].
  apply elem_of_map_to_list. exact Hv.
Qed.

(** ** Pages of ListTasks *)

Section Paging.
Context (w : World) (qname : string) (queue : loc) (PageSize : Z)
        (visits : nat -> list (string * option loc)).
Hypothesis Hq : fetchQueue w qname = (Some queue, true).
Hypothesis Hsize : 0 <= PageSize <= 1000.
(** Each call ranges over the task set of the queue, in some order. *)
Hypothesis Hvisit : forall k, visits k ≡ₚ map_to_list (Queue.ts (queue_at w queue)).
(** The live tasks carry distinct names. *)
Hypothesis Hnames :
  NoDup (task_name w <$> live_of (map_to_list (Queue.ts (queue_at w queue)))).
(** A Go slice is no longer than an [int] can tell. *)
Hypothesis Hlen : Z.of_nat (length (sorted_tasks w queue)) <= Go.max_int.

#[local] Abbreviation all := (sorted_tasks w queue).
#[local] Abbreviation ps := (effective_page_size PageSize).
#[local] Abbreviation state_of := (fun t => Task.state (task_at w t)).

Lemma page_size_pos : 1 <= ps <= 1000.
Proof. unfold effective_page_size. destruct (Z.eqb_spec PageSize 0); lia. Qed.

(** Whatever order the range loop takes, the sorted list is the same. *)
Lemma sorted_visit k :
  Go.SliceStable (Go.by_key (task_name w)) (live_of (visits k)) = all.
Proof.
  unfold sorted_tasks. symmetry. apply GoFacts.SliceStable_order_irrelevant.
  - unfold live_of. apply omap_Permutation. symmetry. apply Hvisit.
  - exact Hnames.
Qed.

(** One call: the page that starts at the offset of the token. *)
Lemma ListTasks_page k tok start :
  token_offset tok = Some start ->
  0 <= start <= Z.of_nat (length all) ->
  ListTasks (ListTasksRequest.mk qname PageSize tok) (visits k) w
  = (Ok (ListTasksResponse.mk
           (state_of <$> take (Z.to_nat ps) (drop (Z.to_nat start) all))
           (if ps <? Z.of_nat (length all) - start then Go.Itoa (start + ps) else "")),
     w).
Proof.
  intros Htok Hstart. unfold ListTasks.
  cbn [ListTasksRequest.Parent ListTasksRequest.PageToken ListTasksRequest.PageSize].
  rewrite Hq, Htok, sorted_visit. unfold Go.slice_from.
  assert (Hr : (0 <=? start) && (start <=? Z.of_nat (length all)) = true).
  { apply andb_true_iff. split; apply Z.leb_le; lia. }
  rewrite Hr.
  assert (Hb : (PageSize <? 0) || (1000 <? PageSize) = false).
  { apply orb_false_iff. split; apply Z.ltb_ge; lia. }
  rewrite Hb. rewrite length_drop.
  replace (Z.of_nat (length all - Z.to_nat start)) with (Z.of_nat (length all) - start) by lia.
  pose proof page_size_pos as Hps.
  destruct (Z.ltb_spec ps (Z.of_nat (length all) - start)) as [Hlt|Hge].
  - unfold Go.wrap_int. unfold Go.max_int in Hlen.
    replace ((start + ps + 2 ^ 63) mod 2 ^ 64 - 2 ^ 63) with (start + ps); [reflexivity|].
    rewrite Z.mod_small by lia. lia.
  - rewrite take_ge; [reflexivity|]. rewrite length_drop. lia.
Qed.

Lemma token_offset_Itoa n : 0 < n <= Go.max_int -> token_offset (Go.Itoa n) = Some n.
Proof.
  intros Hn. unfold token_offset.
  destruct (decide (Go.Itoa n = "")) as [He|_].
  - exfalso. revert He. apply GoFacts.Itoa_nonempty. lia.
  - apply GoFacts.Atoi_Itoa. lia.
Qed.

(** Following the tokens from an offset collects the rest of the list. *)
Lemma drain_from fuel : forall k tok start,
  token_offset tok = Some start ->
  0 <= start <= Z.of_nat (length all) ->
  (length all - Z.to_nat start < fuel)%nat ->
  drain fuel (ListTasksRequest.mk qname PageSize tok) visits k w
  = Some (state_of <$> drop (Z.to_nat start) all).
Proof.
  induction fuel as [|fuel IH]; intros k tok start Htok Hstart Hfuel; [lia|].
  cbn [drain]. rewrite (ListTasks_page k tok start Htok Hstart).
  cbn [fst ListTasksResponse.NextPageToken ListTasksResponse.Tasks
       ListTasksRequest.Parent ListTasksRequest.PageSize].
  pose proof page_size_pos as Hps. unfold Go.max_int in Hlen.
  destruct (Z.ltb_spec ps (Z.of_nat (length all) - start)) as [Hlt|Hge].
  - destruct (decide (Go.Itoa (start + ps) = "")) as [He|_].
    { exfalso. revert He. apply GoFacts.Itoa_nonempty. lia. }
    rewrite (IH (S k) (Go.Itoa (start + ps)) (start + ps)).
    + rewrite <- fmap_app. f_equal. f_equal.
      replace (Z.to_nat (start + ps)) with (Z.to_nat start + Z.to_nat ps)%nat by lia.
      rewrite <- drop_drop. apply take_drop.
    + apply token_offset_Itoa. unfold Go.max_int. lia.
    + lia.
    + lia.
  - destruct (decide ("" = "")) as [_|Hne]; [|congruence].
    rewrite take_ge; [reflexivity|]. rewrite length_drop. lia.
Qed.

(** C4: on a live queue, with a page size in range and tokens that are offsets
    into the list, ListTasks returns a stretch of the queue's live tasks sorted
    by name; the next-page token is empty exactly when the page reaches the end
    of the list and is the decimal next offset otherwise; and following the
    tokens from the empty one collects the whole sorted list. *)
Theorem ListTasks_pages :
  (* the list paged through: the live tasks of the queue, sorted by name *)
  all ≡ₚ live_of (map_to_list (Queue.ts (queue_at w queue)))
  /\ StronglySorted (Go.key_le (task_name w)) all
  (* one page *)
  /\ (forall k tok start,
        token_offset tok = Some start -> 0 <= start <= Z.of_nat (length all) ->
        exists page next,
          ListTasks (ListTasksRequest.mk qname PageSize tok) (visits k) w
          = (Ok (ListTasksResponse.mk (state_of <$> page) next), w)
          /\ page = take (Z.to_nat ps) (drop (Z.to_nat start) all)
          /\ (next = "" <-> Z.to_nat start + length page = length all)%nat
          /\ (next <> "" -> next = Go.Itoa (start + ps)))
  (* all pages *)
  /\ (forall fuel, (length all < fuel)%nat ->
        drain fuel (ListTasksRequest.mk qname PageSize "") visits 0 w
        = Some (state_of <$> all)).
Proof.
  split; [apply GoFacts.SliceStable_perm|]. split; [apply GoFacts.SliceStable_sorted|].
  pose proof page_size_pos as Hps. split.
  - intros k tok start Htok Hstart. eexists _, _.
    split; [apply (ListTasks_page k tok start Htok Hstart)|]. split; [reflexivity|].
    rewrite length_take, length_drop.
    destruct (Z.ltb_spec ps (Z.of_nat (length all) - start)) as [Hlt|Hge].
    + split; [|intros _; reflexivity]. split.
      * intros He. exfalso. revert He. apply GoFacts.Itoa_nonempty. lia.
      * lia.
    + split; [|congruence]. split; [lia|reflexivity].
  - intros fuel Hfuel.
    rewrite (drain_from fuel 0%nat "" 0); [reflexivity|reflexivity|lia|simpl; lia].
Qed.

End Paging.

(** Two tasks in the queue of the tests, listed one per page. *)
Lemma ListTasks_pages_witness :
  (fun t => Task.state (task_at w_two t)) <$> sorted_tasks w_two 1%nat = [6%nat; 3%nat]
  /\ drain 3 (ListTasksRequest.mk ex_queue 1 "")
       (fun _ => map_to_list (Queue.ts (queue_at w_two 1%nat))) 0 w_two
     = Some ((fun t => Task.state (task_at w_two t)) <$> sorted_tasks w_two 1%nat).
Proof.
  split; [vm_compute; reflexivity|].
  assert (Hq : fetchQueue w_two ex_queue = (Some 1%nat, true)) by (vm_compute; reflexivity).
  assert (Hn : length (sorted_tasks w_two 1%nat) = 2%nat) by (vm_compute; reflexivity).
  assert (Hnames : NoDup (task_name w_two
                            <$> live_of (map_to_list (Queue.ts (queue_at w_two 1%nat))))).
  { apply (bool_decide_unpack _ (dec := NoDup_dec _)). vm_compute. exact I. }
  assert (Hlen : Z.of_nat (length (sorted_tasks w_two 1%nat)) <= Go.max_int).
  { rewrite Hn. unfold Go.max_int. lia. }
  assert (Hsize : 0 <= 1 <= 1000) by lia.
  destruct (ListTasks_pages w_two ex_queue 1%nat 1
              (fun _ => map_to_list (Queue.ts (queue_at w_two 1%nat)))
              Hq Hsize (fun _ => Permutation_refl _) Hnames Hlen) as (_ & _ & _ & Hall).
  apply Hall. rewrite Hn. lia.
Defined.

(** ** Well-formedness is kept *)

Lemma wf_boot hardReset : wf (boot hardReset).
Proof.
  constructor; cbn; intros *; rewrite ?lookup_empty; intros H; try discriminate H.
Qed.

(** Steps that touch neither the maps nor the objects nor the task messages. *)
Lemma wf_frame w w' :
  srv w' = srv w -> queueObjs w' = queueObjs w -> taskObjs w' = taskObjs w ->
  taskMsgs w' = taskMsgs w -> (nextLoc w <= nextLoc w')%nat ->
  wf w -> wf w'.
Proof.
  intros Hs Hq Ht Hm Hn [H1 H2 H3 H4 H5].
  constructor; rewrite ?Hs, ?Hq, ?Ht, ?Hm.
  - exact H1.
  - exact H2.
  - exact H3.
  - intros t obj Ho. destruct (H4 t obj Ho) as (? & ? & ?). repeat split; [lia|lia|assumption].
  - intros q obj Ho. destruct (H5 q obj Ho). split; lia.
Qed.

(** A message written at a fresh address. *)
Lemma wf_store_Task m w : wf w -> wf (snd (store_Task m w)).
Proof.
  intros [H1 H2 H3 H4 H5].
  assert (Hfresh : forall t obj, taskObjs w !! t = Some obj ->
            (<[nextLoc w := m]> (taskMsgs w)) !!! Task.state obj
            = taskMsgs w !!! Task.state obj).
  { intros t obj Ho. destruct (H4 t obj Ho) as (_ & Hlt & _).
    apply lookup_total_insert_ne. lia. }
  constructor; cbn.
  - intros name t Hn. destruct (H1 name t Hn) as (obj & Ho & Hd & Hname).
    exists obj. rewrite (Hfresh t obj Ho). auto.
  - exact H2.
  - intros q qo name t Hq Hn. destruct (H3 q qo name t Hq Hn) as (obj & Ho & Hname).
    exists obj. rewrite (Hfresh t obj Ho). auto.
  - intros t obj Ho. destruct (H4 t obj Ho) as (? & ? & ?). repeat split; [lia|lia|assumption].
  - intros q obj Ho. destruct (H5 q obj Ho). split; lia.
Qed.

Lemma wf_Clone_Task p w : wf w -> wf (snd (Clone_Task p w)).
Proof. apply (wf_store_Task (task_msg w p) w). Qed.

(** A message rewritten under its name. *)
Lemma wf_rewrite_msg p m w :
  tasks.Task.Name m = tasks.Task.Name (taskMsgs w !!! p) ->
  wf w -> wf (upd_taskMsgs (insert p m) w).
Proof.
  intros Hm [H1 H2 H3 H4 H5].
  assert (Hname : forall x, tasks.Task.Name (<[p := m]> (taskMsgs w) !!! x)
                            = tasks.Task.Name (taskMsgs w !!! x)).
  { intros x. destruct (decide (p = x)) as [->|Hne].
    - rewrite lookup_total_insert_eq. exact Hm.
    - rewrite lookup_total_insert_ne by exact Hne. reflexivity. }
  constructor; cbn.
  - intros name t Hn. destruct (H1 name t Hn) as (obj & Ho & Hd & Hnm).
    exists obj. rewrite Hname. auto.
  - exact H2.
  - intros q qo name t Hq Hn. destruct (H3 q qo name t Hq Hn) as (obj & Ho & Hnm).
    exists obj. rewrite Hname. auto.
  - exact H4.
  - exact H5.
Qed.

(** A queue object replaced by one with the same state pointer and a task set
    whose live entries are in order. *)
Lemma wf_update_queue q qo qo' w :
  queueObjs w !! q = Some qo ->
  Queue.state qo' = Queue.state qo ->
  (forall name t, Queue.ts qo' !! name = Some (Some t) ->
     exists obj, taskObjs w !! t = Some obj
       /\ tasks.Task.Name (taskMsgs w !!! Task.state obj) = name) ->
  wf w -> wf (upd_queueObjs (insert q qo') w).
Proof.
  intros Hq Hst Hts [H1 H2 H3 H4 H5].
  constructor; cbn.
  - exact H1.
  - intros name q0 Hn. destruct (decide (q = q0)) as [->|Hne].
    + rewrite lookup_insert_eq. eauto.
    + rewrite lookup_insert_ne by exact Hne. eauto.
  - intros q0 qo0 name t Hq0 Hn. destruct (decide (q = q0)) as [->|Hne].
    + rewrite lookup_insert_eq in Hq0. injection Hq0 as <-. eauto.
    + rewrite lookup_insert_ne in Hq0 by exact Hne. eauto.
  - intros t obj Ho. destruct (H4 t obj Ho) as (? & ? & Hqa). repeat split; [lia|lia|].
    destruct (decide (q = Task.queue obj)) as [->|Hne].
    + rewrite lookup_insert_eq. eauto.
    + rewrite lookup_insert_ne by exact Hne. exact Hqa.
  - intros q0 qo0 Hq0. destruct (decide (q = q0)) as [->|Hne].
    + rewrite lookup_insert_eq in Hq0. injection Hq0 as <-. rewrite Hst. eauto.
    + rewrite lookup_insert_ne in Hq0 by exact Hne. eauto.
Qed.

(** Entries of the Server's maps set to nil or taken out. *)
Lemma wf_removeTask name w : wf w -> wf (removeTask name w).
Proof.
  intros [H1 H2 H3 H4 H5]. constructor; cbn; try assumption.
  intros n t Hn. destruct (decide (name = n)) as [->|Hne].
  - rewrite lookup_insert_eq in Hn. discriminate Hn.
  - rewrite lookup_insert_ne in Hn by exact Hne. eauto.
Qed.

Lemma wf_hardDeleteTask name w : wf w -> wf (hardDeleteTask name w).
Proof.
  intros [H1 H2 H3 H4 H5]. constructor; cbn; try assumption.
  intros n t Hn. destruct (decide (name = n)) as [->|Hne].
  - rewrite lookup_delete_eq in Hn. discriminate Hn.
  - rewrite lookup_delete_ne in Hn by exact Hne. eauto.
Qed.

Lemma wf_removeQueue name w : wf w -> wf (removeQueue name w).
Proof.
  intros [H1 H2 H3 H4 H5]. constructor; cbn; try assumption.
  intros n q Hn. destruct (decide (name = n)) as [->|Hne].
  - rewrite lookup_insert_eq in Hn. discriminate Hn.
  - rewrite lookup_insert_ne in Hn by exact Hne. eauto.
Qed.

(** A task that is not terminal exists: the object read through a dangling
    pointer would be terminal. *)
Lemma task_at_allocated w t :
  Task.done (task_at w t) = false -> taskObjs w !! t = Some (task_at w t).
Proof.
  unfold task_at. rewrite lookup_total_alt.
  destruct (taskObjs w !! t) as [obj|]; [reflexivity|]. cbn. discriminate.
Qed.

Lemma queue_at_allocated w q qo : queueObjs w !! q = Some qo -> queue_at w q = qo.
Proof. intros H. unfold queue_at. rewrite lookup_total_alt, H. reflexivity. Qed.

Lemma wf_mark_done t obj w :
  taskObjs w !! t = Some obj ->
  (forall name, ts (srv w) !! name <> Some (Some t)) ->
  wf w -> wf (upd_taskObjs (insert t (with_done true obj)) w).
Proof.
  intros Ht Hfree [H1 H2 H3 H4 H5].
  assert (Hobj : forall t' obj', <[t := with_done true obj]> (taskObjs w) !! t' = Some obj' ->
            exists obj0, taskObjs w !! t' = Some obj0
              /\ Task.state obj' = Task.state obj0 /\ Task.queue obj' = Task.queue obj0).
  { intros t' obj' Ho. destruct (decide (t = t')) as [->|Hne].
    - rewrite lookup_insert_eq in Ho. injection Ho as <-. exists obj. auto.
    - rewrite lookup_insert_ne in Ho by exact Hne. exists obj'. auto. }
  constructor; cbn.
  - intros name t' Hn. destruct (H1 name t' Hn) as (obj' & Ho & Hd & Hname).
    exists obj'. rewrite lookup_insert_ne; [auto|]. intros ->. exact (Hfree name Hn).
  - exact H2.
  - intros q qo name t' Hq Hn. destruct (H3 q qo name t' Hq Hn) as (obj' & Ho & Hname).
    destruct (decide (t = t')) as [->|Hne].
    + rewrite lookup_insert_eq. exists (with_done true obj). split; [reflexivity|].
      rewrite Ht in Ho. injection Ho as <-. exact Hname.
    + rewrite lookup_insert_ne by exact Hne. eauto.
  - intros t' obj' Ho. destruct (Hobj t' obj' Ho) as (obj0 & Ho0 & -> & ->). eauto.
  - exact H5.
Qed.

(** The removal callback, one update after the other. *)
Lemma Task_finish_steps t w :
  Task_finish t w
  = upd_queueObjs
      (insert (Task.queue (task_at w t))
         (with_ts (insert (task_name w t) None) (queue_at w (Task.queue (task_at w t)))))
      (upd_taskObjs (insert t (with_done true (task_at w t)))
         (removeTask (task_name w t) w)).
Proof.
  unfold Task_finish, Queue_onTaskDone, Server_onTaskDone.
  set (w1 := upd_taskObjs _ w).
  assert (Hobj : task_at w1 t = with_done true (task_at w t)).
  { unfold w1, task_at, upd_taskObjs. cbn [taskObjs]. apply lookup_total_insert_eq. }
  assert (Hn : forall w2, taskObjs w2 = taskObjs w1 -> taskMsgs w2 = taskMsgs w1 ->
            task_name w2 t = task_name w t).
  { intros w2 Ho Hm. rewrite <- (task_name_mark_done w t t). fold w1.
    unfold task_name, task_at, task_msg. rewrite Ho, Hm. reflexivity. }
  rewrite Hobj. rewrite (Hn w1 eq_refl eq_refl).
  rewrite Hn by reflexivity. reflexivity.
Qed.

Lemma wf_Task_finish t w :
  Task.done (task_at w t) = false -> wf w -> wf (Task_finish t w).
Proof.
  intros Hd Hwf. pose proof (task_at_allocated w t Hd) as Ht.
  destruct (wf_task_objs w Hwf t _ Ht) as (_ & _ & [qo Hq]).
  rewrite Task_finish_steps. rewrite (queue_at_allocated w _ qo Hq).
  pose proof (wf_removeTask (task_name w t) w Hwf) as Hwf1.
  assert (Hwf2 : wf (upd_taskObjs (insert t (with_done true (task_at w t)))
                       (removeTask (task_name w t) w))).
  { apply wf_mark_done; [exact Ht| |exact Hwf1].
    intros name Hn. cbn in Hn. destruct (decide (task_name w t = name)) as [He|Hne].
    - rewrite He, lookup_insert_eq in Hn. discriminate Hn.
    - rewrite lookup_insert_ne in Hn by exact Hne.
      destruct (wf_tasks w Hwf name t Hn) as (obj & Ho & _ & Hname).
      rewrite Ht in Ho. injection Ho as <-. apply Hne. exact Hname. }
  apply (wf_update_queue _ qo); [exact Hq|reflexivity| |exact Hwf2].
  intros name t' Hn. cbn [with_ts Queue.ts] in Hn.
  destruct (decide (task_name w t = name)) as [He|Hne].
  - rewrite He, lookup_insert_eq in Hn. discriminate Hn.
  - rewrite lookup_insert_ne in Hn by exact Hne.
    apply (wf_queue_ts _ Hwf2 (Task.queue (task_at w t)) qo); [exact Hq|exact Hn].
Qed.

Lemma wf_Task_Delete t w : wf w -> wf (Task_Delete t w).
Proof.
  intros Hwf. unfold Task_Delete. destruct (Task.done (task_at w t)) eqn:Hd; [exact Hwf|].
  apply wf_Task_finish; assumption.
Qed.

Lemma wf_delete_all l : forall w, wf w -> wf (delete_all l w).
Proof.
  induction l as [|t l IH]; intros w Hwf; [exact Hwf|].
  apply (IH (Task_Delete t w)). apply wf_Task_Delete. exact Hwf.
Qed.

Lemma wf_Task_Attempt t status now w : wf w -> wf (Task_Attempt t status now w).
Proof.
  intros Hwf. unfold Task_Attempt.
  destruct (Task.done (task_at w t)) eqn:Hd; [exact Hwf|].
  destruct (Queue.cancelled _); [exact Hwf|].
  assert (Hfin : forall m, tasks.Task.Name m
                           = tasks.Task.Name (taskMsgs w !!! Task.state (task_at w t)) ->
            wf (Task_finish t (upd_taskMsgs (insert (Task.state (task_at w t)) m) w))).
  { intros m Hm. apply wf_Task_finish; [exact Hd|]. apply wf_rewrite_msg; assumption. }
  destruct (tasks.Queue.State _); try exact Hwf.
  destruct (is_2xx status); [apply Hfin; reflexivity|].
  destruct (retry_exhausted _ _ _); [apply Hfin; reflexivity|].
  apply wf_rewrite_msg; [reflexivity|exact Hwf].
Qed.

(** Queues stay allocated. *)
Lemma keeps_queues_Task_Delete t w : keeps_queues w (Task_Delete t w).
Proof.
  unfold Task_Delete. destruct (Task.done (task_at w t)); [intros q Hq; exact Hq|].
  rewrite Task_finish_steps. intros q Hq. cbn.
  destruct (decide (Task.queue (task_at w t) = q)) as [->|Hne].
  - rewrite lookup_insert_eq. eauto.
  - rewrite lookup_insert_ne by exact Hne. exact Hq.
Qed.

Lemma keeps_queues_delete_all l : forall w, keeps_queues w (delete_all l w).
Proof.
  induction l as [|t l IH]; intros w q Hq; [exact Hq|].
  apply (IH (Task_Delete t w)). apply keeps_queues_Task_Delete. exact Hq.
Qed.

Lemma wf_hardDelete_all (entries : list (string * option loc)) : forall w,
  wf w -> wf (foldl (fun w kv => hardDeleteTask (fst kv) w) w entries).
Proof.
  induction entries as [|kv entries IH]; intros w Hwf; [exact Hwf|].
  apply IH. apply wf_hardDeleteTask. exact Hwf.
Qed.

Lemma hardDelete_all_queueObjs (entries : list (string * option loc)) : forall w,
  queueObjs (foldl (fun w kv => hardDeleteTask (fst kv) w) w entries) = queueObjs w.
Proof.
  induction entries as [|kv entries IH]; intros w; [reflexivity|].
  cbn [foldl]. rewrite IH. reflexivity.
Qed.

Lemma wf_purge_worker w : wf w -> wf (purge_worker w).
Proof.
  intros Hwf. unfold purge_worker. destruct (purging w) as [|q rest]; [exact Hwf|].
  apply wf_delete_all. revert Hwf. apply wf_frame; reflexivity.
Qed.

Lemma wf_Queue_Delete q w : is_Some (queueObjs w !! q) -> wf w -> wf (Queue_Delete q w).
Proof.
  intros [qo Hq] Hwf. unfold Queue_Delete. apply wf_delete_all.
  rewrite (queue_at_allocated w q qo Hq).
  apply (wf_update_queue q qo); [exact Hq|reflexivity| |exact Hwf].
  intros name t Hn. exact (wf_queue_ts w Hwf q qo name t Hq Hn).
Qed.

Lemma wf_Queue_HardReset q w : is_Some (queueObjs w !! q) -> wf w -> wf (Queue_HardReset q w).
Proof.
  intros Hq Hwf. unfold Queue_HardReset.
  set (entries := map_to_list (Queue.ts (queue_at w q))).
  set (w1 := delete_all (live_of entries) w).
  set (w2 := foldl _ w1 entries).
  assert (Hwf2 : wf w2) by (apply wf_hardDelete_all, wf_delete_all; exact Hwf).
  assert (Hq2 : is_Some (queueObjs w2 !! q)).
  { unfold w2. rewrite hardDelete_all_queueObjs. apply keeps_queues_delete_all. exact Hq. }
  destruct Hq2 as [qo Hq2]. rewrite (queue_at_allocated w2 q qo Hq2).
  apply (wf_update_queue q qo); [exact Hq2|reflexivity| |exact Hwf2].
  intros name t Hn. cbn in Hn. rewrite lookup_empty in Hn. discriminate Hn.
Qed.

(** A task created. *)
Lemma wf_Queue_NewTask q m now rnd w :
  is_Some (queueObjs w !! q) -> wf w ->
  wf (setTask (new_task_name w q m rnd) (Some (S (nextLoc w)))
        (snd (Queue_NewTask q m now rnd w))).
Proof.
  intros [qo Hq] [H1 H2 H3 H4 H5].
  set (name := new_task_name w q m rnd).
  set (st := new_task_state name m now).
  assert (Hold : forall t obj, taskObjs w !! t = Some obj ->
            <[S (nextLoc w) := Task.mk (nextLoc w) q false]> (taskObjs w) !! t = Some obj
            /\ (<[S (S (nextLoc w)) := st]> (<[nextLoc w := st]> (taskMsgs w)))
                 !!! Task.state obj = taskMsgs w !!! Task.state obj).
  { intros t obj Ho. destruct (H4 t obj Ho) as (Hlt & Hst & _). split.
    - rewrite lookup_insert_ne by lia. exact Ho.
    - rewrite !lookup_total_insert_ne by lia. reflexivity. }
  assert (Hnew : (<[S (S (nextLoc w)) := st]> (<[nextLoc w := st]> (taskMsgs w)))
                   !!! nextLoc w = st).
  { rewrite lookup_total_insert_ne by lia. apply lookup_total_insert_eq. }
  constructor; unfold setTask, upd_ts; cbn [srv ts qs taskObjs queueObjs taskMsgs nextLoc];
    rewrite ?Queue_NewTask_taskObjs, ?Queue_NewTask_taskMsgs, ?Queue_NewTask_queueObjs,
      ?Queue_NewTask_nextLoc, ?Queue_NewTask_srv; fold name; fold st.
  - intros n t Hn. destruct (decide (name = n)) as [<-|Hne].
    + rewrite lookup_insert_eq in Hn. injection Hn as <-.
      exists (Task.mk (nextLoc w) q false). rewrite lookup_insert_eq.
      split; [reflexivity|]. split; [reflexivity|]. cbn [Task.state]. rewrite Hnew. reflexivity.
    + rewrite lookup_insert_ne in Hn by exact Hne.
      destruct (H1 n t Hn) as (obj & Ho & Hd & Hname). exists obj.
      destruct (Hold t obj Ho) as [-> ->]. auto.
  - intros n q0 Hn. destruct (decide (q = q0)) as [->|Hne].
    + rewrite lookup_insert_eq. eauto.
    + rewrite lookup_insert_ne by exact Hne. eauto.
  - intros q0 qo0 n t Hq0 Hn.
    assert (Hcase : (n = name /\ t = S (nextLoc w))
                    \/ exists qo1, queueObjs w !! q0 = Some qo1
                                   /\ Queue.ts qo1 !! n = Some (Some t)).
    { destruct (decide (q = q0)) as [<-|Hne].
      - rewrite lookup_insert_eq in Hq0. injection Hq0 as <-. cbn [with_ts Queue.ts] in Hn.
        destruct (decide (name = n)) as [<-|Hne].
        + rewrite lookup_insert_eq in Hn. injection Hn as <-. left. auto.
        + rewrite lookup_insert_ne in Hn by exact Hne. right. exists qo.
          rewrite (queue_at_allocated w q qo Hq) in Hn. auto.
      - rewrite lookup_insert_ne in Hq0 by exact Hne. right. eauto. }
    destruct Hcase as [[-> ->]|(qo1 & Hq1 & Hn1)].
    + exists (Task.mk (nextLoc w) q false). rewrite lookup_insert_eq.
      split; [reflexivity|]. cbn [Task.state]. rewrite Hnew. reflexivity.
    + destruct (H3 q0 qo1 n t Hq1 Hn1) as (obj & Ho & Hname). exists obj.
      destruct (Hold t obj Ho) as [-> ->]. auto.
  - intros t obj Ho.
    assert (Hqa : forall q0, is_Some (queueObjs w !! q0) ->
              is_Some (<[q := with_ts (insert name (Some (S (nextLoc w)))) (queue_at w q)]>
                         (queueObjs w) !! q0)).
    { intros q0 Hq0. destruct (decide (q = q0)) as [->|Hne].
      - rewrite lookup_insert_eq. eauto.
      - rewrite lookup_insert_ne by exact Hne. exact Hq0. }
    destruct (decide (S (nextLoc w) = t)) as [<-|Hne].
    + rewrite lookup_insert_eq in Ho. injection Ho as <-. cbn [Task.state Task.queue].
      repeat split; [lia|lia|]. apply Hqa. eauto.
    + rewrite lookup_insert_ne in Ho by exact Hne.
      destruct (H4 t obj Ho) as (? & ? & ?). repeat split; [lia|lia|]. apply Hqa. assumption.
  - intros q0 qo0 Hq0. destruct (decide (q = q0)) as [<-|Hne].
    + rewrite lookup_insert_eq in Hq0. injection Hq0 as <-. cbn [with_ts Queue.state].
      rewrite (queue_at_allocated w q qo Hq). destruct (H5 q qo Hq). split; lia.
    + rewrite lookup_insert_ne in Hq0 by exact Hne. destruct (H5 q0 qo0 Hq0). split; lia.
Qed.

(** A queue created. *)
Lemma wf_new_queue name m w :
  wf w ->
  wf (setQueue name (Some (S (nextLoc w)))
        (snd (NewQueue name (nextLoc w) (snd (store_Queue m w))))).
Proof.
  intros [H1 H2 H3 H4 H5].
  constructor; unfold setQueue, upd_qs, NewQueue, store_Queue, Clone_Queue, alloc;
    cbn [snd fst srv ts qs taskObjs queueObjs taskMsgs nextLoc upd_queueMsgs upd_queueObjs].
  - exact H1.
  - intros n q Hn. destruct (decide (name = n)) as [->|Hne].
    + rewrite lookup_insert_eq in Hn. injection Hn as <-. rewrite lookup_insert_eq. eauto.
    + rewrite lookup_insert_ne in Hn by exact Hne.
      destruct (H2 n q Hn) as [qo Hq]. destruct (H5 q qo Hq) as [Hlt _].
      rewrite lookup_insert_ne by lia. eauto.
  - intros q qo n t Hq Hn. destruct (decide (S (nextLoc w) = q)) as [<-|Hne].
    + rewrite lookup_insert_eq in Hq. injection Hq as <-. cbn in Hn.
      rewrite lookup_empty in Hn. discriminate Hn.
    + rewrite lookup_insert_ne in Hq by exact Hne. eauto.
  - intros t obj Ho. destruct (H4 t obj Ho) as (? & ? & [qo Hq]).
    repeat split; [lia|lia|]. destruct (H5 _ qo Hq) as [Hlt _].
    rewrite lookup_insert_ne by lia. eauto.
  - intros q qo Hq. destruct (decide (S (nextLoc w) = q)) as [<-|Hne].
    + rewrite lookup_insert_eq in Hq. injection Hq as <-. cbn. split; lia.
    + rewrite lookup_insert_ne in Hq by exact Hne. destruct (H5 q qo Hq). split; lia.
Qed.

Lemma fetchQueue_allocated w name queue ok :
  wf w -> fetchQueue w name = (Some queue, ok) -> is_Some (queueObjs w !! queue).
Proof.
  intros Hwf H. unfold fetchQueue in H.
  destruct (qs (srv w) !! name) as [[q|]|] eqn:Hq; try discriminate H.
  injection H as <- _. exact (wf_queues w Hwf name q Hq).
Qed.

Lemma wf_CreateQueue in_ w : wf w -> wf (snd (CreateQueue in_ w)).
Proof.
  intros Hwf. unfold CreateQueue.
  destruct (negb (Regexp.MatchString Regexp.queue_pattern _)); [exact Hwf|].
  destruct (negb (Regexp.MatchString Regexp.parent_pattern _)); [exact Hwf|].
  destruct (fetchQueue w _) as [[q|] []]; try exact Hwf;
    (destruct (CreateQueueRequest.Queue in_) as [m|]; [|exact Hwf]);
    apply (wf_new_queue _ m w Hwf).
Qed.

Lemma wf_CreateTask in_ now rnd w : wf w -> wf (snd (CreateTask in_ now rnd w)).
Proof.
  intros Hwf. unfold CreateTask.
  destruct (fetchQueue w (CreateTaskRequest.Parent in_)) as [[queue|] []] eqn:Hq;
    try exact Hwf.
  destruct (CreateTaskRequest.Task in_) as [task|]; [|exact Hwf].
  destruct (check_task_name w _ _) as [[c msg]|]; [exact Hwf|].
  rewrite (surjective_pairing (Queue_NewTask queue task now rnd w)).
  rewrite Queue_NewTask_result, Queue_NewTask_clone_name. cbn [snd].
  apply wf_Queue_NewTask; [|exact Hwf]. exact (fetchQueue_allocated _ _ _ _ Hwf Hq).
Qed.

(** Every event keeps the world well-formed. *)
Lemma wf_exec e w w' : wf w -> exec e w = Some w' -> wf w'.
Proof.
  intros Hwf He. destruct e; cbn [exec] in He;
    try (apply survive_Some in He; subst w').
  - apply wf_CreateQueue. exact Hwf.
  - unfold GetQueue. repeat case_match; exact Hwf.
  - exact Hwf.
  - exact Hwf.
  - unfold DeleteQueue. destruct (fetchQueue w name) as [[q|] []] eqn:Hq; try exact Hwf.
    cbn [snd]. apply wf_removeQueue, wf_Queue_Delete; [|exact Hwf].
    exact (fetchQueue_allocated _ _ _ _ Hwf Hq).
  - unfold PurgeQueue. destruct (fetchQueue w name) as [[q|] ok] eqn:Hq; [|exact Hwf].
    cbn [snd]. destruct (HardResetOnPurgeQueue _).
    + apply wf_Queue_HardReset; [|exact Hwf]. exact (fetchQueue_allocated _ _ _ _ Hwf Hq).
    + revert Hwf. apply wf_frame; reflexivity.
  - unfold PauseQueue. destruct (fetchQueue w name) as [[q|] ok]; [|exact Hwf].
    cbn [snd]. revert Hwf. apply wf_frame; reflexivity.
  - unfold ResumeQueue. destruct (fetchQueue w name) as [[q|] ok]; [|exact Hwf].
    cbn [snd]. revert Hwf. apply wf_frame; reflexivity.
  - unfold ListTasks. repeat case_match; exact Hwf.
  - unfold GetTask. repeat case_match; exact Hwf.
  - apply wf_CreateTask. exact Hwf.
  - unfold DeleteTask. repeat case_match; try exact Hwf. apply wf_Task_Delete. exact Hwf.
  - unfold RunTask. destruct (fetchTask w name) as [[t|] []]; try exact Hwf.
    apply wf_Clone_Task. exact Hwf.
  - injection He as <-. apply wf_Task_Attempt. exact Hwf.
  - injection He as <-. apply wf_purge_worker. exact Hwf.
Qed.

Lemma wf_run es : forall w w', wf w -> run es w = Some w' -> wf w'.
Proof.
  induction es as [|e es IH]; intros w w' Hwf Hrun; cbn [run] in Hrun.
  - injection Hrun as <-. exact Hwf.
  - destruct (exec e w) as [w1|] eqn:He; [|discriminate Hrun].
    apply (IH w1 w'); [|exact Hrun]. exact (wf_exec e w w1 Hwf He).
Qed.

Lemma reachable_wf w : reachable w -> wf w.
Proof. intros (hardReset & es & Hrun). exact (wf_run es _ w (wf_boot hardReset) Hrun). Qed.

(** ** What the handlers return: aliases and clones *)

Lemma keeps_task_msg_refl p w : keeps_task_msg p w w.
Proof. intros H. auto. Qed.

Lemma keeps_task_msg_trans p w1 w2 w3 :
  keeps_task_msg p w1 w2 -> keeps_task_msg p w2 w3 -> keeps_task_msg p w1 w3.
Proof.
  intros H12 H23 Hd. destruct (H12 Hd) as [Hd2 He2]. destruct (H23 Hd2) as [Hd3 He3].
  split; [exact Hd3|congruence].
Qed.

Lemma keeps_task_msg_frame p w w' :
  taskObjs w' = taskObjs w -> taskMsgs w' = taskMsgs w -> (nextLoc w <= nextLoc w')%nat ->
  keeps_task_msg p w w'.
Proof.
  intros Ho Hm Hn [Hlt Hd]. unfold detached_task_msg. rewrite Ho, Hm.
  split; [split; [lia|exact Hd]|reflexivity].
Qed.

Lemma keeps_task_msg_store p m w : keeps_task_msg p w (snd (store_Task m w)).
Proof.
  intros [Hlt Hd]. unfold detached_task_msg. cbn.
  split; [split; [lia|exact Hd]|]. apply lookup_total_insert_ne. lia.
Qed.

(** A write through the state pointer of a task. *)
Lemma keeps_task_msg_write p t obj m w :
  taskObjs w !! t = Some obj ->
  keeps_task_msg p w (upd_taskMsgs (insert (Task.state obj) m) w).
Proof.
  intros Ho [Hlt Hd]. unfold detached_task_msg. cbn.
  split; [split; [lia|exact Hd]|]. apply lookup_total_insert_ne. exact (Hd t obj Ho).
Qed.

Lemma keeps_task_msg_Task_finish p t w :
  Task.done (task_at w t) = false -> keeps_task_msg p w (Task_finish t w).
Proof.
  intros Hdone [Hlt Hd]. pose proof (task_at_allocated w t Hdone) as Ht.
  rewrite Task_finish_steps. unfold detached_task_msg. cbn.
  split; [split; [lia|]|reflexivity].
  intros t' obj' Ho. destruct (decide (t = t')) as [->|Hne].
  - rewrite lookup_insert_eq in Ho. injection Ho as <-. exact (Hd t' _ Ht).
  - rewrite lookup_insert_ne in Ho by exact Hne. exact (Hd t' obj' Ho).
Qed.

Lemma keeps_task_msg_Task_Delete p t w : keeps_task_msg p w (Task_Delete t w).
Proof.
  unfold Task_Delete. destruct (Task.done (task_at w t)) eqn:Hd.
  - apply keeps_task_msg_refl.
  - apply keeps_task_msg_Task_finish. exact Hd.
Qed.

Lemma keeps_task_msg_delete_all p l : forall w, keeps_task_msg p w (delete_all l w).
Proof.
  induction l as [|t l IH]; intros w; [apply keeps_task_msg_refl|].
  apply (keeps_task_msg_trans p _ (Task_Delete t w)); [apply keeps_task_msg_Task_Delete|apply IH].
Qed.

Lemma keeps_task_msg_Task_Attempt p t status now w :
  keeps_task_msg p w (Task_Attempt t status now w).
Proof.
  unfold Task_Attempt.
  destruct (Task.done (task_at w t)) eqn:Hd; [apply keeps_task_msg_refl|].
  pose proof (task_at_allocated w t Hd) as Ht.
  destruct (Queue.cancelled _); [apply keeps_task_msg_refl|].
  assert (Hfin : forall m,
            keeps_task_msg p w
              (Task_finish t (upd_taskMsgs (insert (Task.state (task_at w t)) m) w))).
  { intros m. eapply keeps_task_msg_trans; [apply (keeps_task_msg_write p t _ m w Ht)|].
    apply keeps_task_msg_Task_finish. exact Hd. }
  destruct (tasks.Queue.State _); try apply keeps_task_msg_refl.
  destruct (is_2xx status); [apply Hfin|].
  destruct (retry_exhausted _ _ _); [apply Hfin|].
  apply (keeps_task_msg_write p t _ _ w Ht).
Qed.

Lemma keeps_task_msg_hardDelete_all p (entries : list (string * option loc)) : forall w,
  keeps_task_msg p w (foldl (fun w kv => hardDeleteTask (fst kv) w) w entries).
Proof.
  induction entries as [|kv entries IH]; intros w; [apply keeps_task_msg_refl|].
  cbn [foldl]. eapply keeps_task_msg_trans; [|apply IH].
  apply keeps_task_msg_frame; reflexivity.
Qed.

Lemma keeps_task_msg_Queue_NewTask p q m now rnd w :
  keeps_task_msg p w (snd (Queue_NewTask q m now rnd w)).
Proof.
  intros [Hlt Hd]. unfold detached_task_msg.
  rewrite Queue_NewTask_taskObjs, Queue_NewTask_taskMsgs, Queue_NewTask_nextLoc.
  split; [split; [lia|]|].
  - intros t obj Ho. destruct (decide (S (nextLoc w) = t)) as [<-|Hne].
    + rewrite lookup_insert_eq in Ho. injection Ho as <-. cbn. lia.
    + rewrite lookup_insert_ne in Ho by exact Hne. exact (Hd t obj Ho).
  - rewrite !lookup_total_insert_ne by lia. reflexivity.
Qed.

Lemma keeps_task_msg_Queue_Delete p q w : keeps_task_msg p w (Queue_Delete q w).
Proof.
  unfold Queue_Delete.
  apply (keeps_task_msg_trans p w
           (upd_queueObjs (insert q (with_cancelled true (queue_at w q))) w)).
  - apply keeps_task_msg_frame; reflexivity.
  - apply keeps_task_msg_delete_all.
Qed.

Lemma keeps_task_msg_Queue_HardReset p q w : keeps_task_msg p w (Queue_HardReset q w).
Proof.
  unfold Queue_HardReset.
  set (entries := map_to_list (Queue.ts (queue_at w q))).
  set (w1 := delete_all (live_of entries) w).
  set (w2 := foldl _ w1 entries).
  apply (keeps_task_msg_trans p w w1); [apply keeps_task_msg_delete_all|].
  apply (keeps_task_msg_trans p w1 w2); [apply keeps_task_msg_hardDelete_all|].
  apply keeps_task_msg_frame; reflexivity.
Qed.

Ltac keeps_task_msg_cases :=
  repeat case_match; try apply keeps_task_msg_refl;
  try (apply keeps_task_msg_frame; reflexivity).

Lemma keeps_task_msg_exec p e w w' : exec e w = Some w' -> keeps_task_msg p w w'.
Proof.
  intros He. destruct e; cbn [exec] in He;
    try (apply survive_Some in He; subst w').
  - unfold CreateQueue. repeat case_match; try apply keeps_task_msg_refl;
      cbn [snd]; apply keeps_task_msg_frame;
      match goal with
      | H5 : store_Queue _ _ = _, H6 : NewQueue _ _ _ = _ |- _ =>
          apply (f_equal snd) in H5, H6; cbn [snd] in H5, H6; subst; cbn; try reflexivity; lia
      end.
  - unfold GetQueue. keeps_task_msg_cases.
  - apply keeps_task_msg_refl.
  - apply keeps_task_msg_refl.
  - unfold DeleteQueue. destruct (fetchQueue w name) as [[q|] []];
      try apply keeps_task_msg_refl. cbn [snd].
    apply (keeps_task_msg_trans p w (Queue_Delete q w)); [apply keeps_task_msg_Queue_Delete|].
    apply keeps_task_msg_frame; reflexivity.
  - unfold PurgeQueue. destruct (fetchQueue w name) as [[q|] ok];
      [|apply keeps_task_msg_refl]. cbn [snd].
    destruct (HardResetOnPurgeQueue _); [apply keeps_task_msg_Queue_HardReset|].
    apply keeps_task_msg_frame; reflexivity.
  - unfold PauseQueue. keeps_task_msg_cases.
  - unfold ResumeQueue. keeps_task_msg_cases.
  - unfold ListTasks. keeps_task_msg_cases.
  - unfold GetTask. keeps_task_msg_cases.
  - unfold CreateTask.
    destruct (fetchQueue w _) as [[queue|] []]; try apply keeps_task_msg_refl.
    destruct (CreateTaskRequest.Task in_) as [task|]; [|apply keeps_task_msg_refl].
    destruct (check_task_name w _ _) as [[c msg]|]; [apply keeps_task_msg_refl|].
    rewrite (surjective_pairing (Queue_NewTask queue task now rnd w)).
    rewrite Queue_NewTask_result. cbn [snd].
    apply (keeps_task_msg_trans p w (snd (Queue_NewTask queue task now rnd w)));
      [apply keeps_task_msg_Queue_NewTask|].
    apply keeps_task_msg_frame; reflexivity.
  - unfold DeleteTask. keeps_task_msg_cases. apply keeps_task_msg_Task_Delete.
  - unfold RunTask. destruct (fetchTask w name) as [[t|] []]; try apply keeps_task_msg_refl.
    apply keeps_task_msg_store.
  - injection He as <-. apply keeps_task_msg_Task_Attempt.
  - injection He as <-. unfold purge_worker.
    destruct (purging w) as [|q rest]; [apply keeps_task_msg_refl|].
    apply (keeps_task_msg_trans p w (upd_purging (fun _ => rest) w));
      [apply keeps_task_msg_frame; reflexivity|apply keeps_task_msg_delete_all].
Qed.

Lemma keeps_task_msg_run p es : forall w w', run es w = Some w' -> keeps_task_msg p w w'.
Proof.
  induction es as [|e es IH]; intros w w' Hrun; cbn [run] in Hrun.
  - injection Hrun as <-. apply keeps_task_msg_refl.
  - destruct (exec e w) as [w1|] eqn:He; [|discriminate Hrun].
    exact (keeps_task_msg_trans p w w1 w' (keeps_task_msg_exec p e w w1 He) (IH w1 w' Hrun)).
Qed.

Lemma keeps_queue_msg_refl p w : keeps_queue_msg p w w.
Proof. intros H. auto. Qed.

Lemma keeps_queue_msg_trans p w1 w2 w3 :
  keeps_queue_msg p w1 w2 -> keeps_queue_msg p w2 w3 -> keeps_queue_msg p w1 w3.
Proof.
  intros H12 H23 Hd. destruct (H12 Hd) as [Hd2 He2]. destruct (H23 Hd2) as [Hd3 He3].
  split; [exact Hd3|congruence].
Qed.

Lemma keeps_queue_msg_frame p w w' :
  queueObjs w' = queueObjs w -> queueMsgs w' = queueMsgs w -> (nextLoc w <= nextLoc w')%nat ->
  keeps_queue_msg p w w'.
Proof.
  intros Ho Hm Hn [Hlt Hd]. unfold detached_queue_msg. rewrite Ho, Hm.
  split; [split; [lia|exact Hd]|reflexivity].
Qed.

(** A queue object replaced by one with the same state pointer. *)
Lemma keeps_queue_msg_update p q qo qo' w :
  queueObjs w !! q = Some qo -> Queue.state qo' = Queue.state qo ->
  keeps_queue_msg p w (upd_queueObjs (insert q qo') w).
Proof.
  intros Hq Hst [Hlt Hd]. unfold detached_queue_msg. cbn.
  split; [split; [lia|]|reflexivity].
  intros q0 qo0 Hq0. destruct (decide (q = q0)) as [->|Hne].
  - rewrite lookup_insert_eq in Hq0. injection Hq0 as <-. rewrite Hst. exact (Hd q0 qo Hq).
  - rewrite lookup_insert_ne in Hq0 by exact Hne. exact (Hd q0 qo0 Hq0).
Qed.

(** A write through the state pointer of a queue. *)
Lemma keeps_queue_msg_write p q qo m w :
  queueObjs w !! q = Some qo ->
  keeps_queue_msg p w (upd_queueMsgs (insert (Queue.state qo) m) w).
Proof.
  intros Hq [Hlt Hd]. unfold detached_queue_msg. cbn.
  split; [split; [lia|exact Hd]|]. apply lookup_total_insert_ne. exact (Hd q qo Hq).
Qed.

Lemma keeps_queue_msg_Task_finish p t w :
  wf w -> Task.done (task_at w t) = false -> keeps_queue_msg p w (Task_finish t w).
Proof.
  intros Hwf Hdone. pose proof (task_at_allocated w t Hdone) as Ht.
  destruct (wf_task_objs w Hwf t _ Ht) as (_ & _ & [qo Hq]).
  rewrite Task_finish_steps.
  set (w1 := upd_taskObjs _ (removeTask (task_name w t) w)).
  apply (keeps_queue_msg_trans p w w1); [apply keeps_queue_msg_frame; reflexivity|].
  apply (keeps_queue_msg_update p _ qo); [exact Hq|].
  rewrite (queue_at_allocated w _ qo Hq). reflexivity.
Qed.

Lemma keeps_queue_msg_Task_Delete p t w : wf w -> keeps_queue_msg p w (Task_Delete t w).
Proof.
  intros Hwf. unfold Task_Delete. destruct (Task.done (task_at w t)) eqn:Hd.
  - apply keeps_queue_msg_refl.
  - apply keeps_queue_msg_Task_finish; assumption.
Qed.

Lemma keeps_queue_msg_delete_all p l : forall w, wf w -> keeps_queue_msg p w (delete_all l w).
Proof.
  induction l as [|t l IH]; intros w Hwf; [apply keeps_queue_msg_refl|].
  apply (keeps_queue_msg_trans p _ (Task_Delete t w)).
  - apply keeps_queue_msg_Task_Delete. exact Hwf.
  - apply IH. apply wf_Task_Delete. exact Hwf.
Qed.

Lemma keeps_queue_msg_Task_Attempt p t status now w :
  wf w -> keeps_queue_msg p w (Task_Attempt t status now w).
Proof.
  intros Hwf. unfold Task_Attempt.
  destruct (Task.done (task_at w t)) eqn:Hd; [apply keeps_queue_msg_refl|].
  destruct (Queue.cancelled _); [apply keeps_queue_msg_refl|].
  assert (Hfin : forall m, tasks.Task.Name m
                           = tasks.Task.Name (taskMsgs w !!! Task.state (task_at w t)) ->
            keeps_queue_msg p w
              (Task_finish t (upd_taskMsgs (insert (Task.state (task_at w t)) m) w))).
  { intros m Hm.
    apply (keeps_queue_msg_trans p w (upd_taskMsgs (insert (Task.state (task_at w t)) m) w)).
    - apply keeps_queue_msg_frame; reflexivity.
    - apply keeps_queue_msg_Task_finish; [|exact Hd]. apply wf_rewrite_msg; assumption. }
  destruct (tasks.Queue.State _); try apply keeps_queue_msg_refl.
  destruct (is_2xx status); [apply Hfin; reflexivity|].
  destruct (retry_exhausted _ _ _); [apply Hfin; reflexivity|].
  apply keeps_queue_msg_frame; reflexivity.
Qed.

Lemma keeps_queue_msg_hardDelete_all p (entries : list (string * option loc)) : forall w,
  keeps_queue_msg p w (foldl (fun w kv => hardDeleteTask (fst kv) w) w entries).
Proof.
  induction entries as [|kv entries IH]; intros w; [apply keeps_queue_msg_refl|].
  cbn [foldl]. eapply keeps_queue_msg_trans; [|apply IH].
  apply keeps_queue_msg_frame; reflexivity.
Qed.

Lemma keeps_queue_msg_Queue_Delete p q w :
  wf w -> is_Some (queueObjs w !! q) -> keeps_queue_msg p w (Queue_Delete q w).
Proof.
  intros Hwf [qo Hq]. unfold Queue_Delete.
  set (w1 := upd_queueObjs (insert q (with_cancelled true (queue_at w q))) w).
  assert (Hst : Queue.state (with_cancelled true (queue_at w q)) = Queue.state qo).
  { rewrite (queue_at_allocated w q qo Hq). reflexivity. }
  apply (keeps_queue_msg_trans p w w1).
  - apply (keeps_queue_msg_update p q qo); assumption.
  - apply keeps_queue_msg_delete_all. unfold w1.
    apply (wf_update_queue q qo); [exact Hq|exact Hst| |exact Hwf].
    intros name t Hn. rewrite (queue_at_allocated w q qo Hq) in Hn.
    exact (wf_queue_ts w Hwf q qo name t Hq Hn).
Qed.

Lemma keeps_queue_msg_Queue_HardReset p q w :
  wf w -> is_Some (queueObjs w !! q) -> keeps_queue_msg p w (Queue_HardReset q w).
Proof.
  intros Hwf Hq. unfold Queue_HardReset.
  set (entries := map_to_list (Queue.ts (queue_at w q))).
  set (w1 := delete_all (live_of entries) w).
  set (w2 := foldl _ w1 entries).
  assert (Hq2 : is_Some (queueObjs w2 !! q)).
  { unfold w2. rewrite hardDelete_all_queueObjs. apply keeps_queues_delete_all. exact Hq. }
  destruct Hq2 as [qo Hq2].
  apply (keeps_queue_msg_trans p w w1); [apply keeps_queue_msg_delete_all; exact Hwf|].
  apply (keeps_queue_msg_trans p w1 w2); [apply keeps_queue_msg_hardDelete_all|].
  apply (keeps_queue_msg_update p q qo); [exact Hq2|].
  rewrite (queue_at_allocated w2 q qo Hq2). reflexivity.
Qed.

Lemma keeps_queue_msg_Queue_NewTask p q m now rnd w :
  is_Some (queueObjs w !! q) ->
  keeps_queue_msg p w (snd (Queue_NewTask q m now rnd w)).
Proof.
  intros [qo Hq] [Hlt Hd]. unfold detached_queue_msg.
  rewrite Queue_NewTask_queueObjs, Queue_NewTask_queueMsgs, Queue_NewTask_nextLoc.
  split; [split; [lia|]|reflexivity].
  intros q0 qo0 Hq0. destruct (decide (q = q0)) as [<-|Hne].
  - rewrite lookup_insert_eq in Hq0. injection Hq0 as <-.
    rewrite (queue_at_allocated w q qo Hq). exact (Hd q qo Hq).
  - rewrite lookup_insert_ne in Hq0 by exact Hne. exact (Hd q0 qo0 Hq0).
Qed.

Lemma keeps_queue_msg_new_queue p name m w :
  keeps_queue_msg p w
    (setQueue name (Some (S (nextLoc w)))
       (snd (NewQueue name (nextLoc w) (snd (store_Queue m w))))).
Proof.
  intros [Hlt Hd]. unfold detached_queue_msg, setQueue, upd_qs, NewQueue, store_Queue,
    Clone_Queue, alloc, queue_msg.
  cbn [snd fst srv queueObjs queueMsgs nextLoc upd_queueMsgs upd_queueObjs].
  split; [split; [lia|]|].
  - intros q qo Hq. destruct (decide (S (nextLoc w) = q)) as [<-|Hne].
    + rewrite lookup_insert_eq in Hq. injection Hq as <-. cbn. lia.
    + rewrite lookup_insert_ne in Hq by exact Hne. exact (Hd q qo Hq).
  - rewrite !lookup_total_insert_ne by lia. reflexivity.
Qed.

Lemma keeps_queue_msg_exec p e w w' :
  wf w -> exec e w = Some w' -> keeps_queue_msg p w w'.
Proof.
  intros Hwf He. destruct e; cbn [exec] in He;
    try (apply survive_Some in He; subst w').
  - unfold CreateQueue.
    destruct (negb (Regexp.MatchString Regexp.queue_pattern _));
      [apply keeps_queue_msg_refl|].
    destruct (negb (Regexp.MatchString Regexp.parent_pattern _));
      [apply keeps_queue_msg_refl|].
    destruct (fetchQueue w _) as [[q|] []]; try apply keeps_queue_msg_refl;
      (destruct (CreateQueueRequest.Queue in_) as [m|]; [|apply keeps_queue_msg_refl]);
      apply keeps_queue_msg_new_queue.
  - unfold GetQueue. repeat case_match; apply keeps_queue_msg_refl.
  - apply keeps_queue_msg_refl.
  - apply keeps_queue_msg_refl.
  - unfold DeleteQueue. destruct (fetchQueue w name) as [[q|] []] eqn:Hq;
      try apply keeps_queue_msg_refl. cbn [snd].
    apply (keeps_queue_msg_trans p w (Queue_Delete q w)).
    + apply keeps_queue_msg_Queue_Delete; [exact Hwf|].
      exact (fetchQueue_allocated _ _ _ _ Hwf Hq).
    + apply keeps_queue_msg_frame; reflexivity.
  - unfold PurgeQueue. destruct (fetchQueue w name) as [[q|] ok] eqn:Hq;
      [|apply keeps_queue_msg_refl]. cbn [snd].
    destruct (HardResetOnPurgeQueue _).
    + apply keeps_queue_msg_Queue_HardReset; [exact Hwf|].
      exact (fetchQueue_allocated _ _ _ _ Hwf Hq).
    + apply keeps_queue_msg_frame; reflexivity.
  - unfold PauseQueue. destruct (fetchQueue w name) as [[q|] ok] eqn:Hq;
      [|apply keeps_queue_msg_refl]. cbn [snd].
    destruct (fetchQueue_allocated _ _ _ _ Hwf Hq) as [qo Hqo].
    unfold Queue_Pause. rewrite (queue_at_allocated w q qo Hqo).
    apply (keeps_queue_msg_write p q qo _ w Hqo).
  - unfold ResumeQueue. destruct (fetchQueue w name) as [[q|] ok] eqn:Hq;
      [|apply keeps_queue_msg_refl]. cbn [snd].
    destruct (fetchQueue_allocated _ _ _ _ Hwf Hq) as [qo Hqo].
    unfold Queue_Resume. rewrite (queue_at_allocated w q qo Hqo).
    apply (keeps_queue_msg_write p q qo _ w Hqo).
  - unfold ListTasks. repeat case_match; apply keeps_queue_msg_refl.
  - unfold GetTask. repeat case_match; apply keeps_queue_msg_refl.
  - unfold CreateTask.
    destruct (fetchQueue w _) as [[queue|] []] eqn:Hq; try apply keeps_queue_msg_refl.
    destruct (CreateTaskRequest.Task in_) as [task|]; [|apply keeps_queue_msg_refl].
    destruct (check_task_name w _ _) as [[c msg]|]; [apply keeps_queue_msg_refl|].
    rewrite (surjective_pairing (Queue_NewTask queue task now rnd w)).
    rewrite Queue_NewTask_result. cbn [snd].
    apply (keeps_queue_msg_trans p w (snd (Queue_NewTask queue task now rnd w))).
    + apply keeps_queue_msg_Queue_NewTask. exact (fetchQueue_allocated _ _ _ _ Hwf Hq).
    + apply keeps_queue_msg_frame; reflexivity.
  - unfold DeleteTask. repeat case_match; try apply keeps_queue_msg_refl.
    apply keeps_queue_msg_Task_Delete. exact Hwf.
  - unfold RunTask. destruct (fetchTask w name) as [[t|] []];
      try apply keeps_queue_msg_refl.
    apply keeps_queue_msg_frame; try reflexivity. cbn. lia.
  - injection He as <-. apply keeps_queue_msg_Task_Attempt. exact Hwf.
  - injection He as <-. unfold purge_worker.
    destruct (purging w) as [|q rest]; [apply keeps_queue_msg_refl|].
    apply (keeps_queue_msg_trans p w (upd_purging (fun _ => rest) w)).
    + apply keeps_queue_msg_frame; reflexivity.
    + apply keeps_queue_msg_delete_all. revert Hwf. apply wf_frame; reflexivity.
Qed.

Lemma keeps_queue_msg_run p es : forall w w',
  wf w -> run es w = Some w' -> keeps_queue_msg p w w'.
Proof.
  induction es as [|e es IH]; intros w w' Hwf Hrun; cbn [run] in Hrun.
  - injection Hrun as <-. apply keeps_queue_msg_refl.
  - destruct (exec e w) as [w1|] eqn:He; [|discriminate Hrun].
    apply (keeps_queue_msg_trans p w w1 w' (keeps_queue_msg_exec p e w w1 Hwf He)).
    apply IH; [|exact Hrun]. exact (wf_exec e w w1 Hwf He).
Qed.

Lemma ListTasks_Ok_tasks in_ visit w resp :
  fst (ListTasks in_ visit w) = Ok resp ->
  forall p, p ∈ ListTasksResponse.Tasks resp ->
    exists t, t ∈ live_of visit /\ p = Task.state (task_at w t).
Proof.
  unfold ListTasks. intros H p Hp.
  destruct (fetchQueue w _) as [[queue|] []]; try discriminate H.
  destruct (token_offset _) as [start|]; [|discriminate H].
  unfold Go.slice_from in H.
  destruct ((0 <=? start) && _); [|discriminate H].
  destruct ((ListTasksRequest.PageSize in_ <? 0) || _); [discriminate H|].
  set (sorted := Go.SliceStable _ (live_of visit)) in H.
  assert (Hsorted : forall t, t ∈ sorted -> t ∈ live_of visit).
  { intros t Hin. unfold sorted in Hin. rewrite GoFacts.SliceStable_perm in Hin. exact Hin. }
  assert (Hdrop : forall t, t ∈ drop (Z.to_nat start) sorted -> t ∈ live_of visit).
  { intros t Ht. exact (Hsorted t (subseteq_drop _ _ _ Ht)). }
  assert (Htake : forall n t, t ∈ take n (drop (Z.to_nat start) sorted) -> t ∈ live_of visit).
  { intros n t Ht. exact (Hdrop t (subseteq_take _ _ _ Ht)). }
  destruct (_ <? Z.of_nat _); cbn [fst] in H; injection H as <-;
    cbn [ListTasksResponse.Tasks] in Hp;
    apply list_elem_of_fmap in Hp as (t & -> & Ht); exists t; (split; [|reflexivity]).
  - exact (Htake _ t Ht).
  - exact (Hdrop t Ht).
Qed.

Lemma setTask_heap name v w :
  taskObjs (setTask name v w) = taskObjs w /\ nextLoc (setTask name v w) = nextLoc w.
Proof. split; reflexivity. Qed.

(** The clone [Queue.NewTask] keeps for the caller is the state of no task. *)
Lemma NewTask_clone_detached q m now rnd name v w :
  wf w ->
  detached_task_msg (setTask name v (snd (Queue_NewTask q m now rnd w))) (S (S (nextLoc w))).
Proof.
  intros Hwf. unfold detached_task_msg.
  destruct (setTask_heap name v (snd (Queue_NewTask q m now rnd w))) as [-> ->].
  rewrite Queue_NewTask_taskObjs, Queue_NewTask_nextLoc. split; [lia|].
  intros t obj Ho. destruct (decide (S (nextLoc w) = t)) as [<-|Hne].
  - rewrite lookup_insert_eq in Ho. injection Ho as <-. cbn. lia.
  - rewrite lookup_insert_ne in Ho by exact Hne.
    destruct (wf_task_objs w Hwf t obj Ho) as (_ & Hlt & _). lia.
Qed.

(** C8 (amended): GetQueue, GetTask, ListTasks and ListQueues hand back the
    state objects the emulator itself holds and later mutates, not clones;
    CreateTask and CreateQueue hand back a clone, which is the state of no
    task or queue and reads the same after whatever happens later. *)
Theorem returned_states_alias_or_clone :
  (forall w name task, ts (srv w) !! name = Some (Some task) ->
     GetTask name w = (Ok (Task.state (task_at w task)), w))
  /\ (forall w name queue, qs (srv w) !! name = Some (Some queue) ->
        GetQueue name w = (Ok (Queue.state (queue_at w queue)), w))
  /\ (forall w in_ visit resp, fst (ListTasks in_ visit w) = Ok resp ->
        forall p, p ∈ ListTasksResponse.Tasks resp ->
          exists t, t ∈ live_of visit /\ p = Task.state (task_at w t))
  /\ (forall w visit,
        ListQueues visit w = (Ok ((fun q => Queue.state (queue_at w q)) <$> live_of visit), w))
  /\ (forall w in_ now rnd c w1 es w',
        reachable w -> CreateTask in_ now rnd w = (Ok c, w1) -> run es w1 = Some w' ->
        detached_task_msg w' c /\ task_msg w' c = task_msg w1 c)
  /\ (forall w in_ c w1 es w',
        reachable w -> CreateQueue in_ w = (Ok c, w1) -> run es w1 = Some w' ->
        detached_queue_msg w' c /\ queue_msg w' c = queue_msg w1 c).
Proof.
  split; [|split; [|split; [|split; [|split]]]].
  - intros w name task H. unfold GetTask. rewrite fetchTask_lookup, H. reflexivity.
  - intros w name queue H. unfold GetQueue. rewrite fetchQueue_lookup, H. reflexivity.
  - intros w in_ visit resp. apply ListTasks_Ok_tasks.
  - intros w visit. reflexivity.
  - intros w in_ now rnd c w1 es w' Hreach Hacc Hrun.
    pose proof (reachable_wf w Hreach) as Hwf.
    apply (keeps_task_msg_run c es w1 w' Hrun).
    unfold CreateTask in Hacc.
    destruct (fetchQueue w _) as [[queue|] []]; try discriminate Hacc.
    destruct (CreateTaskRequest.Task in_) as [task|]; [|discriminate Hacc].
    destruct (check_task_name w _ _) as [[c0 msg]|]; [discriminate Hacc|].
    rewrite (surjective_pairing (Queue_NewTask queue task now rnd w)) in Hacc.
    rewrite Queue_NewTask_result in Hacc. injection Hacc as <- <-.
    apply NewTask_clone_detached. exact Hwf.
  - intros w in_ c w1 es w' Hreach Hacc Hrun.
    pose proof (reachable_wf w Hreach) as Hwf.
    assert (Hwf1 : wf w1).
    { pose proof (wf_CreateQueue in_ w Hwf) as H. rewrite Hacc in H. exact H. }
    apply (keeps_queue_msg_run c es w1 w' Hwf1 Hrun).
    unfold CreateQueue in Hacc.
    destruct (negb (Regexp.MatchString Regexp.queue_pattern _)); [discriminate Hacc|].
    destruct (negb (Regexp.MatchString Regexp.parent_pattern _)); [discriminate Hacc|].
    assert (Hnew : forall name m,
              detached_queue_msg
                (setQueue name (Some (S (nextLoc w)))
                   (snd (NewQueue name (nextLoc w) (snd (store_Queue m w)))))
                (S (S (nextLoc w)))).
    { intros name m. unfold detached_queue_msg, setQueue, upd_qs, NewQueue, store_Queue,
        Clone_Queue, alloc.
      cbn [snd fst queueObjs nextLoc upd_queueMsgs upd_queueObjs]. split; [lia|].
      intros q qo Hq. destruct (decide (S (nextLoc w) = q)) as [<-|Hne].
      - rewrite lookup_insert_eq in Hq. injection Hq as <-. cbn. lia.
      - rewrite lookup_insert_ne in Hq by exact Hne.
        destruct (wf_queue_objs w Hwf q qo Hq) as [_ Hlt]. lia. }
    destruct (fetchQueue w _) as [[q|] []]; try discriminate Hacc;
      (destruct (CreateQueueRequest.Queue in_) as [m|]; [|discriminate Hacc]);
      injection Hacc as <- <-; apply Hnew.
Qed.

Lemma w_queue_reachable : reachable w_queue.
Proof. exists false, [ECreateQueue ex_create_queue]. vm_compute. reflexivity. Qed.

Lemma w_task_accepted :
  CreateTask (ex_create_task ex_task) 0 ex_id w_queue = (Ok 5%nat, w_task).
Proof.
  rewrite (surjective_pairing (CreateTask (ex_create_task ex_task) 0 ex_id w_queue)).
  f_equal; try reflexivity; vm_compute; reflexivity.
Qed.

(** On the server of the tests: GetTask hands out the state of task 4, and the
    clone CreateTask returned reads the same after a failed dispatch. *)
Lemma returned_states_alias_or_clone_witness :
  GetTask ex_task w_task = (Ok (Task.state (task_at w_task 4%nat)), w_task)
  /\ detached_task_msg (Task_Attempt 4%nat 404 7 w_task) 5%nat
  /\ task_msg (Task_Attempt 4%nat 404 7 w_task) 5%nat = task_msg w_task 5%nat.
Proof.
  destruct returned_states_alias_or_clone as (Hget & _ & _ & _ & Hclone & _).
  split.
  - apply Hget. vm_compute. reflexivity.
  - apply (Hclone w_queue (ex_create_task ex_task) 0 ex_id 5%nat w_task
             [EAttempt 4%nat 404 7] (Task_Attempt 4%nat 404 7 w_task)
             w_queue_reachable w_task_accepted).
    reflexivity.
Defined.

(** C8 as stated fails for GetTask: the message it returned for the task of
    the tests has dispatch count 0, and 1 after the next failed dispatch. *)
Lemma GetTask_result_not_frozen : ~ GetTask_result_frozen w_task ex_task.
Proof.
  intros H.
  assert (Hget : fst (GetTask ex_task w_task) = Ok 3%nat) by (vm_compute; reflexivity).
  assert (Hrun : run [EAttempt 4%nat 404 7] w_task = Some (Task_Attempt 4%nat 404 7 w_task))
    by reflexivity.
  pose proof (H 3%nat [EAttempt 4%nat 404 7] (Task_Attempt 4%nat 404 7 w_task) Hget Hrun)
    as Heq.
  assert (H1 : tasks.Task.DispatchCount (task_msg (Task_Attempt 4%nat 404 7 w_task) 3%nat) = 1)
    by (vm_compute; reflexivity).
  assert (H0 : tasks.Task.DispatchCount (task_msg w_task 3%nat) = 0)
    by (vm_compute; reflexivity).
  rewrite Heq, H0 in H1. discriminate H1.
Qed.

(** * Further properties of the handlers *)

(** ** Errors leave the state alone *)

(** X1: A call that returns an error has changed nothing: every handler makes its
    checks before its first write. *)
Theorem errors_change_nothing (e : Event) (w : World) (c : code) (msg : string) :
  fst (handle e w) = Err c msg -> snd (handle e w) = w.
Proof.
  destruct e; cbn [handle forget fst snd]; intros H; try discriminate H;
    try reflexivity.
  - unfold CreateQueue in *.
    repeat (case_match; cbn [fst snd] in * ); try reflexivity; congruence.
  - unfold GetQueue in *.
    repeat (case_match; cbn [fst snd] in * ); try reflexivity; congruence.
  - unfold DeleteQueue in *.
    repeat (case_match; cbn [fst snd] in * ); try reflexivity; congruence.
  - unfold PurgeQueue in *.
    repeat (case_match; cbn [fst snd] in * ); try reflexivity; congruence.
  - unfold PauseQueue in *.
    repeat (case_match; cbn [fst snd] in * ); try reflexivity; congruence.
  - unfold ResumeQueue in *.
    repeat (case_match; cbn [fst snd] in * ); try reflexivity; congruence.
  - unfold ListTasks in *.
    repeat (case_match; cbn [fst snd] in * ); try reflexivity; congruence.
  - unfold GetTask in *.
    repeat (case_match; cbn [fst snd] in * ); try reflexivity; congruence.
  - unfold CreateTask in *.
    repeat (case_match; cbn [fst snd] in * ); try reflexivity; congruence.
  - unfold DeleteTask in *.
    repeat (case_match; cbn [fst snd] in * ); try reflexivity; congruence.
  - unfold RunTask in *.
    repeat (case_match; cbn [fst snd] in * ); try reflexivity; congruence.
Qed.

Lemma errors_change_nothing_witness :
  fst (handle (ECreateTask (ex_create_task ex_task) 0 ex_id) w_task)
  = Err AlreadyExists "Requested entity already exists"
  /\ snd (handle (ECreateTask (ex_create_task ex_task) 0 ex_id) w_task) = w_task.
Proof.
  split; [vm_compute; reflexivity|].
  apply (errors_change_nothing (ECreateTask (ex_create_task ex_task) 0 ex_id) w_task
           AlreadyExists "Requested entity already exists").
  vm_compute; reflexivity.
Defined.

(** ** The pages of ListTasks *)

Lemma Itoa_never_empty z : Go.Itoa z <> "".
Proof.
  destruct (Z.ltb_spec z 0) as [Hneg|Hpos].
  - unfold Go.Itoa. rewrite (proj2 (Z.ltb_lt z 0) Hneg). discriminate.
  - apply GoFacts.Itoa_nonempty. exact Hpos.
Qed.

(** X2: A page is as long as the page size in force allows and the list from the
    offset on provides, and the next-page token is empty exactly when the page
    ends the list.  A call that returns a page had an offset inside the list
    and a page size from 0 to 1000. *)
Theorem ListTasks_page_shape (in_ : ListTasksRequest.t)
    (visit : list (string * option loc)) (w : World) (resp : ListTasksResponse.t) :
  fst (ListTasks in_ visit w) = Ok resp ->
  exists start,
    token_offset (ListTasksRequest.PageToken in_) = Some start
    /\ 0 <= start <= Z.of_nat (length (live_of visit))
    /\ 0 <= ListTasksRequest.PageSize in_ <= 1000
    /\ Z.of_nat (length (ListTasksResponse.Tasks resp))
       = Z.min (effective_page_size (ListTasksRequest.PageSize in_))
               (Z.of_nat (length (live_of visit)) - start)
    /\ (ListTasksResponse.NextPageToken resp = ""
        <-> start + Z.of_nat (length (ListTasksResponse.Tasks resp))
            = Z.of_nat (length (live_of visit))).
Proof.
  unfold ListTasks. intros H.
  destruct (fetchQueue w _) as [[queue|] []]; try discriminate H.
  destruct (token_offset _) as [start|]; [|discriminate H].
  exists start. split; [reflexivity|].
  unfold Go.slice_from in H. rewrite sorted_live_length in H.
  destruct (Z.leb_spec 0 start) as [H0|]; [|discriminate H].
  destruct (Z.leb_spec start (Z.of_nat (length (live_of visit)))) as [H1|]; [|discriminate H].
  cbn [andb] in H. split; [lia|].
  destruct (Z.ltb_spec (ListTasksRequest.PageSize in_) 0) as [|Hp0]; [discriminate H|].
  destruct (Z.ltb_spec 1000 (ListTasksRequest.PageSize in_)) as [|Hp1]; [discriminate H|].
  cbn [orb] in H. split; [lia|].
  set (ps := effective_page_size (ListTasksRequest.PageSize in_)) in *.
  assert (Hps : 1 <= ps <= 1000).
  { unfold ps, effective_page_size.
    destruct (Z.eqb_spec (ListTasksRequest.PageSize in_) 0); lia. }
  rewrite length_drop, sorted_live_length in H.
  destruct (Z.ltb_spec ps (Z.of_nat (length (live_of visit) - Z.to_nat start))) as [Hlt|Hge];
    cbn [fst] in H; injection H as <-;
    cbn [ListTasksResponse.Tasks ListTasksResponse.NextPageToken];
    rewrite length_map.
  - rewrite length_take, length_drop, sorted_live_length. split; [lia|].
    split; [intros He; exfalso; exact (Itoa_never_empty _ He)|lia].
  - rewrite length_drop, sorted_live_length. split; [lia|].
    split; [lia|reflexivity].
Qed.

Lemma ListTasks_page_shape_witness :
  fst (ListTasks (ListTasksRequest.mk ex_queue 1 "1")
         (map_to_list (Queue.ts (queue_at w_two 1%nat))) w_two)
  = Ok (ListTasksResponse.mk [3%nat] "")
  /\ exists start,
    token_offset "1" = Some start
    /\ 0 <= start <= Z.of_nat (length (live_of (map_to_list (Queue.ts (queue_at w_two 1%nat)))))
    /\ 0 <= 1 <= 1000
    /\ 1 = Z.min (effective_page_size 1)
             (Z.of_nat (length (live_of (map_to_list (Queue.ts (queue_at w_two 1%nat))))) - start)
    /\ ("" = ""
        <-> start + 1
            = Z.of_nat (length (live_of (map_to_list (Queue.ts (queue_at w_two 1%nat)))))).
Proof.
  assert (H : fst (ListTasks (ListTasksRequest.mk ex_queue 1 "1")
                     (map_to_list (Queue.ts (queue_at w_two 1%nat))) w_two)
              = Ok (ListTasksResponse.mk [3%nat] "")) by (vm_compute; reflexivity).
  split; [exact H|].
  exact (ListTasks_page_shape _ _ _ _ H).
Defined.

(** X3: What the validation of the pagination parameters rejects: on a live queue
    a page token that is no number is InvalidArgument whatever the page size,
    and with an offset inside the list a page size below 0 or above 1000 is
    InvalidArgument; the message quotes the offending value. *)
Theorem ListTasks_invalid_arguments (in_ : ListTasksRequest.t)
    (visit : list (string * option loc)) (w : World) (queue : loc) :
  fetchQueue w (ListTasksRequest.Parent in_) = (Some queue, true) ->
  (token_offset (ListTasksRequest.PageToken in_) = None ->
   ListTasks in_ visit w
   = (Err InvalidArgument ("invalid page token: " ++ ListTasksRequest.PageToken in_), w))
  /\ (forall start,
        token_offset (ListTasksRequest.PageToken in_) = Some start ->
        0 <= start <= Z.of_nat (length (live_of visit)) ->
        ListTasksRequest.PageSize in_ < 0 \/ 1000 < ListTasksRequest.PageSize in_ ->
        ListTasks in_ visit w
        = (Err InvalidArgument
             ("invalid page size: " ++ Go.Itoa (ListTasksRequest.PageSize in_)), w)).
Proof.
  intros Hq. split.
  - intros Ht. exact (ListTasks_bad_token in_ visit w queue Hq Ht).
  - intros start Ht Hs Hp. exact (ListTasks_bad_page_size in_ visit w queue start Hq Ht Hs Hp).
Qed.

Lemma ListTasks_invalid_arguments_witness :
  ListTasks (ListTasksRequest.mk ex_queue 1001 "") [] w_queue
  = (Err InvalidArgument "invalid page size: 1001", w_queue).
Proof.
  assert (Hq : fetchQueue w_queue ex_queue = (Some 1%nat, true)) by (vm_compute; reflexivity).
  destruct (ListTasks_invalid_arguments (ListTasksRequest.mk ex_queue 1001 "") [] w_queue
              1%nat Hq) as [_ H].
  apply (H 0).
  - reflexivity.
  - cbn. lia.
  - right. cbn. lia.
Defined.

(** Sortedness passes to the parts [ListTasks] cuts out and to their images. *)
Lemma StronglySorted_drop {A} (R : A -> A -> Prop) n : forall l,
  StronglySorted R l -> StronglySorted R (drop n l).
Proof.
  induction n as [|n IH]; intros l Hl; [exact Hl|].
  destruct l as [|x l]; [constructor|].
  cbn [drop]. apply IH. inversion Hl; assumption.
Qed.

Lemma StronglySorted_take {A} (R : A -> A -> Prop) n : forall l,
  StronglySorted R l -> StronglySorted R (take n l).
Proof.
  induction n as [|n IH]; intros l Hl; [constructor|].
  destruct l as [|x l]; [constructor|].
  cbn [take]. inversion Hl as [|? ? Hs Hx]; subst. constructor.
  - apply IH. exact Hs.
  - rewrite List.Forall_forall in *. intros y Hy. apply Hx.
    apply list_elem_of_In. apply list_elem_of_In in Hy.
    exact (subseteq_take _ _ _ Hy).
Qed.

Lemma StronglySorted_map {A B} (f : A -> B) (R : B -> B -> Prop) l :
  StronglySorted (fun a b => R (f a) (f b)) l -> StronglySorted R (map f l).
Proof.
  induction 1 as [|x l Hs IH Hx]; cbn [map]; constructor.
  - exact IH.
  - rewrite List.Forall_forall in *. intros y Hy.
    apply in_map_iff in Hy as (a & <- & Ha). apply Hx. exact Ha.
Qed.

(** X4: The tasks of a page come in ascending order of their names, whatever the
    order the range loop met them in. *)
Theorem ListTasks_sorted_by_name (in_ : ListTasksRequest.t)
    (visit : list (string * option loc)) (w : World) (resp : ListTasksResponse.t) :
  fst (ListTasks in_ visit w) = Ok resp ->
  StronglySorted
    (fun p1 p2 => Go.strings_less (tasks.Task.Name (task_msg w p2))
                                  (tasks.Task.Name (task_msg w p1)) = false)
    (ListTasksResponse.Tasks resp).
Proof.
  unfold ListTasks. intros H.
  destruct (fetchQueue w _) as [[queue|] []]; try discriminate H.
  destruct (token_offset _) as [start|]; [|discriminate H].
  unfold Go.slice_from in H.
  destruct ((0 <=? start) && _); [|discriminate H].
  destruct ((ListTasksRequest.PageSize in_ <? 0) || _); [discriminate H|].
  pose proof (GoFacts.SliceStable_sorted (task_name w) (live_of visit)) as Hs.
  apply (StronglySorted_drop _ (Z.to_nat start)) in Hs.
  destruct (_ <? Z.of_nat _); cbn [fst] in H; injection H as <-;
    cbn [ListTasksResponse.Tasks]; apply StronglySorted_map.
  - apply StronglySorted_take. exact Hs.
  - exact Hs.
Qed.

Lemma ListTasks_sorted_by_name_witness :
  StronglySorted
    (fun p1 p2 => Go.strings_less (tasks.Task.Name (task_msg w_two p2))
                                  (tasks.Task.Name (task_msg w_two p1)) = false)
    [6%nat; 3%nat].
Proof.
  apply (ListTasks_sorted_by_name (ListTasksRequest.mk ex_queue 0 "")
           (map_to_list (Queue.ts (queue_at w_two 1%nat))) w_two
           (ListTasksResponse.mk [6%nat; 3%nat] "")).
  vm_compute. reflexivity.
Defined.

(** ** What holds in every state the server can get into *)

Lemma w_task_reachable : reachable w_task.
Proof.
  exists false, [ECreateQueue ex_create_queue; ECreateTask (ex_create_task ex_task) 0 ex_id].
  vm_compute. reflexivity.
Qed.

Lemma w_two_reachable : reachable w_two.
Proof.
  exists false, [ECreateQueue ex_create_queue; ECreateTask (ex_create_task ex_task) 0 ex_id;
                 ECreateTask (ex_create_task "") 1 "0000000000000000042"].
  vm_compute. reflexivity.
Qed.

(** X5: GetTask answers with the task that was asked for: in every reachable state
    a successful GetTask returns the state of a task that is registered under
    the requested name, is not terminal, and carries that name. *)
Theorem GetTask_returns_the_named_task (name : string) (w : World) (p : loc) :
  reachable w ->
  fst (GetTask name w) = Ok p ->
  tasks.Task.Name (task_msg w p) = name
  /\ exists t, ts (srv w) !! name = Some (Some t)
       /\ Task.state (task_at w t) = p
       /\ Task.done (task_at w t) = false.
Proof.
  intros Hr H. apply reachable_wf in Hr.
  unfold GetTask in H. rewrite fetchTask_lookup in H.
  destruct (ts (srv w) !! name) as [[t|]|] eqn:Hts; try discriminate H.
  cbn [fst] in H. injection H as <-.
  destruct (wf_tasks w Hr name t Hts) as (obj & Hobj & Hdone & Hname).
  assert (Hat : task_at w t = obj).
  { unfold task_at. rewrite lookup_total_alt, Hobj. reflexivity. }
  rewrite Hat. split; [exact Hname|].
  exists t. rewrite Hat. auto.
Qed.

Lemma GetTask_returns_the_named_task_witness :
  tasks.Task.Name (task_msg w_task 3%nat) = ex_task
  /\ exists t, ts (srv w_task) !! ex_task = Some (Some t)
       /\ Task.state (task_at w_task t) = 3%nat
       /\ Task.done (task_at w_task t) = false.
Proof.
  apply (GetTask_returns_the_named_task ex_task w_task 3%nat w_task_reachable).
  vm_compute. reflexivity.
Defined.

(** The names of the live entries of a map are among its keys. *)
Lemma live_names_sublist (f : loc -> string) (l : list (string * option loc)) :
  (forall k t, (k, Some t) ∈ l -> f t = k) ->
  (f <$> live_of l) `sublist_of` l.*1.
Proof.
  unfold live_of. induction l as [|[k [t|]] l IH]; intros H; cbn.
  - constructor.
  - rewrite (H k t) by (apply elem_of_cons; left; reflexivity).
    apply sublist_skip, IH. intros k' t' Hin. apply H. apply elem_of_cons. right. exact Hin.
  - apply sublist_cons, IH. intros k' t' Hin. apply H. apply elem_of_cons. right. exact Hin.
Qed.

Lemma wf_task_names_distinct w q qo :
  wf w -> queueObjs w !! q = Some qo ->
  NoDup (task_name w <$> live_of (map_to_list (Queue.ts qo))).
Proof.
  intros Hwf Hq.
  eapply sublist_NoDup; [apply (NoDup_fst_map_to_list (Queue.ts qo))|].
  apply live_names_sublist. intros k t Hin. apply elem_of_map_to_list in Hin.
  destruct (wf_queue_ts w Hwf q qo k t Hq Hin) as (obj & Hobj & Hname).
  assert (Hat : task_at w t = obj).
  { unfold task_at. rewrite lookup_total_alt, Hobj. reflexivity. }
  unfold task_name. rewrite Hat. exact Hname.
Qed.

(** X6: Go ranges over a map in an order of its own choosing, yet in every
    reachable state the answer of ListTasks does not depend on it: the live
    tasks of a queue carry distinct names, so sorting by name leaves one
    order. *)
Theorem ListTasks_order_independent (in_ : ListTasksRequest.t) (w : World) (queue : loc)
    (visit1 visit2 : list (string * option loc)) :
  reachable w ->
  fetchQueue w (ListTasksRequest.Parent in_) = (Some queue, true) ->
  visit1 ≡ₚ map_to_list (Queue.ts (queue_at w queue)) ->
  visit2 ≡ₚ map_to_list (Queue.ts (queue_at w queue)) ->
  ListTasks in_ visit1 w = ListTasks in_ visit2 w.
Proof.
  intros Hr Hq H1 H2. apply reachable_wf in Hr.
  destruct (fetchQueue_allocated w _ queue true Hr Hq) as [qo Hqo].
  rewrite (queue_at_allocated w queue qo Hqo) in H1, H2.
  assert (Hs : Go.SliceStable (Go.by_key (task_name w)) (live_of visit1)
               = Go.SliceStable (Go.by_key (task_name w)) (live_of visit2)).
  { apply GoFacts.SliceStable_order_irrelevant.
    - unfold live_of. apply omap_Permutation. rewrite H1, H2. reflexivity.
    - assert (Hp : live_of visit1 ≡ₚ live_of (map_to_list (Queue.ts qo))).
      { unfold live_of. apply omap_Permutation. exact H1. }
      change (NoDup (task_name w <$> live_of visit1)).
      rewrite Hp. exact (wf_task_names_distinct w queue qo Hr Hqo). }
  unfold ListTasks. rewrite Hq, Hs. reflexivity.
Qed.

Lemma ListTasks_order_independent_witness :
  ListTasks (ListTasksRequest.mk ex_queue 1 "")
    (map_to_list (Queue.ts (queue_at w_two 1%nat))) w_two
  = ListTasks (ListTasksRequest.mk ex_queue 1 "")
      (reverse (map_to_list (Queue.ts (queue_at w_two 1%nat)))) w_two.
Proof.
  apply (ListTasks_order_independent (ListTasksRequest.mk ex_queue 1 "") w_two 1%nat
           _ _ w_two_reachable).
  - vm_compute. reflexivity.
  - reflexivity.
  - apply reverse_Permutation.
Defined.

(** ** Queues: listing, creating, deleting *)

(** X7: ListQueues returns the states of the live queues and of nothing else:
    tombstones are skipped, and the order the range loop takes only permutes
    the answer. *)
Theorem ListQueues_lists_live_queues (visit : list (string * option loc)) (w : World) :
  visit ≡ₚ map_to_list (qs (srv w)) ->
  exists l, ListQueues visit w = (Ok l, w)
    /\ l ≡ₚ (fun q => Queue.state (queue_at w q)) <$> live_of (map_to_list (qs (srv w)))
    /\ forall p, p ∈ l <->
         exists name q, qs (srv w) !! name = Some (Some q) /\ Queue.state (queue_at w q) = p.
Proof.
  intros Hv. eexists. split; [reflexivity|]. split.
  - apply fmap_Permutation. unfold live_of. apply omap_Permutation. exact Hv.
  - intros p. change (map ?f ?l) with (f <$> l). rewrite list_elem_of_fmap. split.
    + intros (q & -> & Hq). unfold live_of in Hq.
      apply list_elem_of_omap in Hq as ([name v] & Hin & Hsome). cbn in Hsome. subst v.
      rewrite Hv in Hin. apply elem_of_map_to_list in Hin. eauto.
    + intros (name & q & Hq & <-). exists q. split; [reflexivity|].
      unfold live_of. apply list_elem_of_omap. exists (name, Some q).
      split; [|reflexivity]. rewrite Hv. apply elem_of_map_to_list. exact Hq.
Qed.

Lemma ListQueues_lists_live_queues_witness :
  exists l, ListQueues (map_to_list (qs (srv w_queue))) w_queue = (Ok l, w_queue)
    /\ l ≡ₚ (fun q => Queue.state (queue_at w_queue q))
             <$> live_of (map_to_list (qs (srv w_queue)))
    /\ forall p, p ∈ l <->
         exists name q, qs (srv w_queue) !! name = Some (Some q)
                        /\ Queue.state (queue_at w_queue q) = p.
Proof.
  apply (ListQueues_lists_live_queues (map_to_list (qs (srv w_queue))) w_queue).
  reflexivity.
Defined.

(** The engine never writes the Server's queue map. *)
Lemma qs_Task_finish t w : qs (srv (Task_finish t w)) = qs (srv w).
Proof. rewrite Task_finish_ts. reflexivity. Qed.

Lemma qs_Task_Delete t w : qs (srv (Task_Delete t w)) = qs (srv w).
Proof. unfold Task_Delete. destruct (Task.done _); [reflexivity|apply qs_Task_finish]. Qed.

Lemma qs_delete_all l : forall w, qs (srv (delete_all l w)) = qs (srv w).
Proof.
  unfold delete_all. induction l as [|t l IH]; intros w; cbn [foldl]; [reflexivity|].
  rewrite IH. apply qs_Task_Delete.
Qed.

Lemma qs_Queue_Delete q w : qs (srv (Queue_Delete q w)) = qs (srv w).
Proof. unfold Queue_Delete. rewrite qs_delete_all. reflexivity. Qed.

(** What a tombstoned queue name is answered with. *)
Lemma queue_tombstone_answers name w :
  qs (srv w) !! name = Some None ->
  GetQueue name w = (Err NotFound msg_queue_missing, w)
  /\ DeleteQueue name w = (Err NotFound "Requested entity was not found.", w)
  /\ (forall in_ visit, ListTasksRequest.Parent in_ = name ->
        ListTasks in_ visit w = (Err NotFound msg_queue_missing, w))
  /\ (forall in_ now rnd, CreateTaskRequest.Parent in_ = name ->
        CreateTask in_ now rnd w
        = (Err FailedPrecondition
             "The queue no longer exists, though a queue with this name existed recently.", w))
  /\ (forall in_, Queue_GetName (CreateQueueRequest.Queue in_) = name ->
        exists c msg, CreateQueue in_ w = (Err c msg, w)
          /\ (c = InvalidArgument \/ c = FailedPrecondition)).
Proof.
  intros Hq.
  assert (Hf : fetchQueue w name = (None, true)) by (rewrite fetchQueue_lookup, Hq; reflexivity).
  split; [unfold GetQueue; rewrite Hf; reflexivity|].
  split; [unfold DeleteQueue; rewrite Hf; reflexivity|].
  split; [intros in_ visit <-; unfold ListTasks; rewrite Hf; reflexivity|].
  split; [intros in_ now rnd <-; unfold CreateTask; rewrite Hf; reflexivity|].
  intros in_ Hn. unfold CreateQueue. rewrite Hn, Hf.
  destruct (negb (Regexp.MatchString Regexp.queue_pattern name)); [eauto|].
  destruct (negb (Regexp.MatchString Regexp.parent_pattern _)); eauto.
Qed.

(** X8: DeleteQueue leaves a tombstone, not a hole: straight after it GetQueue,
    ListTasks and a second DeleteQueue answer NotFound, as for a name that
    never existed, while CreateTask into the queue and CreateQueue of the
    name are refused, the former with FailedPrecondition, the latter with
    FailedPrecondition unless the request is malformed. *)
Theorem DeleteQueue_leaves_tombstone (name : string) (queue : loc) (w : World) :
  fetchQueue w name = (Some queue, true) ->
  exists w1, DeleteQueue name w = (Ok tt, w1)
    /\ GetQueue name w1 = (Err NotFound msg_queue_missing, w1)
    /\ DeleteQueue name w1 = (Err NotFound "Requested entity was not found.", w1)
    /\ (forall in_ visit, ListTasksRequest.Parent in_ = name ->
          ListTasks in_ visit w1 = (Err NotFound msg_queue_missing, w1))
    /\ (forall in_ now rnd, CreateTaskRequest.Parent in_ = name ->
          CreateTask in_ now rnd w1
          = (Err FailedPrecondition
               "The queue no longer exists, though a queue with this name existed recently.",
             w1))
    /\ (forall in_, Queue_GetName (CreateQueueRequest.Queue in_) = name ->
          exists c msg, CreateQueue in_ w1 = (Err c msg, w1)
            /\ (c = InvalidArgument \/ c = FailedPrecondition)).
Proof.
  intros Hf. exists (removeQueue name (Queue_Delete queue w)).
  split; [unfold DeleteQueue; rewrite Hf; reflexivity|].
  apply queue_tombstone_answers.
  unfold removeQueue, setQueue, upd_qs. cbn [srv qs]. apply lookup_insert_eq.
Qed.

Lemma DeleteQueue_leaves_tombstone_witness :
  exists w1, DeleteQueue ex_queue w_task = (Ok tt, w1)
    /\ GetQueue ex_queue w1 = (Err NotFound msg_queue_missing, w1)
    /\ DeleteQueue ex_queue w1 = (Err NotFound "Requested entity was not found.", w1)
    /\ (forall in_ visit, ListTasksRequest.Parent in_ = ex_queue ->
          ListTasks in_ visit w1 = (Err NotFound msg_queue_missing, w1))
    /\ (forall in_ now rnd, CreateTaskRequest.Parent in_ = ex_queue ->
          CreateTask in_ now rnd w1
          = (Err FailedPrecondition
               "The queue no longer exists, though a queue with this name existed recently.",
             w1))
    /\ (forall in_, Queue_GetName (CreateQueueRequest.Queue in_) = ex_queue ->
          exists c msg, CreateQueue in_ w1 = (Err c msg, w1)
            /\ (c = InvalidArgument \/ c = FailedPrecondition)).
Proof.
  apply (DeleteQueue_leaves_tombstone ex_queue 1%nat w_task).
  vm_compute. reflexivity.
Defined.

Lemma qs_Task_Attempt t status now w : qs (srv (Task_Attempt t status now w)) = qs (srv w).
Proof.
  unfold Task_Attempt.
  repeat case_match; try reflexivity; rewrite qs_Task_finish; reflexivity.
Qed.

Lemma qs_purge_worker w : qs (srv (purge_worker w)) = qs (srv w).
Proof.
  unfold purge_worker. destruct (purging w); [reflexivity|].
  rewrite qs_delete_all. reflexivity.
Qed.

Lemma qs_hardDelete_all (entries : list (string * option loc)) : forall w,
  qs (srv (foldl (fun w kv => hardDeleteTask (fst kv) w) w entries)) = qs (srv w).
Proof.
  induction entries as [|kv entries IH]; intros w; cbn [foldl]; [reflexivity|].
  rewrite IH. reflexivity.
Qed.

Lemma qs_Queue_HardReset q w : qs (srv (Queue_HardReset q w)) = qs (srv w).
Proof.
  unfold Queue_HardReset, upd_queueObjs. cbn [srv].
  rewrite qs_hardDelete_all, qs_delete_all. reflexivity.
Qed.

(** What an accepted CreateQueue builds. *)
Lemma CreateQueue_new in_ m w :
  Regexp.MatchString Regexp.queue_pattern (tasks.Queue.Name m) = true ->
  Regexp.MatchString Regexp.parent_pattern (CreateQueueRequest.Parent in_) = true ->
  CreateQueueRequest.Queue in_ = Some m ->
  qs (srv w) !! tasks.Queue.Name m = None ->
  CreateQueue in_ w
  = (Ok (S (S (nextLoc w))),
     setQueue (tasks.Queue.Name m) (Some (S (nextLoc w)))
       (snd (NewQueue (tasks.Queue.Name m) (nextLoc w) (snd (store_Queue m w))))).
Proof.
  intros Hp1 Hp2 Hm Hn. unfold CreateQueue. rewrite Hm. cbn [Queue_GetName].
  rewrite Hp1, Hp2, fetchQueue_lookup, Hn. reflexivity.
Qed.

Lemma new_queue_srv name q c m w :
  srv (setQueue name q (snd (NewQueue name c (snd (store_Queue m w)))))
  = mkServer (<[name := q]> (qs (srv w))) (ts (srv w)) (Options (srv w)).
Proof. reflexivity. Qed.

(** Why a CreateQueue failed, or that it did not. *)
Lemma CreateQueue_cases in_ w :
  (exists c msg, CreateQueue in_ w = (Err c msg, w))
  \/ (exists m,
        CreateQueueRequest.Queue in_ = Some m
        /\ qs (srv w) !! tasks.Queue.Name m = None
        /\ Regexp.MatchString Regexp.queue_pattern (tasks.Queue.Name m) = true
        /\ Regexp.MatchString Regexp.parent_pattern (CreateQueueRequest.Parent in_) = true).
Proof.
  unfold CreateQueue.
  destruct (Regexp.MatchString Regexp.queue_pattern _) eqn:Hp1; cbn [negb]; [|eauto].
  destruct (Regexp.MatchString Regexp.parent_pattern _) eqn:Hp2; cbn [negb]; [|eauto].
  rewrite fetchQueue_lookup.
  destruct (qs (srv w) !! Queue_GetName (CreateQueueRequest.Queue in_)) as [[q|]|] eqn:Hn;
    [eauto|eauto|].
  destruct (CreateQueueRequest.Queue in_) as [m|].
  - right. exists m. auto.
  - discriminate Hp1.
Qed.

(** One event leaves a queue tombstone where it is. *)
Lemma queue_tombstone_exec name e w w' :
  qs (srv w) !! name = Some None -> exec e w = Some w' -> qs (srv w') !! name = Some None.
Proof.
  intros Hq He. destruct e; cbn [exec] in He;
    try (apply survive_Some in He; subst w').
  - destruct (CreateQueue_cases in_ w) as [(c & msg & ->)|(m & Hm & Hn & Hp1 & Hp2)];
      [exact Hq|].
    rewrite (CreateQueue_new in_ m w Hp1 Hp2 Hm Hn). cbn [snd].
    rewrite new_queue_srv. cbn [qs]. rewrite lookup_insert_ne by congruence. exact Hq.
  - unfold GetQueue. repeat case_match; exact Hq.
  - exact Hq.
  - exact Hq.
  - unfold DeleteQueue. destruct (fetchQueue w name0) as [[q|] []]; try exact Hq.
    cbn [snd]. unfold removeQueue, setQueue, upd_qs. cbn [srv qs].
    destruct (decide (name0 = name)) as [->|Hne].
    + apply lookup_insert_eq.
    + rewrite lookup_insert_ne by exact Hne. rewrite qs_Queue_Delete. exact Hq.
  - unfold PurgeQueue. destruct (fetchQueue w name0) as [[q|] ok]; [|exact Hq].
    cbn [snd]. destruct (HardResetOnPurgeQueue _).
    + rewrite qs_Queue_HardReset. exact Hq.
    + exact Hq.
  - unfold PauseQueue. destruct (fetchQueue w name0) as [[q|] ok]; exact Hq.
  - unfold ResumeQueue. destruct (fetchQueue w name0) as [[q|] ok]; exact Hq.
  - unfold ListTasks. repeat case_match; exact Hq.
  - unfold GetTask. repeat case_match; exact Hq.
  - unfold CreateTask. repeat case_match; try exact Hq. cbn [snd].
    match goal with
    | H : Queue_NewTask ?q ?m ?now ?rnd w = (_, ?w1) |- _ =>
        pose proof (Queue_NewTask_srv q m now rnd w) as Hs; rewrite H in Hs; cbn [snd] in Hs
    end.
    unfold setTask, upd_ts. cbn [srv qs]. rewrite Hs. exact Hq.
  - unfold DeleteTask. repeat case_match; try exact Hq. cbn [snd].
    rewrite qs_Task_Delete. exact Hq.
  - unfold RunTask. repeat case_match; try exact Hq. cbn [snd].
    match goal with
    | H : Task_Run _ _ = _ |- _ => apply (f_equal snd) in H; cbn [snd] in H; subst
    end.
    exact Hq.
  - injection He as <-. rewrite qs_Task_Attempt. exact Hq.
  - injection He as <-. rewrite qs_purge_worker. exact Hq.
Qed.

(** X9: A deleted queue stays deleted for the life of the process: nothing
    releases a queue tombstone, not even a purge with hard reset, so after any
    run of events GetQueue still answers NotFound and CreateQueue of that name
    still fails. *)
Theorem deleted_queue_stays_deleted (name : string) (es : list Event) (w w' : World) :
  qs (srv w) !! name = Some None ->
  run es w = Some w' ->
  qs (srv w') !! name = Some None
  /\ GetQueue name w' = (Err NotFound msg_queue_missing, w')
  /\ forall in_, Queue_GetName (CreateQueueRequest.Queue in_) = name ->
       exists c msg, CreateQueue in_ w' = (Err c msg, w')
         /\ (c = InvalidArgument \/ c = FailedPrecondition).
Proof.
  intros Hq Hrun.
  assert (Hq' : qs (srv w') !! name = Some None).
  { revert w Hq Hrun. induction es as [|e es IH]; intros w Hq Hrun; cbn [run] in Hrun.
    - injection Hrun as <-. exact Hq.
    - destruct (exec e w) as [w1|] eqn:He; [|discriminate Hrun].
      exact (IH w1 (queue_tombstone_exec name e w w1 Hq He) Hrun). }
  split; [exact Hq'|].
  destruct (queue_tombstone_answers name w' Hq') as (Hget & _ & _ & _ & Hcreate).
  split; [exact Hget|exact Hcreate].
Qed.

Lemma deleted_queue_stays_deleted_witness :
  qs (srv (snd (DeleteQueue ex_queue w_task))) !! ex_queue = Some None
  /\ GetQueue ex_queue (snd (DeleteQueue ex_queue w_task))
     = (Err NotFound msg_queue_missing, snd (DeleteQueue ex_queue w_task))
  /\ forall in_, Queue_GetName (CreateQueueRequest.Queue in_) = ex_queue ->
       exists c msg, CreateQueue in_ (snd (DeleteQueue ex_queue w_task))
                     = (Err c msg, snd (DeleteQueue ex_queue w_task))
         /\ (c = InvalidArgument \/ c = FailedPrecondition).
Proof.
  apply (deleted_queue_stays_deleted ex_queue [EGetQueue ex_queue]
           (snd (DeleteQueue ex_queue w_task))).
  - vm_compute. reflexivity.
  - vm_compute. reflexivity.
Defined.

(** X10: CreateQueue and GetQueue round-trip: after a successful CreateQueue the
    queue is live under the requested name, GetQueue returns its state, which
    reads like the clone CreateQueue handed back but is another object, the
    state carries the requested name and is RUNNING, and the same request is
    now refused with AlreadyExists. *)
Theorem CreateQueue_then_GetQueue (in_ : CreateQueueRequest.t) (w w1 : World) (p : loc) :
  CreateQueue in_ w = (Ok p, w1) ->
  qs (srv w) !! Queue_GetName (CreateQueueRequest.Queue in_) = None
  /\ exists p',
       GetQueue (Queue_GetName (CreateQueueRequest.Queue in_)) w1 = (Ok p', w1)
       /\ p' <> p
       /\ queue_msg w1 p' = queue_msg w1 p
       /\ tasks.Queue.Name (queue_msg w1 p) = Queue_GetName (CreateQueueRequest.Queue in_)
       /\ tasks.Queue.State (queue_msg w1 p) = tasks.RUNNING
       /\ CreateQueue in_ w1 = (Err AlreadyExists "Queue already exists", w1).
Proof.
  intros H.
  destruct (CreateQueue_cases in_ w) as [(c & msg & He)|(m & Hm & Hn & Hp1 & Hp2)];
    [rewrite He in H; discriminate H|].
  rewrite (CreateQueue_new in_ m w Hp1 Hp2 Hm Hn) in H.
  pose proof (f_equal snd H) as Hw. cbn [snd] in Hw.
  pose proof (f_equal fst H) as Hp. cbn [fst] in Hp. injection Hp as Hp.
  clear H. subst p w1.
  rewrite Hm. cbn [Queue_GetName]. split; [exact Hn|].
  set (name := tasks.Queue.Name m) in *.
  set (w1 := setQueue name (Some (S (nextLoc w)))
               (snd (NewQueue name (nextLoc w) (snd (store_Queue m w))))).
  set (m1 := tasks.Queue.mk name tasks.RUNNING
               (Some (default default_RetryConfig (tasks.Queue.RetryConfig m)))).
  assert (Hqo : queueObjs w1
                = <[S (nextLoc w) := Queue.mk name (nextLoc w) ∅ false]> (queueObjs w))
    by reflexivity.
  assert (Hmsgs : queueMsgs w1
                  = <[S (S (nextLoc w)) := m1]>
                      (<[nextLoc w := m1]> (<[nextLoc w := m]> (queueMsgs w)))).
  { set (msgs1 := <[nextLoc w := m]> (queueMsgs w)).
    set (m0 := msgs1 !!! nextLoc w).
    set (m2 := tasks.Queue.mk (tasks.Queue.Name m0) tasks.RUNNING
                 (Some (default default_RetryConfig (tasks.Queue.RetryConfig m0)))).
    assert (H0 : queueMsgs w1
                 = <[S (S (nextLoc w)) := <[nextLoc w := m2]> msgs1 !!! nextLoc w]>
                     (<[nextLoc w := m2]> msgs1)) by reflexivity.
    rewrite H0. rewrite lookup_total_insert_eq.
    assert (Hm0 : m0 = m) by apply lookup_total_insert_eq.
    unfold m2. rewrite Hm0. reflexivity. }
  assert (Hlive : fetchQueue w1 name = (Some (S (nextLoc w)), true)).
  { rewrite fetchQueue_lookup. unfold w1. rewrite new_queue_srv. cbn [qs].
    rewrite lookup_insert_eq. reflexivity. }
  exists (nextLoc w).
  split.
  { unfold GetQueue. rewrite Hlive. unfold queue_at. rewrite Hqo, lookup_total_insert_eq.
    reflexivity. }
  split; [lia|].
  unfold queue_msg. rewrite Hmsgs.
  rewrite lookup_total_insert_eq, lookup_total_insert_ne by lia.
  rewrite lookup_total_insert_eq.
  split; [reflexivity|]. split; [reflexivity|]. split; [reflexivity|].
  unfold CreateQueue. rewrite Hm. cbn [Queue_GetName]. fold name.
  rewrite Hp1, Hp2, Hlive. reflexivity.
Qed.

Lemma CreateQueue_then_GetQueue_witness :
  qs (srv NewServer) !! ex_queue = None
  /\ exists p',
       GetQueue ex_queue w_queue = (Ok p', w_queue)
       /\ p' <> 2%nat
       /\ queue_msg w_queue p' = queue_msg w_queue 2%nat
       /\ tasks.Queue.Name (queue_msg w_queue 2%nat) = ex_queue
       /\ tasks.Queue.State (queue_msg w_queue 2%nat) = tasks.RUNNING
       /\ CreateQueue ex_create_queue w_queue
          = (Err AlreadyExists "Queue already exists", w_queue).
Proof.
  apply (CreateQueue_then_GetQueue ex_create_queue NewServer w_queue 2%nat).
  rewrite (surjective_pairing (CreateQueue ex_create_queue NewServer)).
  f_equal; try reflexivity; vm_compute; reflexivity.
Defined.

(** ** Tasks: creating, reading back, deleting *)

(** X11: A CreateTask request without a task: the queue is looked up first, so a
    missing queue is NotFound and a deleted one FailedPrecondition; with a
    live queue the handler reads [in.Task.Name] through the nil pointer and
    panics. *)
Theorem CreateTask_without_task (in_ : CreateTaskRequest.t) (now : Z) (rnd : string)
    (w : World) :
  CreateTaskRequest.Task in_ = None ->
  CreateTask in_ now rnd w
  = match qs (srv w) !! CreateTaskRequest.Parent in_ with
    | None => (Err NotFound "Queue does not exist.", w)
    | Some None =>
        (Err FailedPrecondition
           "The queue no longer exists, though a queue with this name existed recently.", w)
    | Some (Some _) => (Panic, w)
    end.
Proof.
  intros Ht. unfold CreateTask. rewrite fetchQueue_lookup, Ht.
  destruct (qs (srv w) !! CreateTaskRequest.Parent in_) as [[q|]|]; reflexivity.
Qed.

Lemma CreateTask_without_task_witness :
  CreateTask (CreateTaskRequest.mk ex_queue None) 0 ex_id w_queue = (Panic, w_queue).
Proof.
  assert (Hq : qs (srv w_queue) !! ex_queue = Some (Some (1%nat : loc)))
    by (vm_compute; reflexivity).
  pose proof (CreateTask_without_task (CreateTaskRequest.mk ex_queue None) 0 ex_id w_queue
                eq_refl) as H.
  cbn [CreateTaskRequest.Parent] in H. rewrite Hq in H. exact H.
Defined.

(** X12: DeleteTask works once: after it has deleted a live task, a second
    DeleteTask and a RunTask of the name answer NotFound, with the message for
    a task that existed recently, and change nothing. *)
Theorem DeleteTask_twice (name : string) (task : loc) (w : World) :
  live_task w name task ->
  exists w1, DeleteTask name w = (Ok tt, w1)
    /\ DeleteTask name w1 = (Err NotFound msg_task_gone, w1)
    /\ RunTask name w1 = (Err NotFound msg_task_gone, w1).
Proof.
  intros (Hts & Hname & Hdone). exists (Task_Delete task w).
  assert (Hf : fetchTask (Task_Delete task w) name = (None, true)).
  { rewrite fetchTask_lookup, (Task_Delete_ts _ _ Hdone), Hname. cbn [ts].
    rewrite lookup_insert_eq. reflexivity. }
  split; [unfold DeleteTask; rewrite fetchTask_lookup, Hts; reflexivity|].
  split; [unfold DeleteTask|unfold RunTask]; rewrite Hf; reflexivity.
Qed.

Lemma DeleteTask_twice_witness :
  exists w1, DeleteTask ex_task w_task = (Ok tt, w1)
    /\ DeleteTask ex_task w1 = (Err NotFound msg_task_gone, w1)
    /\ RunTask ex_task w1 = (Err NotFound msg_task_gone, w1).
Proof. exact (DeleteTask_twice ex_task 4%nat w_task w_task_live). Defined.



(** ** Initial queues (cmd/emulator.go) *)

Lemma string_app_nil_r (s : string) : (s ++ "")%string = s.
Proof.
  induction s as [|c s IH]; [reflexivity|].
  rewrite RegexpFacts.append_cons, IH. reflexivity.
Qed.

Lemma count_char_app c s1 s2 :
  count_char c (s1 ++ s2) = (count_char c s1 + count_char c s2)%nat.
Proof.
  induction s1 as [|a s1 IH]; [reflexivity|].
  rewrite RegexpFacts.append_cons. cbn [count_char]. rewrite IH. lia.
Qed.

Lemma Matches_Str_refl s : Regexp.Matches (Regexp.Str s) s.
Proof.
  induction s as [|c s IH]; cbn [Regexp.Str]; [constructor|].
  exact (Regexp.M_Cat _ _ (String c "") s (Regexp.M_Lit c) IH).
Qed.

Lemma Matches_Str_inv lit : forall s, Regexp.Matches (Regexp.Str lit) s -> s = lit.
Proof.
  induction lit as [|c lit IH]; intros s H; cbn [Regexp.Str] in H.
  - inversion H. reflexivity.
  - apply RegexpFacts.Matches_Cat_inv in H as (s1 & s2 & -> & H1 & H2).
    inversion H1; subst. rewrite RegexpFacts.append_cons, RegexpFacts.append_nil_l.
    f_equal. apply IH. exact H2.
Qed.

(** A queue id holds no slash. *)
Lemma id_char_no_slash s : Regexp.Matches Regexp.id_char s -> count_char "/" s = 0%nat.
Proof.
  unfold Regexp.id_char. intros H.
  repeat match goal with
         | H : Regexp.Matches (Regexp.Alt _ _) _ |- _ => inversion H; subst; clear H
         | H : Regexp.Matches (Regexp.Range _ _) _ |- _ => inversion H; subst; clear H
         | H : Regexp.Matches (Regexp.Lit _) _ |- _ => inversion H; subst; clear H
         end;
    cbn [count_char]; try reflexivity;
    match goal with
    | Hr : Regexp.in_range _ _ ?c = true |- _ =>
        destruct (Ascii.eqb_spec c "/") as [->|_]; [discriminate Hr|reflexivity]
    end.
Qed.

Lemma id_star_no_slash s :
  Regexp.Matches (Regexp.Star Regexp.id_char) s -> count_char "/" s = 0%nat.
Proof.
  intros H. remember (Regexp.Star Regexp.id_char) as r eqn:Hr.
  induction H as [| | | | | | | |r0 s1 s2 H1 _ H2 IH2]; try discriminate Hr.
  - reflexivity.
  - injection Hr as ->. rewrite count_char_app, (IH2 eq_refl), (id_char_no_slash _ H1).
    reflexivity.
Qed.

Lemma id_plus_no_slash s :
  Regexp.Matches (Regexp.Plus Regexp.id_char) s -> count_char "/" s = 0%nat.
Proof.
  intros H. apply RegexpFacts.Matches_Cat_inv in H as (s1 & s2 & -> & H1 & H2).
  rewrite count_char_app, (id_char_no_slash _ H1), (id_star_no_slash _ H2). reflexivity.
Qed.

(** The end [/queues/<id>] of a name cannot start earlier than at its slash. *)
Lemma queues_suffix_not_earlier c x id :
  Regexp.Matches (Regexp.Plus Regexp.id_char) id ->
  Regexp.full_match queues_suffix (String c x ++ "/queues/" ++ id) = false.
Proof.
  intros Hid.
  destruct (Regexp.full_match queues_suffix _) eqn:E; [|reflexivity]. exfalso.
  apply RegexpFacts.full_match_iff in E. unfold queues_suffix in E.
  apply RegexpFacts.Matches_Cat_inv in E as (s1 & s2 & Heq & H1 & H2).
  apply Matches_Str_inv in H1. subst s1.
  apply id_plus_no_slash in H2. apply id_plus_no_slash in Hid.
  assert (Hc : c = "/"%char).
  { rewrite (RegexpFacts.append_cons c x) in Heq.
    change ("/queues/" ++ s2)%string with (String "/" ("queues/" ++ s2)) in Heq.
    injection Heq as Hc _. exact Hc. }
  subst c. apply (f_equal (count_char "/")) in Heq.
  rewrite !count_char_app, Hid, H2 in Heq.
  change (count_char "/" "/queues/") with 2%nat in Heq.
  cbn [count_char] in Heq. change (Ascii.eqb "/" "/") with true in Heq.
  cbv iota in Heq. lia.
Qed.

Lemma ReplaceAllString_at_end_eq r s :
  ReplaceAllString_at_end r s
  = if Regexp.full_match r s then ""
    else match s with
         | EmptyString => ""
         | String c s' => String c (ReplaceAllString_at_end r s')
         end.
Proof. destruct s; reflexivity. Qed.

(** For a name that ends in [/queues/<id>] the replacement leaves exactly what
    stands in front of that end, whatever it is. *)
Lemma ReplaceAllString_strips_queue_id pre id :
  Regexp.Matches (Regexp.Plus Regexp.id_char) id ->
  ReplaceAllString_at_end queues_suffix (pre ++ "/queues/" ++ id) = pre.
Proof.
  intros Hid. induction pre as [|c pre IH].
  - rewrite RegexpFacts.append_nil_l, ReplaceAllString_at_end_eq.
    assert (Hm : Regexp.full_match queues_suffix ("/queues/" ++ id) = true).
    { apply RegexpFacts.full_match_iff. unfold queues_suffix.
      constructor; [apply Matches_Str_refl|exact Hid]. }
    rewrite Hm. reflexivity.
  - rewrite ReplaceAllString_at_end_eq, (queues_suffix_not_earlier c pre id Hid).
    rewrite RegexpFacts.append_cons, IH. reflexivity.
Qed.

(** The parts of a well-formed queue name. *)
Lemma queue_name_parts name :
  Regexp.full_match Regexp.queue_pattern name = true ->
  exists parent id,
    name = (parent ++ "/queues/" ++ id)%string
    /\ Regexp.full_match Regexp.parent_pattern parent = true
    /\ Regexp.Matches (Regexp.Plus Regexp.id_char) id.
Proof.
  intros H. apply RegexpFacts.full_match_iff in H. unfold Regexp.queue_pattern in H.
  apply RegexpFacts.Matches_Cat_inv in H as (parent & rest & -> & Hp & Hrest).
  apply RegexpFacts.Matches_Cat_inv in Hrest as (s1 & id & -> & H1 & Hid).
  apply Matches_Str_inv in H1. subst s1.
  exists parent, id. split; [reflexivity|]. split; [|exact Hid].
  apply RegexpFacts.full_match_iff. exact Hp.
Qed.

Lemma MatchString_whole r s : Regexp.full_match r s = true -> Regexp.MatchString r s = true.
Proof.
  intros H. pose proof (RegexpFacts.MatchString_contains r "" s "" H) as Hc.
  rewrite RegexpFacts.append_nil_l, string_app_nil_r in Hc. exact Hc.
Qed.

(** What [createInitialQueue] does with a well-formed name that is free. *)
Lemma createInitialQueue_free name w :
  Regexp.full_match Regexp.queue_pattern name = true ->
  qs (srv w) !! name = None ->
  exists in_ w1,
    CreateQueue in_ w = (Ok (S (S (nextLoc w))), w1)
    /\ createInitialQueue name w = (Ok tt, w1)
    /\ srv w1 = mkServer (<[name := Some (S (nextLoc w))]> (qs (srv w))) (ts (srv w))
                  (Options (srv w)).
Proof.
  intros Hname Hfree.
  destruct (queue_name_parts name Hname) as (parent & id & Heq & Hparent & Hid).
  set (m := tasks.Queue.mk name tasks.STATE_UNSPECIFIED None).
  set (in_ := CreateQueueRequest.mk (ReplaceAllString_at_end queues_suffix name) (Some m)).
  assert (Hc : CreateQueue in_ w
               = (Ok (S (S (nextLoc w))),
                  setQueue name (Some (S (nextLoc w)))
                    (snd (NewQueue name (nextLoc w) (snd (store_Queue m w)))))).
  { apply (CreateQueue_new in_ m w).
    - apply MatchString_whole. exact Hname.
    - unfold in_. cbn [CreateQueueRequest.Parent].
      rewrite Heq, (ReplaceAllString_strips_queue_id parent id Hid).
      apply MatchString_whole. exact Hparent.
    - reflexivity.
    - exact Hfree. }
  exists in_, (setQueue name (Some (S (nextLoc w)))
                 (snd (NewQueue name (nextLoc w) (snd (store_Queue m w))))).
  split; [exact Hc|]. split.
  - unfold createInitialQueue. fold m. fold in_. rewrite Hc. reflexivity.
  - apply new_queue_srv.
Qed.

(** X14: A [-queue] flag with a well-formed name gives a live queue of that name:
    the parent [createInitialQueue] cuts out of the name passes the check of
    CreateQueue, so on a server where the name is free the queue is created
    and GetQueue finds it.  Where the name is taken, live or as a tombstone,
    the error of CreateQueue becomes a panic. *)
Theorem createInitialQueue_creates (name : string) (w : World) :
  Regexp.full_match Regexp.queue_pattern name = true ->
  match qs (srv w) !! name with
  | None =>
      exists w1 p, createInitialQueue name w = (Ok tt, w1)
        /\ GetQueue name w1 = (Ok p, w1)
  | Some _ => createInitialQueue name w = (Panic, w)
  end.
Proof.
  intros Hname. destruct (qs (srv w) !! name) as [v|] eqn:Hq.
  - unfold createInitialQueue, CreateQueue.
    cbn [CreateQueueRequest.Queue Queue_GetName tasks.Queue.Name CreateQueueRequest.Parent].
    rewrite (MatchString_whole _ _ Hname). cbn [negb].
    destruct (negb (Regexp.MatchString Regexp.parent_pattern _)); [reflexivity|].
    rewrite fetchQueue_lookup, Hq. destruct v; reflexivity.
  - destruct (createInitialQueue_free name w Hname Hq) as (in_ & w1 & _ & Hc & Hsrv).
    exists w1. eexists. split; [exact Hc|].
    unfold GetQueue. rewrite fetchQueue_lookup, Hsrv. cbn [qs].
    rewrite lookup_insert_eq. reflexivity.
Qed.

Lemma createInitialQueue_creates_witness :
  exists w1 p, createInitialQueue ex_queue NewServer = (Ok tt, w1)
    /\ GetQueue ex_queue w1 = (Ok p, w1).
Proof.
  assert (Hn : Regexp.full_match Regexp.queue_pattern ex_queue = true)
    by (vm_compute; reflexivity).
  pose proof (createInitialQueue_creates ex_queue NewServer Hn) as H.
  assert (Hq : qs (srv NewServer) !! ex_queue = None) by reflexivity.
  rewrite Hq in H. exact H.
Defined.

(** The loop over well-formed, distinct and free names creates them all. *)
Lemma createInitialQueues_ok names : forall w,
  Forall (fun name => Regexp.full_match Regexp.queue_pattern name = true) names ->
  NoDup names ->
  (forall name, name ∈ names -> qs (srv w) !! name = None) ->
  exists es w1,
    createInitialQueues names w = (Ok tt, w1)
    /\ run es w = Some w1
    /\ Options (srv w1) = Options (srv w)
    /\ (forall name, name ∈ names -> exists q, qs (srv w1) !! name = Some (Some q))
    /\ (forall name, name ∉ names -> qs (srv w1) !! name = qs (srv w) !! name).
Proof.
  induction names as [|name names IH]; intros w Hwf Hnd Hfree.
  - exists [], w. split; [reflexivity|]. split; [reflexivity|]. split; [reflexivity|].
    split; [|reflexivity].
    intros name Hin. apply elem_of_nil in Hin. contradiction.
  - apply Forall_cons in Hwf as [Hname Hwf]. apply NoDup_cons in Hnd as [Hnin Hnd].
    assert (Hq : qs (srv w) !! name = None) by (apply Hfree; apply elem_of_cons; auto).
    destruct (createInitialQueue_free name w Hname Hq) as (in_ & w1 & Hcq & Hc & Hsrv).
    destruct (IH w1 Hwf Hnd) as (es & w2 & Hcs & Hrun & Hopt & Hin & Hout).
    { intros n Hn. rewrite Hsrv. cbn [qs].
      rewrite lookup_insert_ne by (intros ->; contradiction).
      apply Hfree. apply elem_of_cons. auto. }
    exists (ECreateQueue in_ :: es), w2.
    split; [cbn [createInitialQueues]; rewrite Hc; exact Hcs|].
    split; [cbn [run exec]; unfold survive; rewrite Hcq; cbn [fst snd]; exact Hrun|].
    split; [rewrite Hopt, Hsrv; reflexivity|].
    split.
    + intros n [Heq|Hn]%elem_of_cons; [subst n|exact (Hin n Hn)].
      rewrite (Hout name Hnin), Hsrv. cbn [qs]. rewrite lookup_insert_eq. eauto.
    + intros n Hn. apply not_elem_of_cons in Hn as [Hne Hn].
      rewrite (Hout n Hn), Hsrv. cbn [qs]. apply lookup_insert_ne. congruence.
Qed.

(** X15: Started with [-queue] flags that give distinct well-formed names, the
    command gets to serve: no initial queue makes it panic, every one of them
    is live, and the state it serves from is one the handlers can reach, so
    what holds in every reachable state holds from the start. *)
Theorem main_creates_initial_queues (hardReset : bool) (initialQueues : list string) :
  Forall (fun name => Regexp.full_match Regexp.queue_pattern name = true) initialQueues ->
  NoDup initialQueues ->
  exists w, main hardReset initialQueues = (Ok tt, w)
    /\ reachable w
    /\ Options (srv w) = mkServerOptions hardReset
    /\ forall name, is_Some (fst (fetchQueue w name)) <-> name ∈ initialQueues.
Proof.
  intros Hwf Hnd.
  destruct (createInitialQueues_ok initialQueues (boot hardReset) Hwf Hnd)
    as (es & w & Hc & Hrun & Hopt & Hin & Hout); [intros name _; reflexivity|].
  exists w. split; [exact Hc|]. split; [exists hardReset, es; exact Hrun|].
  split.
  - rewrite Hopt. reflexivity.
  - intros name. rewrite fetchQueue_lookup.
    destruct (decide (name ∈ initialQueues)) as [Hi|Hni].
    + destruct (Hin name Hi) as [q ->]. cbn [fst]. split; [intros _; exact Hi|eauto].
    + rewrite (Hout name Hni). cbn. split; [intros [? H]; discriminate H|contradiction].
Qed.

Lemma main_creates_initial_queues_witness :
  exists w, main true [ex_queue] = (Ok tt, w)
    /\ reachable w
    /\ Options (srv w) = mkServerOptions true
    /\ forall name, is_Some (fst (fetchQueue w name)) <-> name ∈ [ex_queue].
Proof.
  apply (main_creates_initial_queues true [ex_queue]).
  - apply Forall_cons. split; [vm_compute; reflexivity|apply Forall_nil; exact I].
  - apply NoDup_singleton.
Defined.

(** ** What makes the server crash *)

(** X16: The crash inputs are all there are: a handler panics on them and on
    nothing else.  In particular CreateQueue never panics, a request without
    a queue being rejected for its empty name, and neither does any call that
    reads or deletes by name. *)
Theorem crashes_characterised (e : Event) (w : World) :
  fst (handle e w) = Panic <-> crash_input e w.
Proof.
  destruct e; cbn [handle forget fst snd crash_input].
  - split; [|contradiction]. unfold CreateQueue.
    destruct (CreateQueueRequest.Queue in_) as [m|] eqn:Hm.
    + repeat (case_match; cbn [fst snd] in * ); congruence.
    + cbn [Queue_GetName].
      assert (Hno : Regexp.MatchString Regexp.queue_pattern "" = false)
        by (vm_compute; reflexivity).
      rewrite Hno. cbn [negb fst]. discriminate.
  - split; [|contradiction]. unfold GetQueue.
    repeat (case_match; cbn [fst snd] in * ); congruence.
  - split; [discriminate|contradiction].
  - split; [discriminate|contradiction].
  - split; [|contradiction]. unfold DeleteQueue.
    repeat (case_match; cbn [fst snd] in * ); congruence.
  - unfold PurgeQueue. rewrite fetchQueue_lookup.
    destruct (qs (srv w) !! name) as [[q|]|]; cbn [fst]; split; try congruence;
      intros H; exfalso; exact (H q eq_refl).
  - unfold PauseQueue. rewrite fetchQueue_lookup.
    destruct (qs (srv w) !! name) as [[q|]|]; cbn [fst]; split; try congruence;
      intros H; exfalso; exact (H q eq_refl).
  - unfold ResumeQueue. rewrite fetchQueue_lookup.
    destruct (qs (srv w) !! name) as [[q|]|]; cbn [fst]; split; try congruence;
      intros H; exfalso; exact (H q eq_refl).
  - unfold ListTasks. rewrite fetchQueue_lookup.
    destruct (qs (srv w) !! ListTasksRequest.Parent in_) as [[q|]|]; cbn [fst];
      [|split; [discriminate|intros [[? H] _]; discriminate H]..].
    destruct (token_offset _) as [start|]; cbn [fst];
      [|split; [discriminate|intros (_ & ? & H & _); discriminate H]].
    unfold Go.slice_from. rewrite sorted_live_length.
    destruct (Z.leb_spec 0 start) as [H0|H0];
      destruct (Z.leb_spec start (Z.of_nat (length (live_of visit)))) as [H1|H1];
      cbn [andb fst].
    2-4: split; [intros _|reflexivity]; split; [eauto|];
         exists start; split; [reflexivity|lia].
    split.
    + intros H. exfalso. repeat (case_match; cbn [fst snd] in * ); congruence.
    + intros (_ & s & Hs & Hr). injection Hs as <-. exfalso. apply Hr. lia.
  - split; [|contradiction]. unfold GetTask.
    repeat (case_match; cbn [fst snd] in * ); congruence.
  - unfold CreateTask. rewrite fetchQueue_lookup.
    destruct (qs (srv w) !! CreateTaskRequest.Parent in_) as [[q|]|]; cbn [fst];
      [|split; [discriminate|intros [[? H] _]; discriminate H]..].
    destruct (CreateTaskRequest.Task in_) as [task|]; cbn [fst].
    + split; [|intros [_ H]; discriminate H].
      intros H. exfalso. repeat (case_match; cbn [fst snd] in * ); congruence.
    + split; [eauto|reflexivity].
  - split; [|contradiction]. unfold DeleteTask.
    repeat (case_match; cbn [fst snd] in * ); congruence.
  - split; [|contradiction]. unfold RunTask.
    repeat (case_match; cbn [fst snd] in * ); congruence.
  - split; [discriminate|contradiction].
  - split; [discriminate|contradiction].
Qed.

(** ** A created task is listed *)

Lemma live_of_length visit : (length (live_of visit) <= length visit)%nat.
Proof. unfold live_of. induction visit as [|[k [t|]] l IH]; cbn; lia. Qed.

(** X17: CreateTask and ListTasks: a task that was accepted is in the task set of
    its queue, so a ListTasks of the parent that asks for the first page with
    the default size, and gets the whole list in it, returns the task's state,
    the same object GetTask returns for its name. *)
Theorem CreateTask_then_ListTasks (in_ : CreateTaskRequest.t) (now : Z) (rnd : string)
    (w w1 : World) (p : loc) :
  CreateTask in_ now rnd w = (Ok p, w1) ->
  exists queue p',
    fetchQueue w1 (CreateTaskRequest.Parent in_) = (Some queue, true)
    /\ GetTask (tasks.Task.Name (task_msg w1 p)) w1 = (Ok p', w1)
    /\ forall visit,
         visit ≡ₚ map_to_list (Queue.ts (queue_at w1 queue)) ->
         (length visit <= 1000)%nat ->
         exists resp,
           ListTasks (ListTasksRequest.mk (CreateTaskRequest.Parent in_) 0 "") visit w1
           = (Ok resp, w1)
           /\ p' ∈ ListTasksResponse.Tasks resp
           /\ ListTasksResponse.NextPageToken resp = "".
Proof.
  intros H.
  destruct (CreateTask_Ok_inv in_ now rnd w p w1 H) as (queue & task & Hq & Ht & Hc & Hn & _).
  rewrite (CreateTask_accepted in_ now rnd w queue task Hq Ht Hc) in H.
  pose proof (f_equal snd H) as Hw. cbn [snd] in Hw. clear H.
  set (name := new_task_name w queue task rnd) in *.
  assert (Hsrv : srv w1 = mkServer (qs (srv w)) (<[name := Some (S (nextLoc w))]> (ts (srv w)))
                            (Options (srv w))).
  { subst w1. unfold setTask, upd_ts. cbn [srv]. rewrite Queue_NewTask_srv. reflexivity. }
  assert (Hobjs : taskObjs w1 = <[S (nextLoc w) := Task.mk (nextLoc w) queue false]> (taskObjs w)).
  { subst w1. unfold setTask, upd_ts. cbn [taskObjs]. apply Queue_NewTask_taskObjs. }
  assert (Hqobjs : queueObjs w1
                   = <[queue := with_ts (insert name (Some (S (nextLoc w)))) (queue_at w queue)]>
                       (queueObjs w)).
  { subst w1. unfold setTask, upd_ts. cbn [queueObjs]. apply Queue_NewTask_queueObjs. }
  assert (Hstate : Task.state (task_at w1 (S (nextLoc w))) = nextLoc w).
  { unfold task_at. rewrite Hobjs, lookup_total_insert_eq. reflexivity. }
  assert (Hq1 : fetchQueue w1 (CreateTaskRequest.Parent in_) = (Some queue, true)).
  { rewrite fetchQueue_lookup, Hsrv. cbn [qs]. rewrite <- fetchQueue_lookup. exact Hq. }
  exists queue, (nextLoc w). split; [exact Hq1|]. split.
  { rewrite Hn. unfold GetTask. rewrite fetchTask_lookup, Hsrv. cbn [ts].
    rewrite lookup_insert_eq, Hstate. reflexivity. }
  intros visit Hv Hlen.
  assert (Hin : S (nextLoc w) ∈ live_of visit).
  { unfold live_of. apply list_elem_of_omap. exists (name, Some (S (nextLoc w))).
    split; [|reflexivity]. rewrite Hv. apply elem_of_map_to_list.
    unfold queue_at. rewrite Hqobjs, lookup_total_insert_eq. cbn [with_ts Queue.ts].
    apply lookup_insert_eq. }
  assert (Hlive : (length (live_of visit) <= 1000)%nat).
  { pose proof (live_of_length visit). lia. }
  set (sorted := Go.SliceStable (Go.by_key (task_name w1)) (live_of visit)).
  assert (Hsl : length sorted = length (live_of visit)) by apply sorted_live_length.
  exists (ListTasksResponse.mk ((fun t => Task.state (task_at w1 t)) <$> sorted) "").
  split; [|split; [|reflexivity]].
  - unfold ListTasks. cbn [ListTasksRequest.Parent ListTasksRequest.PageToken
                            ListTasksRequest.PageSize].
    rewrite Hq1. fold sorted. unfold token_offset. cbn [decide].
    rewrite decide_True by reflexivity.
    unfold Go.slice_from. cbn [Z.leb Z.compare andb].
    assert (H0 : (0 <=? Z.of_nat (length sorted)) = true) by (apply Z.leb_le; lia).
    rewrite H0. cbn [Z.to_nat drop Z.ltb Z.compare orb effective_page_size Z.eqb].
    change (Z.to_nat 0) with 0%nat. rewrite drop_0.
    assert (Hp : (1000 <? Z.of_nat (length sorted)) = false) by (apply Z.ltb_ge; lia).
    rewrite Hp. reflexivity.
  - cbn [ListTasksResponse.Tasks]. apply list_elem_of_fmap.
    exists (S (nextLoc w)). split; [symmetry; exact Hstate|].
    unfold sorted. rewrite GoFacts.SliceStable_perm. exact Hin.
Qed.

Lemma CreateTask_then_ListTasks_witness :
  exists queue p',
    fetchQueue w_task (CreateTaskRequest.Parent (ex_create_task ex_task)) = (Some queue, true)
    /\ GetTask (tasks.Task.Name (task_msg w_task 5%nat)) w_task = (Ok p', w_task)
    /\ forall visit,
         visit ≡ₚ map_to_list (Queue.ts (queue_at w_task queue)) ->
         (length visit <= 1000)%nat ->
         exists resp,
           ListTasks (ListTasksRequest.mk
                        (CreateTaskRequest.Parent (ex_create_task ex_task)) 0 "") visit w_task
           = (Ok resp, w_task)
           /\ p' ∈ ListTasksResponse.Tasks resp
           /\ ListTasksResponse.NextPageToken resp = "".
Proof.
  exact (CreateTask_then_ListTasks (ex_create_task ex_task) 0 ex_id w_queue w_task 5%nat
           w_task_accepted).
Defined.

(** ** Queues keep their names *)

(** The engine rewrites queue objects without touching their names. *)
Lemma qname_Task_finish t w q :
  Queue.name (queue_at (Task_finish t w) q) = Queue.name (queue_at w q).
Proof.
  rewrite Task_finish_steps. unfold queue_at at 1. unfold upd_queueObjs. cbn [queueObjs].
  destruct (decide (Task.queue (task_at w t) = q)) as [->|Hne].
  - rewrite lookup_total_insert_eq. reflexivity.
  - rewrite lookup_total_insert_ne by exact Hne. reflexivity.
Qed.

Lemma qname_Task_Delete t w q :
  Queue.name (queue_at (Task_Delete t w) q) = Queue.name (queue_at w q).
Proof. unfold Task_Delete. destruct (Task.done _); [reflexivity|apply qname_Task_finish]. Qed.

Lemma qname_delete_all l : forall w q,
  Queue.name (queue_at (delete_all l w) q) = Queue.name (queue_at w q).
Proof.
  unfold delete_all. induction l as [|t l IH]; intros w q; cbn [foldl]; [reflexivity|].
  rewrite IH. apply qname_Task_Delete.
Qed.

Lemma qname_Task_Attempt t status now w q :
  Queue.name (queue_at (Task_Attempt t status now w) q) = Queue.name (queue_at w q).
Proof.
  unfold Task_Attempt.
  repeat case_match; try reflexivity; rewrite qname_Task_finish; reflexivity.
Qed.

Lemma qname_purge_worker w q :
  Queue.name (queue_at (purge_worker w) q) = Queue.name (queue_at w q).
Proof.
  unfold purge_worker. destruct (purging w); [reflexivity|].
  rewrite qname_delete_all. reflexivity.
Qed.

Lemma qname_update q0 f w q :
  (forall qo, Queue.name (f qo) = Queue.name qo) ->
  Queue.name (queue_at (upd_queueObjs (insert q0 (f (queue_at w q0))) w) q)
  = Queue.name (queue_at w q).
Proof.
  intros Hf. unfold queue_at at 1. unfold upd_queueObjs. cbn [queueObjs].
  destruct (decide (q0 = q)) as [->|Hne].
  - rewrite lookup_total_insert_eq. apply Hf.
  - rewrite lookup_total_insert_ne by exact Hne. reflexivity.
Qed.

Lemma qname_Queue_Delete q0 w q :
  Queue.name (queue_at (Queue_Delete q0 w) q) = Queue.name (queue_at w q).
Proof.
  unfold Queue_Delete. rewrite qname_delete_all.
  apply (qname_update q0 (with_cancelled true)). reflexivity.
Qed.

Lemma qname_hardDelete_all (entries : list (string * option loc)) : forall w q,
  Queue.name (queue_at (foldl (fun w kv => hardDeleteTask (fst kv) w) w entries) q)
  = Queue.name (queue_at w q).
Proof.
  induction entries as [|kv entries IH]; intros w q; cbn [foldl]; [reflexivity|].
  rewrite IH. reflexivity.
Qed.

Lemma qname_Queue_HardReset q0 w q :
  Queue.name (queue_at (Queue_HardReset q0 w) q) = Queue.name (queue_at w q).
Proof.
  unfold Queue_HardReset.
  rewrite (qname_update q0 (with_ts (fun _ => ∅))) by reflexivity.
  rewrite qname_hardDelete_all, qname_delete_all. reflexivity.
Qed.

Lemma qname_Queue_NewTask q0 m now rnd w q :
  Queue.name (queue_at (snd (Queue_NewTask q0 m now rnd w)) q) = Queue.name (queue_at w q).
Proof.
  unfold queue_at at 1. rewrite Queue_NewTask_queueObjs.
  destruct (decide (q0 = q)) as [->|Hne].
  - rewrite lookup_total_insert_eq. reflexivity.
  - rewrite lookup_total_insert_ne by exact Hne. reflexivity.
Qed.

(** One event keeps the live queues under their names. *)
Lemma named_queues_exec e w w' :
  wf w -> named_queues w -> exec e w = Some w' -> named_queues w'.
Proof.
  intros Hwf Hnq He. destruct e; cbn [exec] in He;
    try (apply survive_Some in He; subst w').
  - destruct (CreateQueue_cases in_ w) as [(c & msg & ->)|(m & Hm & Hn & Hp1 & Hp2)];
      [exact Hnq|].
    rewrite (CreateQueue_new in_ m w Hp1 Hp2 Hm Hn). cbn [snd].
    intros n q Hq. rewrite new_queue_srv in Hq. cbn [qs] in Hq.
    assert (Hobjs :
              queueObjs (setQueue (tasks.Queue.Name m) (Some (S (nextLoc w)))
                           (snd (NewQueue (tasks.Queue.Name m) (nextLoc w)
                                   (snd (store_Queue m w)))))
              = <[S (nextLoc w) := Queue.mk (tasks.Queue.Name m) (nextLoc w) ∅ false]>
                  (queueObjs w)) by reflexivity.
    unfold queue_at. rewrite Hobjs.
    destruct (decide (tasks.Queue.Name m = n)) as [<-|Hne].
    + rewrite lookup_insert_eq in Hq. injection Hq as <-.
      rewrite lookup_total_insert_eq. reflexivity.
    + rewrite lookup_insert_ne in Hq by exact Hne.
      destruct (wf_queues w Hwf n q Hq) as [qo Hqo].
      destruct (wf_queue_objs w Hwf q qo Hqo) as [Hlt _].
      rewrite lookup_total_insert_ne by lia. exact (Hnq n q Hq).
  - unfold GetQueue. repeat case_match; exact Hnq.
  - exact Hnq.
  - exact Hnq.
  - unfold DeleteQueue. destruct (fetchQueue w name) as [[q0|] []]; try exact Hnq.
    cbn [snd]. intros n q Hq.
    unfold removeQueue, setQueue, upd_qs in Hq. cbn [srv qs] in Hq.
    destruct (decide (name = n)) as [->|Hne].
    + rewrite lookup_insert_eq in Hq. discriminate Hq.
    + rewrite lookup_insert_ne in Hq by exact Hne. rewrite qs_Queue_Delete in Hq.
      change (Queue.name (queue_at (Queue_Delete q0 w) q) = n).
      rewrite qname_Queue_Delete. exact (Hnq n q Hq).
  - unfold PurgeQueue. destruct (fetchQueue w name) as [[q0|] ok]; [|exact Hnq].
    cbn [snd]. destruct (HardResetOnPurgeQueue _); [|exact Hnq].
    intros n q Hq. rewrite qs_Queue_HardReset in Hq.
    rewrite qname_Queue_HardReset. exact (Hnq n q Hq).
  - unfold PauseQueue. destruct (fetchQueue w name) as [[q0|] ok]; exact Hnq.
  - unfold ResumeQueue. destruct (fetchQueue w name) as [[q0|] ok]; exact Hnq.
  - unfold ListTasks. repeat case_match; exact Hnq.
  - unfold GetTask. repeat case_match; exact Hnq.
  - unfold CreateTask.
    destruct (fetchQueue w (CreateTaskRequest.Parent in_)) as [[q0|] []]; try exact Hnq.
    destruct (CreateTaskRequest.Task in_) as [task|]; [|exact Hnq].
    destruct (check_task_name w _ _) as [[c msg]|]; [exact Hnq|].
    rewrite (surjective_pairing (Queue_NewTask q0 task now rnd w)).
    rewrite Queue_NewTask_result. cbn [snd].
    intros n q Hq. unfold setTask, upd_ts in Hq. cbn [srv qs] in Hq.
    rewrite Queue_NewTask_srv in Hq.
    change (Queue.name (queue_at (snd (Queue_NewTask q0 task now rnd w)) q) = n).
    rewrite qname_Queue_NewTask. exact (Hnq n q Hq).
  - unfold DeleteTask. destruct (fetchTask w name) as [[t|] []]; try exact Hnq.
    cbn [snd]. intros n q Hq. rewrite qs_Task_Delete in Hq.
    rewrite qname_Task_Delete. exact (Hnq n q Hq).
  - unfold RunTask. destruct (fetchTask w name) as [[t|] []]; exact Hnq.
  - injection He as <-. intros n q Hq. rewrite qs_Task_Attempt in Hq.
    rewrite qname_Task_Attempt. exact (Hnq n q Hq).
  - injection He as <-. intros n q Hq. rewrite qs_purge_worker in Hq.
    rewrite qname_purge_worker. exact (Hnq n q Hq).
Qed.

Lemma named_queues_run es : forall w w',
  wf w -> named_queues w -> run es w = Some w' -> named_queues w'.
Proof.
  induction es as [|e es IH]; intros w w' Hwf Hnq Hrun; cbn [run] in Hrun.
  - injection Hrun as <-. exact Hnq.
  - destruct (exec e w) as [w1|] eqn:He; [|discriminate Hrun].
    apply (IH w1 w'); [exact (wf_exec e w w1 Hwf He)| |exact Hrun].
    exact (named_queues_exec e w w1 Hwf Hnq He).
Qed.

Lemma reachable_named_queues w : reachable w -> named_queues w.
Proof.
  intros (hardReset & es & Hrun).
  apply (named_queues_run es (boot hardReset) w (wf_boot hardReset)); [|exact Hrun].
  intros n q Hq. cbn in Hq. rewrite lookup_empty in Hq. discriminate Hq.
Qed.

Lemma string_app_assoc (a b c : string) : ((a ++ b) ++ c)%string = (a ++ b ++ c)%string.
Proof.
  induction a as [|x a IH]; [reflexivity|].
  rewrite !RegexpFacts.append_cons, IH. reflexivity.
Qed.

Lemma HasPrefix_app (a b : string) : Go.HasPrefix (a ++ b) a = true.
Proof.
  unfold Go.HasPrefix. induction a as [|x a IH]; [destruct b; reflexivity|].
  rewrite RegexpFacts.append_cons. cbn [String.prefix].
  destruct (ascii_dec x x) as [_|Hne]; [exact IH|contradiction].
Qed.

(** X18: A generated task name lies inside the queue the request names: in every
    reachable state a CreateTask without a task name is accepted whenever its
    parent is a live queue, and the name it returns is the parent, [/tasks/]
    and the id that was drawn. *)
Theorem CreateTask_generated_name_in_parent (in_ : CreateTaskRequest.t)
    (task : tasks.Task.t) (now : Z) (rnd : string) (w : World) (queue : loc) :
  reachable w ->
  fetchQueue w (CreateTaskRequest.Parent in_) = (Some queue, true) ->
  CreateTaskRequest.Task in_ = Some task ->
  tasks.Task.Name task = "" ->
  exists p w1,
    CreateTask in_ now rnd w = (Ok p, w1)
    /\ tasks.Task.Name (task_msg w1 p)
       = (CreateTaskRequest.Parent in_ ++ "/tasks/" ++ rnd)%string
    /\ Go.HasPrefix (tasks.Task.Name (task_msg w1 p))
         (CreateTaskRequest.Parent in_ ++ "/tasks/") = true.
Proof.
  intros Hr Hq Ht Hn.
  assert (Hc : check_task_name w (CreateTaskRequest.Parent in_) (tasks.Task.Name task) = None).
  { unfold check_task_name. rewrite Hn. reflexivity. }
  pose proof (CreateTask_accepted in_ now rnd w queue task Hq Ht Hc) as Hacc.
  destruct (CreateTask_Ok_inv in_ now rnd w _ _ Hacc)
    as (queue' & task' & Hq' & Ht' & _ & Hname & _).
  rewrite Hq in Hq'. injection Hq' as <-. rewrite Ht in Ht'. injection Ht' as <-.
  assert (Hqn : Queue.name (queue_at w queue) = CreateTaskRequest.Parent in_).
  { apply (reachable_named_queues w Hr). apply fetchQueue_live. exact Hq. }
  assert (Hnew : new_task_name w queue task rnd
                 = (CreateTaskRequest.Parent in_ ++ "/tasks/" ++ rnd)%string).
  { unfold new_task_name. rewrite Hn, Hqn. reflexivity. }
  eexists _, _. split; [exact Hacc|].
  rewrite Hname, Hnew. split; [reflexivity|].
  rewrite <- string_app_assoc. apply HasPrefix_app.
Qed.

Lemma CreateTask_generated_name_in_parent_witness :
  exists p w1,
    CreateTask (ex_create_task "") 1 "0000000000000000042" w_task = (Ok p, w1)
    /\ tasks.Task.Name (task_msg w1 p) = (ex_queue ++ "/tasks/" ++ "0000000000000000042")%string
    /\ Go.HasPrefix (tasks.Task.Name (task_msg w1 p)) (ex_queue ++ "/tasks/") = true.
Proof.
  apply (CreateTask_generated_name_in_parent (ex_create_task "") (ex_task_msg "") 1
           "0000000000000000042" w_task 1%nat w_task_reachable).
  - vm_compute. reflexivity.
  - reflexivity.
  - reflexivity.
Defined.

(** ** A deleted task is no longer listed *)

(** X19: DeleteTask and ListTasks: in every reachable state, once DeleteTask has
    deleted a live task, no page ListTasks returns for the task's queue holds
    a task of that name. *)
Theorem DeleteTask_then_ListTasks (name parent : string) (t queue : loc) (w : World) :
  reachable w ->
  ts (srv w) !! name = Some (Some t) ->
  fetchQueue w parent = (Some queue, true) ->
  Task.queue (task_at w t) = queue ->
  exists w1, DeleteTask name w = (Ok tt, w1)
    /\ forall in_ visit resp,
         ListTasksRequest.Parent in_ = parent ->
         visit ≡ₚ map_to_list (Queue.ts (queue_at w1 queue)) ->
         fst (ListTasks in_ visit w1) = Ok resp ->
         forall p, p ∈ ListTasksResponse.Tasks resp ->
           tasks.Task.Name (task_msg w1 p) <> name.
Proof.
  intros Hr Hts Hq Hqueue. apply reachable_wf in Hr.
  destruct (wf_tasks w Hr name t Hts) as (obj & Hobj & Hdone & Hname).
  assert (Hat : task_at w t = obj).
  { unfold task_at. rewrite lookup_total_alt, Hobj. reflexivity. }
  assert (Hd : Task.done (task_at w t) = false) by (rewrite Hat; exact Hdone).
  assert (Hn : task_name w t = name) by (unfold task_name; rewrite Hat; exact Hname).
  exists (Task_Delete t w).
  split; [unfold DeleteTask; rewrite fetchTask_lookup, Hts; reflexivity|].
  pose proof (wf_Task_Delete t w Hr) as Hwf1.
  assert (Hqo : queueObjs (Task_Delete t w) !! queue
                = Some (with_ts (insert name None) (queue_at w queue))).
  { unfold Task_Delete. rewrite Hd, Task_finish_steps, Hqueue, Hn.
    unfold upd_queueObjs. cbn [queueObjs]. apply lookup_insert_eq. }
  intros in_ visit resp _ Hv Hok p Hp.
  destruct (ListTasks_Ok_tasks in_ visit _ resp Hok p Hp) as (t' & Hin & ->).
  unfold live_of in Hin. apply list_elem_of_omap in Hin as ([k v] & Hkv & Hsome).
  cbn in Hsome. subst v.
  rewrite Hv, (queue_at_allocated _ queue _ Hqo) in Hkv.
  apply elem_of_map_to_list in Hkv. cbn [with_ts Queue.ts] in Hkv.
  destruct (wf_queue_ts _ Hwf1 queue _ k t' Hqo Hkv) as (obj' & Hobj' & Hname').
  assert (Hat' : task_at (Task_Delete t w) t' = obj').
  { unfold task_at. rewrite lookup_total_alt, Hobj'. reflexivity. }
  rewrite Hat'. unfold task_msg. rewrite Hname'.
  intros ->. rewrite lookup_insert_eq in Hkv. discriminate Hkv.
Qed.

Lemma DeleteTask_then_ListTasks_witness :
  exists w1, DeleteTask ex_task w_two = (Ok tt, w1)
    /\ forall in_ visit resp,
         ListTasksRequest.Parent in_ = ex_queue ->
         visit ≡ₚ map_to_list (Queue.ts (queue_at w1 1%nat)) ->
         fst (ListTasks in_ visit w1) = Ok resp ->
         forall p, p ∈ ListTasksResponse.Tasks resp ->
           tasks.Task.Name (task_msg w1 p) <> ex_task.
Proof.
  apply (DeleteTask_then_ListTasks ex_task ex_queue 4%nat 1%nat w_two w_two_reachable).
  - vm_compute. reflexivity.
  - vm_compute. reflexivity.
  - vm_compute. reflexivity.
Defined.
